(** * A shallow embedding of the Cloud Storage XML API client

    The development follows the three Python 2 modules of the client:
    [gcs_error.py] (the [GcsError] exception), [gcs.py] (the abstract
    [Gcs] class holding the defaults) and [gcs_xml.py] (the [GcsXml]
    class: bucket-name validation, XML bodies, request construction and
    response interpretation).

    Python [str] values are byte strings and are modelled by [string];
    header dictionaries by [gmap string string]; Python's dynamically
    typed arguments by the inductive [value]; exceptions by [exn] and an
    error/state monad [M] over a [world] that records every request
    handed to the transport. *)

From Stdlib Require Import ZArith Ascii String DecimalString DecimalPos DecimalZ SpecFloat Lia.
From stdpp Require Import base option list strings gmap.

Local Open Scope Z_scope.

(** ** Python values and built-ins *)

Module py.

(** The values that reach the dynamically typed parameters of the
    client. [PyInt] is the machine [int] of Python 2, [PyLong] its
    arbitrary-precision [long], [PyFloat] a binary64 number. *)
Inductive value : Type :=
| PyNone
| PyBool (b : bool)
| PyInt (z : Z)
| PyLong (z : Z)
| PyFloat (f : spec_float)
| PyStr (s : string).

(** Truth value testing ([if x:] / [not x]). *)
Definition truthy (v : value) : bool :=
  match v with
  | PyNone => false
  | PyBool b => b
  | PyInt z | PyLong z => negb (z =? 0)
  | PyFloat f => match f with S754_zero _ => false | _ => true end
  | PyStr s => negb (String.eqb s "")
  end.

(** Truth value of a [str]. *)
Definition str_truthy (s : string) : bool := negb (String.eqb s "").

(** Truth value of an argument that is either [None] or a [str]. *)
Definition opt_truthy (o : option string) : bool :=
  match o with
  | Some s => str_truthy s
  | None => false
  end.

(** Truth value of an argument that is either [None] or a list. *)
Definition list_truthy {A} (o : option (list A)) : bool :=
  match o with
  | Some (_ :: _) => true
  | _ => false
  end.

(** ['%d' % z]. *)
Definition fmt_d (z : Z) : string := NilZero.string_of_int (Z.to_int z).

(** [len(s)] of a [str]. *)
Definition len (s : string) : Z := Z.of_nat (String.length s).

(** [str.strip()] with no argument: the whitespace of the C locale,
    bytes 9 to 13 and 32. *)
Fixpoint lstrip (s : string) : string :=
  match s with
  | String c s' => if Ascii.is_space c then lstrip s' else s
  | EmptyString => EmptyString
  end.

Fixpoint rstrip (s : string) : string :=
  match s with
  | String c s' =>
      let r := rstrip s' in
      if Ascii.is_space c && String.eqb r "" then EmptyString
      else String c r
  | EmptyString => EmptyString
  end.

Definition strip (s : string) : string := rstrip (lstrip s).

(** [os.path.basename] of [posixpath]: what follows the last slash. *)
Fixpoint basename (p : string) : string :=
  match p with
  | String c p' =>
      let b := basename p' in
      if Ascii.eqb c "/" then b
      else if existsb (Ascii.eqb "/") (list_ascii_of_string p') then b
      else p
  | EmptyString => EmptyString
  end.

(** *** ['%f' % x] for a binary64 [x] (CPython 2.7)

    A finite [x] is printed in fixed notation with six digits after the
    point, correctly rounded (ties to even) from its exact binary value;
    the infinities and the NaN are printed by name. (Before 2.7 CPython
    switched to ['%g'] from [1e50] on.) *)

Definition round_half_even (num den : Z) : Z :=
  let q := num / den in
  let r := num mod den in
  if 2 * r <? den then q
  else if den <? 2 * r then q + 1
  else if Z.even q then q else q + 1.

(** [n] zeros. *)
Fixpoint zeros (n : nat) : string :=
  match n with
  | O => EmptyString
  | S n' => String "0" (zeros n')
  end.

(** [s] with zeros on its left up to [width] characters. *)
Definition zero_pad (width : nat) (s : string) : string :=
  zeros (width - String.length s) +:+ s.

Definition sign_str (neg : bool) : string := if neg then "-" else "".

(** Fixed notation with six decimals of the rational [num/den >= 0]. *)
Definition fmt_fixed6 (neg : bool) (num den : Z) : string :=
  let n := round_half_even (num * 10 ^ 6) den in
  sign_str neg +:+ fmt_d (n / 10 ^ 6) +:+ "." +:+ zero_pad 6 (fmt_d (n mod 10 ^ 6)).

Definition fmt_f (x : spec_float) : string :=
  match x with
  | S754_zero s => fmt_fixed6 s 0 1
  | S754_infinity s => sign_str s +:+ "inf"
  | S754_nan => "nan"
  | S754_finite s m e =>
      if 0 <=? e then fmt_fixed6 s (Z.pos m * 2 ^ e) 1
      else fmt_fixed6 s (Z.pos m) (2 ^ (- e))
  end.

End py.

Import py.

(** ** Regular expressions ([re.match])

    The three patterns of [insert_bucket] are sequences of anchors and of
    character classes under [+] or [*]; [re.match] tries the pattern at
    the start of the string only and does not require that it consume
    the whole string. No flag is passed, hence [\w] is ASCII, [.] is any
    character but a newline, [^] is the start of the string, and [$] is
    the end of the string or the position just before a newline that
    ends it. *)

Module re.

Definition in_range (lo hi : N) (c : ascii) : bool :=
  ((lo <=? N_of_ascii c) && (N_of_ascii c <=? hi))%N.

(** [[a-zA-Z0-9]] *)
Definition alnum (c : ascii) : bool :=
  in_range 97 122 c || in_range 65 90 c || in_range 48 57 c.

(** [\w] *)
Definition word (c : ascii) : bool := alnum c || Ascii.eqb c "_".

(** [[\w\-\.]] *)
Definition word_dash_dot (c : ascii) : bool :=
  word c || Ascii.eqb c "-" || Ascii.eqb c ".".

(** [.] *)
Definition dot (c : ascii) : bool := negb (Ascii.eqb c "010").

Inductive item : Type :=
| Bol                              (* ^ *)
| Eol                              (* $ *)
| Plus (cls : ascii -> bool)       (* cls+ *)
| Star (cls : ascii -> bool).      (* cls* *)

(** [$] holds at the end and before a final newline. *)
Definition at_eol (s : string) : bool :=
  match s with
  | EmptyString => true
  | String c EmptyString => Ascii.eqb c "010"
  | _ => false
  end.

(** [cls*] followed by the continuation [k], longest repetition
    first; [bos] tells whether the position is the start of the
    string. *)
Fixpoint star (cls : ascii -> bool) (k : bool -> string -> bool)
    (bos : bool) (s : string) : bool :=
  match s with
  | String c s' => cls c && star cls k false s'
  | EmptyString => false
  end || k bos s.

Fixpoint run (p : list item) (bos : bool) (s : string) : bool :=
  match p with
  | [] => true
  | Bol :: p' => bos && run p' bos s
  | Eol :: p' => at_eol s && run p' bos s
  | Plus cls :: p' =>
      match s with
      | String c s' => cls c && star cls (run p') false s'
      | EmptyString => false
      end
  | Star cls :: p' => star cls (run p') bos s
  end.

(** [re.match(p, s)] as a truth value. *)
Definition match_ (p : list item) (s : string) : bool := run p true s.

End re.

(** ** [gcs_error.py] and the exceptions of the run-time *)

Module gcs_error.

Inductive exn : Type :=
| GcsError (status : Z) (message : string)
| ValueError (message : string)
| TypeError
| IOError
| UnicodeDecodeError
| TransportError (name : string).

(** [GcsError.__str__]: ['%s: %s' % (repr(status), repr(message))] is
    not needed by the client itself and is left out. *)

End gcs_error.

Export gcs_error.

(** ** The transport and the world *)

Record request : Type := Request {
  req_url : string;
  req_method : string;
  req_headers : gmap string string;
  req_body : option string
}.

(** [httplib2.Response]: the status line and the response headers. *)
Record Response : Type := mkResponse {
  status : Z;
  reason : string;
  resp_headers : gmap string string
}.

(** What [auth_http.request] does with a request: it raises
    [httplib2.ServerNotFoundError], raises something else, or returns
    the pair of the response and the content. *)
Inductive transport_result : Type :=
| ServerNotFoundError
| TransportRaises (name : string)
| Reply (response : Response) (content : string).

(** The environment of a call: the requests handed to the transport so
    far, the lines printed, the readable files and the table of
    [mimetypes.guess_type]. *)
Record world : Type := World {
  sent : list request;
  stdout : list string;
  files : string -> option string;
  guess_type : string -> option string * option string
}.

(** Computations that may raise and that act on the world. *)
Definition M (A : Type) : Type := world -> world * (exn + A).

Definition ret {A} (a : A) : M A := fun w => (w, inr a).
Definition raise {A} (e : exn) : M A := fun w => (w, inl e).
Definition bind {A B} (m : M A) (k : A -> M B) : M B :=
  fun w =>
    match m w with
    | (w', inl e) => (w', inl e)
    | (w', inr a) => k a w'
    end.

#[global] Instance M_ret : MRet M := @ret.
#[global] Instance M_bind : MBind M := fun A B k m => bind m k.

(** Lift a pure computation that may raise. *)
Definition lift {A} (r : exn + A) : M A := fun w => (w, r).

(** [print s] *)
Definition print (s : string) : M unit :=
  fun w => (World (sent w) (stdout w ++ [s]) (files w) (guess_type w), inr tt).

(** [open(path, 'r').read()] *)
Definition read_file (path : option string) : M string :=
  fun w =>
    match path with
    | None => (w, inl TypeError)
    | Some p =>
        match files w p with
        | Some contents => (w, inr contents)
        | None => (w, inl IOError)
        end
    end.

(** [mimetypes.guess_type(path)] *)
Definition mimetypes_guess_type (path : string) : M (option string * option string) :=
  fun w => (w, inr (guess_type w path)).

(** ** [xml.etree.ElementTree] (Python 2.7), as far as the client uses it

    Elements carry a tag, a text and children; the client sets neither
    attributes nor tails. [text] is whatever the client assigns and is
    looked at by the serializer only. *)

Module xml.

Local Unset Elimination Schemes.
Inductive Element : Type :=
| mkElement (tag : string) (text : value) (children : list Element).
Local Set Elimination Schemes.

Definition tag (e : Element) : string := let 'mkElement t _ _ := e in t.
Definition text (e : Element) : value := let 'mkElement _ x _ := e in x.
Definition children (e : Element) : list Element := let 'mkElement _ _ c := e in c.

(** [xml.Element(tag)] *)
Definition new (tag : string) : Element := mkElement tag PyNone [].

(** [elem.text = v] *)
Definition set_text (e : Element) (v : value) : Element :=
  mkElement (tag e) v (children e).

(** [parent.append(child)]. [xml.SubElement(parent, tag)] appends the
    new child when it creates it and the client fills the child in
    afterwards through the alias it keeps; as nothing reads the parent
    in between, the model fills the child and then appends it, at the
    place of its creation. *)
Definition append (parent child : Element) : Element :=
  mkElement (tag parent) (text parent) (children parent ++ [child]).

(** [elem.findall(tag)]: the children with that tag, in order. *)
Definition findall (e : Element) (t : string) : list Element :=
  filter (fun c => tag c = t) (children e).

(** [elem.findall('a/b/c')] for each [elem] of a list: the elements
    reached from them along the tags of the path. *)
Fixpoint findall_path (es : list Element) (path : list string) : list Element :=
  match path with
  | [] => es
  | t :: path' => findall_path (concat (map (fun e => findall e t) es)) path'
  end.

(** [elem.find(tag)]: the first child with that tag. *)
Definition find (e : Element) (t : string) : option Element :=
  head (findall e t).

(** [s.replace(c, r)] for a one-character [c]. *)
Fixpoint replace (c : ascii) (r : string) (s : string) : string :=
  match s with
  | String a s' =>
      if Ascii.eqb a c then r +:+ replace c r s' else String a (replace c r s')
  | EmptyString => EmptyString
  end.

Definition is_ascii (s : string) : bool :=
  forallb (fun c => (N_of_ascii c <? 128)%N) (list_ascii_of_string s).

(** [_escape_cdata(text, 'utf-8')]: the three replacements, then
    [text.encode], which for a [str] decodes it as ASCII first; a text
    that is not a string is a serialization error ([TypeError]). *)
Definition _escape_cdata (text : value) : exn + string :=
  match text with
  | PyStr s =>
      let s := replace "&" "&amp;" s in
      let s := replace "<" "&lt;" s in
      let s := replace ">" "&gt;" s in
      if is_ascii s then inr s else inl UnicodeDecodeError
  | _ => inl TypeError
  end.

(** [_serialize_xml] for an element without attributes and tail. *)
Fixpoint _serialize_xml (e : Element) : exn + string :=
  match e with
  | mkElement tag text children =>
      if truthy text || negb (Nat.eqb (length children) 0) then
        match (if truthy text then _escape_cdata text else inr EmptyString) with
        | inl err => inl err
        | inr t =>
            match
              (fix each (l : list Element) : exn + string :=
                 match l with
                 | [] => inr EmptyString
                 | c :: l' =>
                     match _serialize_xml c with
                     | inl err => inl err
                     | inr sc =>
                         match each l' with
                         | inl err => inl err
                         | inr sl => inr (sc +:+ sl)
                         end
                     end
                 end) children
            with
            | inl err => inl err
            | inr cs => inr ("<" +:+ tag +:+ ">" +:+ t +:+ cs +:+ "</" +:+ tag +:+ ">")
            end
        end
      else inr ("<" +:+ tag +:+ " />")
  end.

(** [xml.tostring(element, 'utf-8')]: for the encodings utf-8 and
    us-ascii no declaration is written. *)
Definition tostring (e : Element) : exn + string := _serialize_xml e.

End xml.

(** ** [gcs.py] *)

Module gcs.

(** The attributes of a [Gcs] object. The methods of the class all
    raise [NotImplementedError] and are all overridden by [GcsXml]. *)
Record Gcs : Type := mkGcs {
  auth_http : request -> transport_result;
  project_id : string;
  default_origin : string;
  default_method : string;
  default_response_header : string;
  default_max_age_sec : value
}.

Definition __init__ (auth_http : request -> transport_result)
    (project_id : string) : Gcs :=
  {| auth_http := auth_http;
     project_id := project_id;
     default_origin := "*";
     default_method := "GET";
     default_response_header := "gcs-demo";
     default_max_age_sec := PyInt 1800 |}.

End gcs.

(** ** [gcs_xml.py] *)

Module gcs_xml.

Import gcs.

Definition DEFAULT_VERSION : string := "2".
Definition NOT_FOUND : Z := 404.

(** A [GcsXml] object: the attributes inherited from [Gcs] and its
    own. *)
Record GcsXml : Type := mkGcsXml {
  super : Gcs;
  api_version : string;
  _base_url : string
}.

Coercion super : GcsXml >-> Gcs.

(** [GcsXml.__init__]; [api_version = None] stands for the omitted
    argument. *)
Definition __init__ (auth_http : request -> transport_result)
    (project_id : string) (api_version : option string) : GcsXml :=
  {| super := gcs.__init__ auth_http project_id;
     api_version := default DEFAULT_VERSION api_version;
     _base_url := "storage.googleapis.com" |}.

(** [x] unless it is [None] or empty, [d] then ([if not x: x = d]). *)
Definition str_or (x : option string) (d : string) : string :=
  match x with
  | Some s => if str_truthy s then s else d
  | None => d
  end.

Definition list_or {A} (x : option (list A)) (d : list A) : list A :=
  match x with
  | Some l => if list_truthy x then l else d
  | None => d
  end.

(** [self.auth_http.request(url, method=, headers=, body=)]: the
    request is recorded in the world. *)
Definition http_request (self : GcsXml) (req : request) : M transport_result :=
  fun w =>
    (World (sent w ++ [req]) (stdout w) (files w) (guess_type w),
     inr (auth_http self req)).

(** The double quote, byte 34. *)
Definition dq : string := String "034" EmptyString.

(** The literal of [_xml_tostring]: the XML declaration, version 1.0
    and encoding UTF-8 between double quotes. *)
Definition XML_DECLARATION : string :=
  Eval cbv in
    "<?xml version=" +:+ dq +:+ "1.0" +:+ dq +:+ " encoding=" +:+ dq
      +:+ "UTF-8" +:+ dq +:+ "?>".

Definition _xml_tostring (root_elem : xml.Element) : exn + string :=
  match xml.tostring root_elem with
  | inl err => inl err
  | inr body => inr (XML_DECLARATION +:+ body)
  end.

Definition _get_location_constraint_body (self : GcsXml)
    (location_constraint : value) : exn + string :=
  let location_elem :=
    xml.set_text (xml.new "LocationConstraint") location_constraint in
  let bucket_config_elem :=
    xml.append (xml.new "CreateBucketConfiguration") location_elem in
  _xml_tostring bucket_config_elem.

(** One turn of the three loops of [_get_cors_body]: a child [child_tag]
    whose text is the stripped entry, or [dflt] when that is empty. *)
Definition cors_entry (child_tag : string) (dflt : string)
    (parent : xml.Element) (entry : string) : xml.Element :=
  let entry_text := strip entry in
  let entry_text := if str_truthy entry_text then entry_text else dflt in
  xml.append parent (xml.set_text (xml.new child_tag) (PyStr entry_text)).

(** The text given to the [MaxAgeSec] element. *)
Definition max_age_sec_text (max_age_sec : value) : value :=
  match max_age_sec with
  | PyInt z => PyStr (fmt_d z)            (* type(max_age_sec) is int *)
  | PyFloat f => PyStr (fmt_f f)          (* type(max_age_sec) is float *)
  | other => other
  end.

(** The tree that [_get_cors_body] builds before it serializes it. *)
Definition cors_config_elem (self : GcsXml) (origins methods
    response_headers : list string) (max_age_sec : value) : xml.Element :=
  let origins_elem :=
    fold_left (cors_entry "Origin" (default_origin self))
      origins (xml.new "Origins") in
  let methods_elem :=
    fold_left (cors_entry "Method" (default_method self))
      methods (xml.new "Methods") in
  let response_headers_elem :=
    fold_left (cors_entry "ResponseHeader" (default_response_header self))
      response_headers (xml.new "ResponseHeaders") in
  let max_age_sec_elem :=
    xml.set_text (xml.new "MaxAgeSec") (max_age_sec_text max_age_sec) in
  let cors_elem :=
    xml.append (xml.append (xml.append (xml.append (xml.new "Cors")
      origins_elem) methods_elem) response_headers_elem) max_age_sec_elem in
  xml.append (xml.new "CorsConfig") cors_elem.

Definition _get_cors_body (self : GcsXml) (origins methods
    response_headers : list string) (max_age_sec : value) : exn + string :=
  _xml_tostring
    (cors_config_elem self origins methods response_headers max_age_sec).

Definition _api_request (self : GcsXml) (url : string)
    (method : option string) (headers : option (gmap string string))
    (body : option string) : M (Response * string) :=
  let method := str_or method (default_method self) in
  let headers := default ∅ headers in
  let headers := <["x-goog-project-id" := project_id self]> headers in
  let headers := <["x-goog-api-version" := api_version self]> headers in
  let headers :=
    if String.eqb method "POST" || String.eqb method "PUT" || opt_truthy body
    then
      if opt_truthy body
      then <["Content-Length" := fmt_d (len (default EmptyString body))]> headers
      else <["Content-Length" := "0"]> headers
    else headers in
  r ← http_request self (Request ("http://" +:+ url) method headers body);
  match r with
  | ServerNotFoundError => raise (GcsError NOT_FOUND "Server not found.")
  | TransportRaises name => raise (TransportError name)
  | Reply response content =>
      if 300 <=? status response
      then raise (GcsError (status response) (reason response))
      else mret (response, content)
  end.

(** ['%s.%s' % (bucket_name, self._base_url)] *)
Definition bucket_host (self : GcsXml) (bucket_name : string) : string :=
  bucket_name +:+ "." +:+ _base_url self.

(** ['%s.%s/%s' % (bucket_name, self._base_url, object_name)] *)
Definition object_url (self : GcsXml) (bucket_name object_name : string) : string :=
  bucket_name +:+ "." +:+ _base_url self +:+ "/" +:+ object_name.

Definition get_buckets (self : GcsXml) : M string :=
  rc ← _api_request self (_base_url self) None None None;
  mret rc.2.

Definition get_bucket (self : GcsXml) (bucket_name : string) : M string :=
  rc ← _api_request self (bucket_host self bucket_name) None None None;
  mret rc.2.

Definition get_bucket_cors (self : GcsXml) (bucket_name : string) : M string :=
  rc ← _api_request self (bucket_host self bucket_name +:+ "/?cors") None None None;
  mret rc.2.

Definition get_bucket_location (self : GcsXml) (bucket_name : string) : M string :=
  rc ← _api_request self (bucket_host self bucket_name +:+ "/?location") None None None;
  mret rc.2.

(** [if v: h[key] = v] *)
Definition set_if (key : string) (v : option string)
    (h : gmap string string) : gmap string string :=
  match v with
  | Some s => if str_truthy s then <[key := s]> h else h
  | None => h
  end.

(** The patterns of [insert_bucket]: [^[\w\-\.]+$], [^[a-zA-Z0-9]+.*]
    and [.*[a-zA-Z0-9]+$]. *)
Definition only_chars : list re.item :=
  [re.Bol; re.Plus re.word_dash_dot; re.Eol].
Definition starts_alnum : list re.item :=
  [re.Bol; re.Plus re.alnum; re.Star re.dot].
Definition ends_alnum : list re.item :=
  [re.Star re.dot; re.Plus re.alnum; re.Eol].

Definition insert_bucket (self : GcsXml) (bucket_name : string)
    (acl : option string) (location_constraint : option string) : M string :=
  if negb (re.match_ only_chars bucket_name) then
    raise (ValueError "Bucket names can only contain letters, numbers, -, _, or .")
  else if negb (re.match_ starts_alnum bucket_name) then
    raise (ValueError "Bucket names can only start with letters or numbers.")
  else if negb (re.match_ ends_alnum bucket_name) then
    raise (ValueError
             ("Bucket names can only end with letters or numbers. " +:+ bucket_name))
  else if (len bucket_name <? 3) || (63 <? len bucket_name) then
    raise (ValueError "Bucket names must contain 3 to 63 letters.")
  else
    body ←
      (if opt_truthy location_constraint
          && (bool_decide (location_constraint = Some "EU")
              || bool_decide (location_constraint = Some "US"))
       then
         b ← lift (_get_location_constraint_body self
                     (PyStr (default EmptyString location_constraint)));
         mret (Some b)
       else mret None);
    let headers : gmap string string := set_if "x-goog-acl" acl ∅ in
    rc ← _api_request self (bucket_host self bucket_name)
           (Some "PUT") (Some headers) body;
    mret rc.2.

Definition set_bucket_cors (self : GcsXml) (bucket_name : string)
    (origins methods response_headers : option (list string))
    (max_age_sec : value) : M string :=
  let origins := list_or origins [default_origin self] in
  let methods := list_or methods [default_method self] in
  let response_headers :=
    list_or response_headers [default_response_header self] in
  let max_age_sec :=
    if truthy max_age_sec then max_age_sec else default_max_age_sec self in
  body ← lift (_get_cors_body self origins methods response_headers max_age_sec);
  rc ← _api_request self (bucket_host self bucket_name +:+ "/?cors")
         (Some "PUT") None (Some body);
  mret rc.2.

Definition delete_bucket (self : GcsXml) (bucket_name : string) : M string :=
  rc ← _api_request self (bucket_host self bucket_name) (Some "DELETE") None None;
  mret rc.2.

Definition get_object (self : GcsXml) (bucket_name object_name : string) : M string :=
  rc ← _api_request self (object_url self bucket_name object_name) None None None;
  mret rc.2.

Definition get_object_acls (self : GcsXml) (bucket_name object_name : string) : M string :=
  rc ← _api_request self (object_url self bucket_name object_name +:+ "?acl")
         None None None;
  mret rc.2.

Definition get_object_metadata (self : GcsXml) (bucket_name object_name : string)
    : M Response :=
  rc ← _api_request self (object_url self bucket_name object_name)
         (Some "HEAD") None None;
  mret rc.1.

Definition insert_object (self : GcsXml) (bucket_name : string)
    (file_path object_name content_type content_encoding acl : option string)
    : M string :=
  upload_file_contents ← read_file file_path;
  let file_path := default EmptyString file_path in
  let object_name := str_or object_name (basename file_path) in
  types ←
    (if negb (opt_truthy content_type) || negb (opt_truthy content_encoding)
     then
       guess ← mimetypes_guess_type file_path;
       mret (if opt_truthy content_type then content_type else guess.1,
             if opt_truthy content_encoding then content_encoding else guess.2)
     else mret (content_type, content_encoding));
  let headers :=
    set_if "x-goog-acl" acl
      (set_if "Content-Encoding" types.2
         (set_if "Content-Type" types.1 ∅)) in
  rc ← _api_request self (object_url self bucket_name object_name)
         (Some "PUT") (Some headers) (Some upload_file_contents);
  mret rc.2.

Definition copy_object (self : GcsXml)
    (original_bucket_name original_object_name new_bucket_name : string)
    (new_object_name acl : option string) : M string :=
  let copy_source :=
    "/" +:+ original_bucket_name +:+ "/" +:+ original_object_name in
  let headers : gmap string string := {[ "x-goog-copy-source" := copy_source ]} in
  let headers := set_if "x-goog-acl" acl headers in
  let new_object_name := str_or new_object_name original_object_name in
  _ ← print (object_url self new_bucket_name new_object_name);
  rc ← _api_request self (object_url self new_bucket_name new_object_name)
         (Some "PUT") (Some headers) None;
  mret rc.2.

Definition delete_object (self : GcsXml) (bucket_name object_name : string) : M string :=
  rc ← _api_request self (object_url self bucket_name object_name)
         (Some "DELETE") None None;
  mret rc.2.

(** *** The operations of the client as data

    A call of any public method, with its arguments, and what it
    returns: the content of the response, or for
    [get_object_metadata] the response itself. *)
Inductive operation : Type :=
| GetBuckets
| GetBucket (bucket_name : string)
| GetBucketCors (bucket_name : string)
| GetBucketLocation (bucket_name : string)
| InsertBucket (bucket_name : string) (acl location_constraint : option string)
| SetBucketCors (bucket_name : string)
    (origins methods response_headers : option (list string)) (max_age_sec : value)
| DeleteBucket (bucket_name : string)
| GetObject (bucket_name object_name : string)
| GetObjectAcls (bucket_name object_name : string)
| GetObjectMetadata (bucket_name object_name : string)
| InsertObject (bucket_name : string)
    (file_path object_name content_type content_encoding acl : option string)
| CopyObject (original_bucket_name original_object_name new_bucket_name : string)
    (new_object_name acl : option string)
| DeleteObject (bucket_name object_name : string).

Inductive returned : Type :=
| Content (content : string)
| Envelope (response : Response).

Definition call (self : GcsXml) (op : operation) : M returned :=
  match op with
  | GetBuckets => x ← get_buckets self; mret (Content x)
  | GetBucket b => x ← get_bucket self b; mret (Content x)
  | GetBucketCors b => x ← get_bucket_cors self b; mret (Content x)
  | GetBucketLocation b => x ← get_bucket_location self b; mret (Content x)
  | InsertBucket b acl lc => x ← insert_bucket self b acl lc; mret (Content x)
  | SetBucketCors b o m h a => x ← set_bucket_cors self b o m h a; mret (Content x)
  | DeleteBucket b => x ← delete_bucket self b; mret (Content x)
  | GetObject b o => x ← get_object self b o; mret (Content x)
  | GetObjectAcls b o => x ← get_object_acls self b o; mret (Content x)
  | GetObjectMetadata b o => x ← get_object_metadata self b o; mret (Envelope x)
  | InsertObject b f o t e acl => x ← insert_object self b f o t e acl; mret (Content x)
  | CopyObject ob oo nb no acl => x ← copy_object self ob oo nb no acl; mret (Content x)
  | DeleteObject b o => x ← delete_object self b o; mret (Content x)
  end.

End gcs_xml.

Import gcs gcs_xml.

(** ** Vocabulary of the properties *)

(** The world after one more request went to the transport. *)
Definition record (w : world) (req : request) : world :=
  World (sent w ++ [req]) (stdout w) (files w) (guess_type w).

(** How [_api_request] reads what the transport did. *)
Definition interpret (r : transport_result) : exn + (Response * string) :=
  match r with
  | ServerNotFoundError => inl (GcsError NOT_FOUND "Server not found.")
  | TransportRaises name => inl (TransportError name)
  | Reply response content =>
      if 300 <=? status response
      then inl (GcsError (status response) (reason response))
      else inr (response, content)
  end.

(** The request that [_api_request] makes of its arguments. *)
Definition built_request (self : GcsXml) (url : string) (method : option string)
    (headers : option (gmap string string)) (body : option string) : request :=
  let method := str_or method (default_method self) in
  let headers :=
    <["x-goog-api-version" := api_version self]>
      (<["x-goog-project-id" := project_id self]> (default ∅ headers)) in
  Request ("http://" +:+ url) method
    (if String.eqb method "POST" || String.eqb method "PUT" || opt_truthy body
     then
       if opt_truthy body
       then <["Content-Length" := fmt_d (len (default EmptyString body))]> headers
       else <["Content-Length" := "0"]> headers
     else headers)
    body.

(** The content of the pair that [_api_request] returns. *)
Definition content_of (r : exn + (Response * string)) : exn + string :=
  match r with
  | inl e => inl e
  | inr rc => inr rc.2
  end.

(** What a method makes of the pair that [_api_request] returns. *)
Definition returns (op : operation) (r : exn + (Response * string)) : exn + returned :=
  match r with
  | inl e => inl e
  | inr (response, content) =>
      inr (match op with
           | GetObjectMetadata _ _ => Envelope response
           | _ => Content content
           end)
  end.

(** ** Markup in a serialized tree *)

Definition starts_with (c : ascii) (s : string) : bool :=
  match s with
  | String a _ => Ascii.eqb a c
  | EmptyString => false
  end.

Fixpoint ends_with (c : ascii) (s : string) : bool :=
  match s with
  | String a EmptyString => Ascii.eqb a c
  | String _ s' => ends_with c s'
  | EmptyString => false
  end.

(** [s] holds the two characters that open a declaration or a
    processing instruction: a less-than sign and a question mark. *)
Fixpoint has_pi (s : string) : bool :=
  match s with
  | String a s' => (Ascii.eqb a "<" && starts_with "?" s') || has_pi s'
  | EmptyString => false
  end.

(** Neither such an opening inside [s], nor half of one at its end. *)
Definition closed (s : string) : Prop :=
  has_pi s = false /\ ends_with "<" s = false.

(** [s] holds no less-than sign. *)
Fixpoint no_lt (s : string) : bool :=
  match s with
  | String a s' => negb (Ascii.eqb a "<") && no_lt s'
  | EmptyString => true
  end.

(** A tag that is a name: no less-than sign in it and no question mark
    at its start. *)
Definition good_tag (t : string) : bool := no_lt t && negb (starts_with "?" t).

(** Every tag of the tree is a name. *)
Fixpoint good_tree (e : xml.Element) : bool :=
  match e with
  | xml.mkElement t _ children => good_tag t && forallb good_tree children
  end.

(** ** The CORS lists *)

(** The text emitted for one entry of a CORS list: the entry without the
    whitespace around it, or the single default when nothing is left. *)
Definition entry_text (dflt entry : string) : value :=
  PyStr (if decide (strip entry = EmptyString) then dflt else strip entry).

(** The texts emitted for a CORS list: the default alone when the list
    is absent or empty, else one text per entry, in order. *)
Definition entry_texts (dflt : string) (entries : option (list string)) : list value :=
  match entries with
  | None | Some [] => [PyStr dflt]
  | Some l => map (entry_text dflt) l
  end.

(** The defaults of the client are free of surrounding whitespace, as
    those that [Gcs.__init__] sets are. *)
Definition stripped_defaults (self : GcsXml) : Prop :=
  strip (default_origin self) = default_origin self
  /\ strip (default_method self) = default_method self
  /\ strip (default_response_header self) = default_response_header self.

(** ** Numbers and their renderings *)

(** The integer that a binary64 number is, if it is one. *)
Definition float_whole (f : spec_float) : option Z :=
  match f with
  | S754_zero _ => Some 0
  | S754_finite s m e =>
      let sign := if s then -1 else 1 in
      if 0 <=? e then Some (sign * (Z.pos m * 2 ^ e))
      else if Z.pos m mod 2 ^ (- e) =? 0 then Some (sign * (Z.pos m / 2 ^ (- e)))
      else None
  | _ => None
  end.

(** The whole number that a value is, if it is one. *)
Definition whole_number (v : value) : option Z :=
  match v with
  | PyInt z | PyLong z => Some z
  | PyFloat f => float_whole f
  | _ => None
  end.

(** Rendering by value: a whole number as an integer, any other number
    in fixed notation, anything else as it is. *)
Definition text_by_value (v : value) : value :=
  match whole_number v, v with
  | Some z, _ => PyStr (fmt_d z)
  | None, PyFloat f => PyStr (fmt_f f)
  | None, _ => v
  end.

(** Rendering by type: an [int] as an integer, a [float] in fixed
    notation, anything else as it is. *)
Definition text_by_type (v : value) : value :=
  match v with
  | PyInt z => PyStr (fmt_d z)
  | PyFloat f => PyStr (fmt_f f)
  | _ => v
  end.

(** The binary64 number 1800.0. *)
Definition float_1800 : spec_float := S754_finite false 7916483719987200 (-42).

(** ** Bucket names *)

(** The naming rules in the words of the documentation: letters, digits,
    hyphen, underscore and dot only; a letter or a digit first and last;
    3 to 63 characters. *)
Module BucketName.

Definition is_letter (c : ascii) : bool :=
  (Ascii.leb "a" c && Ascii.leb c "z") || (Ascii.leb "A" c && Ascii.leb c "Z").

Definition is_digit (c : ascii) : bool := Ascii.leb "0" c && Ascii.leb c "9".

Definition is_alphanumeric (c : ascii) : bool := is_letter c || is_digit c.

Definition is_allowed (c : ascii) : bool :=
  is_alphanumeric c || Ascii.eqb c "-" || Ascii.eqb c "_" || Ascii.eqb c ".".

Fixpoint all_chars (p : ascii -> bool) (s : string) : bool :=
  match s with
  | String c s' => p c && all_chars p s'
  | EmptyString => true
  end.

Definition first_char (s : string) : option ascii :=
  match s with
  | String c _ => Some c
  | EmptyString => None
  end.

Fixpoint last_char (s : string) : option ascii :=
  match s with
  | String c EmptyString => Some c
  | String _ s' => last_char s'
  | EmptyString => None
  end.

Inductive rule : Type := AllowedCharacters | StartCharacter | EndCharacter | Length.

Definition holds (r : rule) (name : string) : bool :=
  match r with
  | AllowedCharacters => all_chars is_allowed name
  | StartCharacter =>
      match first_char name with Some c => is_alphanumeric c | None => false end
  | EndCharacter =>
      match last_char name with Some c => is_alphanumeric c | None => false end
  | Length => (3 <=? String.length name)%nat && (String.length name <=? 63)%nat
  end.

Definition rules : list rule :=
  [AllowedCharacters; StartCharacter; EndCharacter; Length].

(** The rules that a name breaks. *)
Definition violated (name : string) : list rule :=
  List.filter (fun r => negb (holds r name)) rules.

(** The message of the [ValueError] that speaks of a rule. *)
Definition message (r : rule) (name : string) : string :=
  match r with
  | AllowedCharacters => "Bucket names can only contain letters, numbers, -, _, or ."
  | StartCharacter => "Bucket names can only start with letters or numbers."
  | EndCharacter => "Bucket names can only end with letters or numbers. " +:+ name
  | Length => "Bucket names must contain 3 to 63 letters."
  end.

End BucketName.

Import BucketName.


(** ** A client and a world to try the operations on *)

Module demo.

(** A transport that answers every request with 200 OK. *)
Definition ok_http (req : request) : transport_result :=
  Reply (mkResponse 200 "OK" ∅) "OK".

(** A transport that finds nothing. *)
Definition not_found_http (req : request) : transport_result :=
  Reply (mkResponse 404 "Not Found" ∅) EmptyString.

(** A transport that cannot resolve the host. *)
Definition no_server_http (req : request) : transport_result :=
  ServerNotFoundError.

Definition client : GcsXml := gcs_xml.__init__ ok_http "my-project" None.
Definition client_404 : GcsXml := gcs_xml.__init__ not_found_http "my-project" None.
Definition client_offline : GcsXml :=
  gcs_xml.__init__ no_server_http "my-project" None.

(** Nothing sent, nothing printed, one file. *)
Definition w0 : world :=
  World [] []
    (fun path => if String.eqb path "notes.txt" then Some "hello" else None)
    (fun path => if String.eqb path "notes.txt" then (Some "text/plain", None)
                 else (None, None)).

(** The body for the origins [http://a.example ], a blank and
    [http://b.example], with every other argument left out. *)
Definition cors_body : string :=
  XML_DECLARATION +:+
  "<CorsConfig><Cors><Origins><Origin>http://a.example</Origin><Origin>*</Origin><Origin>http://b.example</Origin></Origins><Methods><Method>GET</Method></Methods><ResponseHeaders><ResponseHeader>gcs-demo</ResponseHeader></ResponseHeaders><MaxAgeSec>1800</MaxAgeSec></Cors></CorsConfig>".

(** The body for the max age 1800.0 and every list left out. *)
Definition cors_body_float : string :=
  XML_DECLARATION +:+
  "<CorsConfig><Cors><Origins><Origin>*</Origin></Origins><Methods><Method>GET</Method></Methods><ResponseHeaders><ResponseHeader>gcs-demo</ResponseHeader></ResponseHeaders><MaxAgeSec>1800.000000</MaxAgeSec></Cors></CorsConfig>".

(** The body for every argument left out. *)
Definition cors_body_default : string :=
  XML_DECLARATION +:+
  "<CorsConfig><Cors><Origins><Origin>*</Origin></Origins><Methods><Method>GET</Method></Methods><ResponseHeaders><ResponseHeader>gcs-demo</ResponseHeader></ResponseHeaders><MaxAgeSec>1800</MaxAgeSec></Cors></CorsConfig>".

(** The body for the max age given as the string [0]. *)
Definition cors_body_zero : string :=
  XML_DECLARATION +:+
  "<CorsConfig><Cors><Origins><Origin>*</Origin></Origins><Methods><Method>GET</Method></Methods><ResponseHeaders><ResponseHeader>gcs-demo</ResponseHeader></ResponseHeaders><MaxAgeSec>0</MaxAgeSec></Cors></CorsConfig>".

(** A name of three letters and a newline. *)
Definition name_with_newline : string := "abc" +:+ String "010" EmptyString.

Definition cors_request (body : string) : request :=
  built_request client "my-bucket.storage.googleapis.com/?cors" (Some "PUT") None
    (Some body).

End demo.

(** * Further vocabulary *)

(** ** Bucket names, once more *)

(** A newline, as a string. *)
Definition newline : string := String "010" EmptyString.

(** The first rule that a name breaks, in the order in which
    [insert_bucket] makes its checks. *)
Definition first_violated (name : string) : option rule := head (violated name).

(** What [insert_bucket] asks of [p] when the name is [p] and a final
    newline: allowed characters, a letter or digit first and last, and 2
    to 62 characters. *)
Definition passes_before_newline (p : string) : bool :=
  holds AllowedCharacters p && holds StartCharacter p && holds EndCharacter p
  && (2 <=? String.length p)%nat && (String.length p <=? 62)%nat.

(** ** Errors *)

(** The exceptions that the client raises before it reaches the
    transport: all but [GcsError] and what the transport itself
    raises. *)
Definition local_error (e : exn) : Prop :=
  match e with
  | GcsError _ _ | TransportError _ => False
  | ValueError _ | TypeError | IOError | UnicodeDecodeError => True
  end.

(** The two errors of [xml.tostring]. *)
Definition serialization_error (e : exn) : Prop :=
  e = TypeError \/ e = UnicodeDecodeError.

(** ** What a call leaves in the world *)

(** The lines that a call prints: [copy_object] prints the URL of the
    copy, no other method prints. *)
Definition printed (self : GcsXml) (op : operation) : list string :=
  match op with
  | CopyObject _ oo nb no _ => [object_url self nb (str_or no oo)]
  | _ => []
  end.

(** The world with these lines printed. *)
Definition after_print (self : GcsXml) (op : operation) (w : world) : world :=
  World (sent w) (stdout w ++ printed self op) (files w) (guess_type w).

(** ** What each operation asks of [_api_request] *)

(** The arguments of the one [_api_request] of a call: the URL without
    its scheme, the method, the headers and the body; or the error that
    the call raises before. [insert_object] reads the file and the table
    of types for them, no other operation looks at the world. *)
Definition descriptor (self : GcsXml) (op : operation) (w : world)
    : exn + (string * option string * option (gmap string string) * option string) :=
  match op with
  | GetBuckets => inr (_base_url self, None, None, None)
  | GetBucket b => inr (bucket_host self b, None, None, None)
  | GetBucketCors b => inr (bucket_host self b +:+ "/?cors", None, None, None)
  | GetBucketLocation b => inr (bucket_host self b +:+ "/?location", None, None, None)
  | InsertBucket b acl lc =>
      if negb (re.match_ only_chars b) then
        inl (ValueError "Bucket names can only contain letters, numbers, -, _, or .")
      else if negb (re.match_ starts_alnum b) then
        inl (ValueError "Bucket names can only start with letters or numbers.")
      else if negb (re.match_ ends_alnum b) then
        inl (ValueError ("Bucket names can only end with letters or numbers. " +:+ b))
      else if (len b <? 3) || (63 <? len b) then
        inl (ValueError "Bucket names must contain 3 to 63 letters.")
      else
        inr (bucket_host self b, Some "PUT", Some (set_if "x-goog-acl" acl ∅),
             if bool_decide (lc = Some "EU" \/ lc = Some "US")
             then Some (XML_DECLARATION
                          +:+ "<CreateBucketConfiguration><LocationConstraint>"
                          +:+ default EmptyString lc
                          +:+ "</LocationConstraint></CreateBucketConfiguration>")
             else None)
  | SetBucketCors b o m h a =>
      match _get_cors_body self (list_or o [default_origin self])
              (list_or m [default_method self])
              (list_or h [default_response_header self])
              (if truthy a then a else default_max_age_sec self) with
      | inl e => inl e
      | inr body => inr (bucket_host self b +:+ "/?cors", Some "PUT", None, Some body)
      end
  | DeleteBucket b => inr (bucket_host self b, Some "DELETE", None, None)
  | GetObject b o => inr (object_url self b o, None, None, None)
  | GetObjectAcls b o => inr (object_url self b o +:+ "?acl", None, None, None)
  | GetObjectMetadata b o => inr (object_url self b o, Some "HEAD", None, None)
  | InsertObject b f o t e acl =>
      match f with
      | None => inl TypeError
      | Some p =>
          match files w p with
          | None => inl IOError
          | Some contents =>
              let t' := if opt_truthy t then t else (guess_type w p).1 in
              let e' := if opt_truthy e then e else (guess_type w p).2 in
              inr (object_url self b (str_or o (basename p)), Some "PUT",
                   Some (set_if "x-goog-acl" acl
                           (set_if "Content-Encoding" e'
                              (set_if "Content-Type" t' ∅))),
                   Some contents)
          end
      end
  | CopyObject ob oo nb no acl =>
      inr (object_url self nb (str_or no oo), Some "PUT",
           Some (set_if "x-goog-acl" acl
                   {[ "x-goog-copy-source" := "/" +:+ ob +:+ "/" +:+ oo ]}),
           None)
  | DeleteObject b o => inr (object_url self b o, Some "DELETE", None, None)
  end.

(** ** Routes *)

(** Where the request of an operation goes: the URL after its scheme. *)
Definition target (self : GcsXml) (op : operation) : string :=
  match op with
  | GetBuckets => _base_url self
  | GetBucket b | InsertBucket b _ _ | DeleteBucket b =>
      b +:+ "." +:+ _base_url self
  | GetBucketCors b | SetBucketCors b _ _ _ _ =>
      b +:+ "." +:+ _base_url self +:+ "/?cors"
  | GetBucketLocation b => b +:+ "." +:+ _base_url self +:+ "/?location"
  | GetObject b o | GetObjectMetadata b o | DeleteObject b o =>
      b +:+ "." +:+ _base_url self +:+ "/" +:+ o
  | GetObjectAcls b o => b +:+ "." +:+ _base_url self +:+ "/" +:+ o +:+ "?acl"
  | InsertObject b f o _ _ _ =>
      b +:+ "." +:+ _base_url self +:+ "/"
        +:+ match o with
            | Some (String c o') => String c o'
            | _ => basename (default EmptyString f)
            end
  | CopyObject _ oo nb no _ =>
      nb +:+ "." +:+ _base_url self +:+ "/"
        +:+ match no with
            | Some (String c no') => String c no'
            | _ => oo
            end
  end.

(** The method of the request of an operation: the reads go by the
    default method of the client. *)
Definition verb (self : GcsXml) (op : operation) : string :=
  match op with
  | GetBuckets | GetBucket _ | GetBucketCors _ | GetBucketLocation _
  | GetObject _ _ | GetObjectAcls _ _ => default_method self
  | GetObjectMetadata _ _ => "HEAD"
  | DeleteBucket _ | DeleteObject _ _ => "DELETE"
  | InsertBucket _ _ _ | SetBucketCors _ _ _ _ _
  | InsertObject _ _ _ _ _ _ | CopyObject _ _ _ _ _ => "PUT"
  end.

(** The operations that take neither a body nor headers of their own. *)
Definition plain (op : operation) : bool :=
  match op with
  | InsertBucket _ _ _ | SetBucketCors _ _ _ _ _
  | InsertObject _ _ _ _ _ _ | CopyObject _ _ _ _ _ => false
  | _ => true
  end.

(** The ACL argument of an operation that has one. *)
Definition acl_of (op : operation) : option string :=
  match op with
  | InsertBucket _ acl _ | InsertObject _ _ _ _ _ acl | CopyObject _ _ _ _ acl => acl
  | _ => None
  end.

(** The names of all the headers that the client ever sets. *)
Definition header_names : list string :=
  ["x-goog-project-id"; "x-goog-api-version"; "Content-Length"; "x-goog-acl";
   "Content-Type"; "Content-Encoding"; "x-goog-copy-source"].

(** ** Paths *)

(** [s] holds a slash. *)
Definition has_slash (s : string) : bool :=
  existsb (Ascii.eqb "/") (list_ascii_of_string s).

(** A header value that is set: a string that is not empty. *)
Definition set_value (v : option string) : option string :=
  match v with
  | Some (String c s) => Some (String c s)
  | _ => None
  end.

(** ** More to try the operations on *)

Module demo_files.

(** A world with a text file and a compressed archive in a folder. *)
Definition w : world :=
  World [] []
    (fun path =>
       if String.eqb path "docs/notes.txt" then Some "hello"
       else if String.eqb path "docs/all.tar.gz" then Some EmptyString
       else None)
    (fun path =>
       if String.eqb path "docs/notes.txt" then (Some "text/plain", None)
       else if String.eqb path "docs/all.tar.gz"
            then (Some "application/x-tar", Some "gzip")
       else (None, None)).

End demo_files.

(** ** Texts of the CORS tree *)

(** A text that is a string, not empty, without whitespace at either
    end. *)
Definition clean_text (v : value) : Prop :=
  exists s, v = PyStr s /\ s <> EmptyString /\ strip s = s.

(** The defaults of the client are not empty. *)
Definition nonempty_defaults (self : GcsXml) : Prop :=
  default_origin self <> EmptyString
  /\ default_method self <> EmptyString
  /\ default_response_header self <> EmptyString.

(** The elements with the tag [t] and the texts [texts], without
    children. *)
Definition leaves (t : string) (texts : list value) : list xml.Element :=
  map (fun v => xml.mkElement t v []) texts.

(** A list argument of [set_bucket_cors] as it is used: the list, or the
    default alone when the list is absent or empty. *)
Definition entries_or (entries : option (list string)) (dflt : string) : list string :=
  match entries with
  | Some (x :: l) => x :: l
  | _ => [dflt]
  end.

(** The tree of a CORS configuration with the given entries and the
    given text of the max age: [CorsConfig], in it [Cors], in it
    [Origins], [Methods], [ResponseHeaders] and [MaxAgeSec], in this
    order. *)
Definition cors_tree (origins methods headers : list value) (age : value)
    : xml.Element :=
  xml.mkElement "CorsConfig" PyNone
    [xml.mkElement "Cors" PyNone
       [xml.mkElement "Origins" PyNone (leaves "Origin" origins);
        xml.mkElement "Methods" PyNone (leaves "Method" methods);
        xml.mkElement "ResponseHeaders" PyNone (leaves "ResponseHeader" headers);
        xml.mkElement "MaxAgeSec" age []]].

(** ** What can be serialized *)

(** A text that [_serialize_xml] can write: a falsy value, which it
    skips, or a string of ASCII characters. *)
Definition serializable (v : value) : bool :=
  match v with
  | PyStr s => xml.is_ascii s
  | _ => negb (truthy v)
  end.

(** Every text of the tree can be written. *)
Fixpoint texts_serializable (e : xml.Element) : bool :=
  match e with
  | xml.mkElement _ text children =>
      serializable text && forallb texts_serializable children
  end.

(** The texts of the body of a [set_bucket_cors] call, in document
    order. *)
Definition cors_texts (self : GcsXml) (o m h : option (list string)) (v : value)
    : list value :=
  map (entry_text (default_origin self)) (entries_or o (default_origin self))
  ++ map (entry_text (default_method self)) (entries_or m (default_method self))
  ++ map (entry_text (default_response_header self))
       (entries_or h (default_response_header self))
  ++ [text_by_type (if truthy v then v else default_max_age_sec self)].

(** ** Character data *)

(** [s] does not hold the character [c]. *)
Fixpoint lacks (c : ascii) (s : string) : bool :=
  match s with
  | String a s' => negb (Ascii.eqb a c) && lacks c s'
  | EmptyString => true
  end.

(** What a reader of XML makes of character data: the three entities
    that [_escape_cdata] writes, read back. *)
Fixpoint unescape (s : string) : string :=
  match s with
  | String "&" (String "a" (String "m" (String "p" (String ";" r)))) =>
      String "&" (unescape r)
  | String "&" (String "l" (String "t" (String ";" r))) => String "<" (unescape r)
  | String "&" (String "g" (String "t" (String ";" r))) => String ">" (unescape r)
  | String c r => String c (unescape r)
  | EmptyString => EmptyString
  end.

(** * The command line: [gcs_commands.py]

    A command asks the user for its values on the console, calls one
    method of the client and logs or saves the result. *)

Module gcs_commands.

(** ** The run-time of a command *)

(** The prompt of a [raw_input], kept as the arguments of its format:
    ['Enter %s%s: ' % (text, default_string)], where [default_string]
    is empty ([default = None] here) or
    [' (defaults to %s if blank)' % default]; and
    ['Please enter a %s: ' % text]; and a prompt that is a literal. *)
Inductive prompt : Type :=
| Enter (text : string) (default : option value)
| PleaseEnter (text : string)
| Literal (text : string).

(** The exceptions of a run: those of the client and four more. *)
Inductive raised : Type :=
| Exn (e : exn)
| EOFError
| KeyError (key : string)
| AttributeError
| IndexError.

(** A call of [logging.error] or [logging.info]: the level, the message
    and the arguments of the message, as [logging] gets them. *)
Inductive level : Type := ERROR | INFO.

Inductive arg : Type :=
| AStr (s : string)
| AExn (e : raised)
| AResponse (r : Response).

Record LogRecord : Type := mkLogRecord {
  levelname : level;
  msg : arg;
  args : list arg
}.

(** What a command stores for a key: the line typed, or what the
    processing method of the key made of it, a string or the list of a
    [split]. *)
Inductive answer : Type :=
| Str (s : string)
| List (l : list string).

(** The state of a run: the characters that the console still holds,
    the prompts shown and the records logged so far, the paths that
    [open(path, 'w')] accepts, the directory of the module
    ([os.path.dirname(__file__)]), the [values] of the command and the
    world of its client. *)
Record state : Type := State {
  stdin : string;
  prompts : list prompt;
  logged : list LogRecord;
  writable : string -> bool;
  module_dir : string;
  values : gmap string answer;
  net : world
}.

Definition C (A : Type) : Type := state -> state * (raised + A).

Definition cret {A} (a : A) : C A := fun c => (c, inr a).
Definition craise {A} (e : raised) : C A := fun c => (c, inl e).
Definition cbind {A B} (m : C A) (k : A -> C B) : C B :=
  fun c =>
    match m c with
    | (c', inl e) => (c', inl e)
    | (c', inr a) => k a c'
    end.

#[global] Instance C_ret : MRet C := @cret.
#[global] Instance C_bind : MBind C := fun A B k m => cbind m k.

(** [try: m except ...: handler], the handler choosing by the
    exception. *)
Definition try_except {A} (m : C A) (handler : raised -> C A) : C A :=
  fun c =>
    match m c with
    | (c', inl e) => handler e c'
    | (c', inr a) => (c', inr a)
    end.

(** A method of the client, run in the world of the state. *)
Definition client {A} (m : M A) : C A :=
  fun c =>
    let '(w, r) := m (net c) in
    (State (stdin c) (prompts c) (logged c) (writable c) (module_dir c)
       (values c) w,
     match r with
     | inl e => inl (Exn e)
     | inr a => inr a
     end).

Definition logging_error (m : arg) (a : list arg) : C unit :=
  fun c =>
    (State (stdin c) (prompts c) (logged c ++ [mkLogRecord ERROR m a])
       (writable c) (module_dir c) (values c) (net c), inr tt).

Definition logging_info (m : arg) (a : list arg) : C unit :=
  fun c =>
    (State (stdin c) (prompts c) (logged c ++ [mkLogRecord INFO m a])
       (writable c) (module_dir c) (values c) (net c), inr tt).

(** The first line of the characters, without its newline, and the
    characters after it. *)
Fixpoint readline (s : string) : string * string :=
  match s with
  | EmptyString => (EmptyString, EmptyString)
  | String c s' =>
      if Ascii.eqb c "010" then (EmptyString, s')
      else let '(line, rest) := readline s' in (String c line, rest)
  end.

(** [raw_input(prompt)]: the prompt is shown, a line is read and
    returned without its newline; at the end of the input it raises
    [EOFError]. *)
Definition raw_input (p : prompt) : C string :=
  fun c =>
    let shown := prompts c ++ [p] in
    match stdin c with
    | EmptyString =>
        (State EmptyString shown (logged c) (writable c) (module_dir c)
           (values c) (net c), inl EOFError)
    | String _ _ =>
        let '(line, rest) := readline (stdin c) in
        (State rest shown (logged c) (writable c) (module_dir c)
           (values c) (net c), inr line)
    end.

(** [open(path, 'r')], for the check that it can be opened. *)
Definition open_r (path : string) : C unit :=
  fun c =>
    match files (net c) path with
    | Some _ => (c, inr tt)
    | None => (c, inl (Exn IOError))
    end.

(** The files with [contents] at [path]. *)
Definition with_file (w : world) (path contents : string) : world :=
  World (sent w) (stdout w)
    (fun p => if String.eqb p path then Some contents else files w p)
    (guess_type w).

(** [open(path, 'w')]: the file is there and empty afterwards. *)
Definition open_w (path : string) : C unit :=
  fun c =>
    if writable c path then
      (State (stdin c) (prompts c) (logged c) (writable c) (module_dir c)
         (values c) (with_file (net c) path EmptyString), inr tt)
    else (c, inl (Exn IOError)).

(** [f.write(contents)] on the file just opened at [path]. *)
Definition write (path contents : string) : C unit :=
  fun c =>
    (State (stdin c) (prompts c) (logged c) (writable c) (module_dir c)
       (values c) (with_file (net c) path contents), inr tt).

(** [s.split(sep)] for a separator of one character: the first piece
    and the pieces after it. *)
Fixpoint split_pieces (sep : ascii) (s : string) : string * list string :=
  match s with
  | EmptyString => (EmptyString, [])
  | String c s' =>
      let '(piece, pieces) := split_pieces sep s' in
      if Ascii.eqb c sep then (EmptyString, piece :: pieces)
      else (String c piece, pieces)
  end.

Definition split (sep : ascii) (s : string) : list string :=
  let '(piece, pieces) := split_pieces sep s in piece :: pieces.

(** [s.split(sep)[-1]] *)
Definition last_piece (sep : ascii) (s : string) : string :=
  let '(piece, pieces) := split_pieces sep s in List.last pieces piece.

(** [os.path.join(a, b)] *)
Definition join (a b : string) : string :=
  if starts_with "/" b then b
  else if String.eqb a EmptyString || ends_with "/" a then a +:+ b
  else a +:+ "/" +:+ b.

(** ** [UserInput] *)

(** The requirements of one input: ['text'], ['default'] and
    ['processing'], the last two optional. *)
Record user_input : Type := mkUserInput {
  ui_text : string;
  ui_default : option value;
  ui_processing : option (string -> C answer)
}.

(** [if default:] *)
Definition default_truthy (d : option value) : bool :=
  match d with
  | Some v => truthy v
  | None => false
  end.

(** The loop of [_get_input]. Each round reads a line, so there are no
    more rounds than characters on the console at its start, which is
    what [rounds] is. *)
Fixpoint while_blank (rounds : nat) (text : string) (required : bool)
    (input_value : string) : C string :=
  if negb (str_truthy input_value) && required then
    _ ← logging_error (AStr "%s cannot be blank.") [AStr text];
    input_value ← raw_input (PleaseEnter text);
    match rounds with
    | S rounds' => while_blank rounds' text required input_value
    | O => mret input_value
    end
  else mret input_value.

Definition _get_input (text : string) (default : option value) : C string :=
  fun c =>
    (input_value ←
       raw_input (Enter text (if default_truthy default then default else None));
     let required := negb (default_truthy default) in
     while_blank (String.length (stdin c)) text required input_value) c.

Definition store (key : string) (v : answer) : C unit :=
  fun c =>
    (State (stdin c) (prompts c) (logged c) (writable c) (module_dir c)
       (<[key := v]> (values c)) (net c), inr tt).

(** [for key in l: body] *)
Fixpoint for_each {A} (l : list A) (body : A -> C unit) : C unit :=
  match l with
  | [] => mret tt
  | x :: l' => _ ← body x; for_each l' body
  end.

(** [get_user_input_values]; [order] is the order in which the
    dictionary [parameters] gives its keys. *)
Definition get_user_input_values (parameters : option (gmap string user_input))
    (order : list string) : C unit :=
  match parameters with
  | None => mret tt
  | Some parameters =>
      for_each order (fun key =>
        match parameters !! key with
        | None => craise (KeyError key)
        | Some user_input =>
            input_value ← _get_input (ui_text user_input) (ui_default user_input);
            input_value ←
              match ui_processing user_input with
              | Some processing_method => processing_method input_value
              | None => mret (Str input_value)
              end;
            store key input_value
        end)
  end.

(** ** [GcsCommand] and its thirteen subclasses *)

Inductive command_class : Type :=
| GetBucketsCommand
| GetBucketCommand
| GetBucketCorsCommand
| GetBucketLocationCommand
| InsertBucketCommand
| SetBucketCorsCommand
| DeleteBucketCommand
| GetObjectCommand
| GetObjectAclsCommand
| GetObjectMetadataCommand
| InsertObjectCommand
| CopyObjectCommand
| DeleteObjectCommand.

Record GcsCommand : Type := mkGcsCommand {
  kind : command_class;
  description : string;
  _gcs_client : GcsXml
}.

Definition UPLOAD_FILE_NAME : string := "cloud-storage-upload-test.txt".
Definition DEFAULT_BUCKET_USER_INPUT : user_input :=
  mkUserInput "Bucket Name" None None.
Definition DEFAULT_OBJECT_USER_INPUT : user_input :=
  mkUserInput "Object Name" None None.

(** [InsertObjectCommand._create_new_file]: when the test file cannot
    be opened for writing either, [f] is still [None] in the [finally]
    clause and [f.close()] raises [AttributeError] in place of the
    [IOError]. *)
Definition _create_new_file : C string :=
  fun c =>
    let file_path := join (module_dir c) UPLOAD_FILE_NAME in
    (_ ← try_except (open_r file_path)
           (fun e =>
              match e with
              | Exn IOError =>
                  try_except
                    (_ ← open_w file_path;
                     write file_path "This is a test file for the Cloud Storage demo.")
                    (fun _ => craise AttributeError)
              | _ => craise e
              end);
     mret file_path) c.

(** [InsertObjectCommand._process_input] *)
Definition _process_input (file_path : string) : C answer :=
  if negb (str_truthy file_path) then
    file_path ← _create_new_file; mret (Str file_path)
  else
    try_except (_ ← open_r file_path; mret (Str file_path))
      (fun e =>
         match e with
         | Exn IOError =>
             _ ← logging_error (AStr "File does not exist, creating %s file.")
                   [AStr UPLOAD_FILE_NAME];
             file_path ← _create_new_file;
             mret (Str file_path)
         | _ => craise e
         end).

Definition comma_separated (s : string) : C answer := mret (List (split "," s)).

(** The [params] that the [__init__] of each class hands to
    [GcsCommand.__init__]. *)
Definition parameters (self : GcsCommand) : option (gmap string user_input) :=
  let gcs_client := _gcs_client self in
  match kind self with
  | GetBucketsCommand => None
  | GetBucketCommand | GetBucketCorsCommand | GetBucketLocationCommand
  | InsertBucketCommand | DeleteBucketCommand =>
      Some {[ "bucket" := DEFAULT_BUCKET_USER_INPUT ]}
  | SetBucketCorsCommand =>
      Some (<["age" :=
              mkUserInput "max cache time in seconds"
                (Some (default_max_age_sec gcs_client)) None]>
           (<["headers" :=
              mkUserInput "a comma-separated list of headers"
                (Some (PyStr (default_response_header gcs_client)))
                (Some comma_separated)]>
           (<["methods" :=
              mkUserInput "a comma-separated list of methods"
                (Some (PyStr (default_method gcs_client)))
                (Some comma_separated)]>
           (<["origins" :=
              mkUserInput "a comma-separated list of origins"
                (Some (PyStr (default_origin gcs_client)))
                (Some comma_separated)]>
           {[ "bucket" := DEFAULT_BUCKET_USER_INPUT ]}))))
  | GetObjectCommand | GetObjectAclsCommand | GetObjectMetadataCommand
  | DeleteObjectCommand =>
      Some (<["object" := DEFAULT_OBJECT_USER_INPUT]>
           {[ "bucket" := DEFAULT_BUCKET_USER_INPUT ]})
  | InsertObjectCommand =>
      Some (<["acl" :=
              mkUserInput "an acl (private, public-read, etc)"
                (Some (PyStr "private")) None]>
           (<["encoding" :=
              mkUserInput "encoding" (Some (PyStr "best guess")) None]>
           (<["content-type" :=
              mkUserInput "content-type" (Some (PyStr "best guess")) None]>
           (<["object" :=
              mkUserInput "new name" (Some (PyStr "file name")) None]>
           (<["bucket" := DEFAULT_BUCKET_USER_INPUT]>
           {[ "file-path" :=
              mkUserInput "path to file" (Some (PyStr UPLOAD_FILE_NAME))
                (Some _process_input) ]})))))
  | CopyObjectCommand =>
      Some (<["new-object" :=
              mkUserInput "new object name"
                (Some (PyStr "original object name")) None]>
           (<["new-bucket" := mkUserInput "new bucket" None None]>
           (<["original-object" := mkUserInput "object to copy" None None]>
           {[ "original-bucket" := mkUserInput "current bucket" None None ]})))
  end.

(** [self._input.values[key]], where the value is a string and where it
    is a list. No command stores a value of the other kind; were there
    one, the model stops with the [KeyError] of a missing key. *)
Definition str_value (key : string) : C string :=
  fun c =>
    match values c !! key with
    | Some (Str s) => (c, inr s)
    | _ => (c, inl (KeyError key))
    end.

Definition list_value (key : string) : C (list string) :=
  fun c =>
    match values c !! key with
    | Some (List l) => (c, inr l)
    | _ => (c, inl (KeyError key))
    end.

(** [_run_api_command] of each class: what it returns is a string, or
    for [GetObjectMetadataCommand] the response. *)
Definition _run_api_command (self : GcsCommand) : C returned :=
  let gcs_client := _gcs_client self in
  match kind self with
  | GetBucketsCommand =>
      results ← client (get_buckets gcs_client); mret (Content results)
  | GetBucketCommand =>
      bucket ← str_value "bucket";
      results ← client (get_bucket gcs_client bucket); mret (Content results)
  | GetBucketCorsCommand =>
      bucket ← str_value "bucket";
      results ← client (get_bucket_cors gcs_client bucket); mret (Content results)
  | GetBucketLocationCommand =>
      bucket ← str_value "bucket";
      results ← client (get_bucket_location gcs_client bucket);
      mret (Content results)
  | InsertBucketCommand =>
      bucket ← str_value "bucket";
      _ ← client (insert_bucket gcs_client bucket None None);
      bucket ← str_value "bucket";
      mret (Content ("Bucket " +:+ dq +:+ bucket +:+ dq +:+ " created"))
  | SetBucketCorsCommand =>
      bucket ← str_value "bucket";
      origins ← list_value "origins";
      methods ← list_value "methods";
      headers ← list_value "headers";
      age ← str_value "age";
      _ ← client (set_bucket_cors gcs_client bucket (Some origins) (Some methods)
                    (Some headers) (PyStr age));
      mret (Content "Cors set successfully")
  | DeleteBucketCommand =>
      bucket ← str_value "bucket";
      _ ← client (delete_bucket gcs_client bucket);
      bucket ← str_value "bucket";
      mret (Content (bucket +:+ " deleted."))
  | GetObjectCommand =>
      bucket ← str_value "bucket";
      object ← str_value "object";
      results ← client (get_object gcs_client bucket object);
      mret (Content results)
  | GetObjectAclsCommand =>
      bucket ← str_value "bucket";
      object ← str_value "object";
      results ← client (get_object_acls gcs_client bucket object);
      mret (Content results)
  | GetObjectMetadataCommand =>
      bucket ← str_value "bucket";
      object ← str_value "object";
      results ← client (get_object_metadata gcs_client bucket object);
      mret (Envelope results)
  | InsertObjectCommand =>
      bucket ← str_value "bucket";
      file_path ← str_value "file-path";
      object ← str_value "object";
      content_type ← str_value "content-type";
      encoding ← str_value "encoding";
      acl ← str_value "acl";
      _ ← client (insert_object gcs_client bucket (Some file_path) (Some object)
                    (Some content_type) (Some encoding) (Some acl));
      file_path ← str_value "file-path";
      mret (Content ("File " +:+ file_path +:+ " was uploaded."))
  | CopyObjectCommand =>
      original_bucket ← str_value "original-bucket";
      original_object ← str_value "original-object";
      new_bucket ← str_value "new-bucket";
      new_object ← str_value "new-object";
      _ ← client (copy_object gcs_client original_bucket original_object new_bucket
                    (Some new_object) None);
      new_object ← str_value "new-object";
      new_bucket ← str_value "new-bucket";
      mret (Content (new_object +:+ " has been copied to " +:+ new_bucket +:+ "."))
  | DeleteObjectCommand =>
      bucket ← str_value "bucket";
      object ← str_value "object";
      _ ← client (delete_object gcs_client bucket object);
      object ← str_value "object";
      mret (Content (object +:+ " deleted."))
  end.

(** [if result:] for what [_run_api_command] returns: a string is true
    when it is not empty, and the response, a dictionary of the
    headers, when it holds an entry. *)
Definition result_truthy (result : returned) : bool :=
  match result with
  | Content s => str_truthy s
  | Envelope r => negb (bool_decide (resp_headers r = ∅))
  end.

Definition arg_of (result : returned) : arg :=
  match result with
  | Content s => AStr s
  | Envelope r => AResponse r
  end.

(** [_process_result]: [GetObjectCommand] saves the result to a file in
    the working directory, the other classes log it. *)
Definition _process_result (self : GcsCommand) (result : returned) : C unit :=
  match kind self with
  | GetObjectCommand =>
      object_name ← str_value "object";
      let object_name :=
        if has_slash object_name then last_piece "/" object_name else object_name in
      _ ← open_w object_name;
      _ ← match result with
          | Content s => write object_name s
          | Envelope _ => craise (Exn TypeError)
          end;
      logging_info (AStr ("File downloaded locally to " +:+ object_name)) []
  | _ =>
      if result_truthy result then logging_info (arg_of result) [] else mret tt
  end.

(** [run_command]. [UnicodeDecodeError] is a [ValueError] too, with an
    empty [message]; and so may be an exception of the transport:
    [value_error name] is the [message] of the exception [name] when
    its class is a subclass of [ValueError]. *)
Definition run_command (self : GcsCommand) (order : list string)
    (value_error : string -> option string) : C unit :=
  _ ← get_user_input_values (parameters self) order;
  result ←
    try_except (_run_api_command self)
      (fun e =>
         match e with
         | Exn (GcsError st m) =>
             _ ← logging_error (AStr "%s failed: %s")
                   [AStr (description self); AExn (Exn (GcsError st m))];
             craise e
         | Exn (ValueError m) =>
             _ ← logging_error (AStr "%s failed: %s")
                   [AStr (description self); AStr m];
             craise e
         | Exn UnicodeDecodeError =>
             _ ← logging_error (AStr "%s failed: %s")
                   [AStr (description self); AStr EmptyString];
             craise e
         | Exn (TransportError name) =>
             match value_error name with
             | Some m =>
                 _ ← logging_error (AStr "%s failed: %s")
                       [AStr (description self); AStr m];
                 craise e
             | None => craise e
             end
         | _ => craise e
         end);
  _process_result self result.

End gcs_commands.

Import gcs_commands.

(** ** Vocabulary for the command line *)

(** The lines that the console still holds, in the order in which
    [raw_input] returns them. *)
Fixpoint lines (s : string) : list string :=
  match s with
  | EmptyString => []
  | String c s' =>
      if Ascii.eqb c "010" then EmptyString :: lines s'
      else match lines s' with
           | [] => [String c EmptyString]
           | l :: ls => String c l :: ls
           end
  end.

(** The record that [_get_input] logs for a blank line. *)
Definition blank_record (text : string) : LogRecord :=
  mkLogRecord ERROR (AStr "%s cannot be blank.") [AStr text].

(** The record that [_process_input] logs for a path that cannot be
    read. *)
Definition missing_record : LogRecord :=
  mkLogRecord ERROR (AStr "File does not exist, creating %s file.")
    [AStr UPLOAD_FILE_NAME].

(** The records of the questions: a blank line, a path that cannot be
    read. *)
Definition question_record (r : LogRecord) : Prop :=
  (exists text, r = blank_record text) \/ r = missing_record.

(** The path of the test file and what is written to it. *)
Definition test_file (c : state) : string := join (module_dir c) UPLOAD_FILE_NAME.

Definition TEST_CONTENTS : string :=
  "This is a test file for the Cloud Storage demo.".

(** The file at [p] is as it was, or it is the test file, which could
    not be read and now holds its text. [files] tells what can be read:
    a file that is there and cannot be read is, like a file that is not
    there, written anew. *)
Definition kept_or_written (c c' : state) (p : string) : Prop :=
  files (net c') p = files (net c) p
  \/ p = test_file c /\ files (net c) p = None
     /\ files (net c') p = Some TEST_CONTENTS.

(** What the questions of a command may change besides the console and
    the values: the log gets records of the questions only, and nothing
    of the world is touched but the files, where at most the test file
    is written, and only when it cannot be read. *)
Definition asked (c c' : state) : Prop :=
  writable c' = writable c
  /\ module_dir c' = module_dir c
  /\ sent (net c') = sent (net c)
  /\ stdout (net c') = stdout (net c)
  /\ guess_type (net c') = guess_type (net c)
  /\ (forall p, kept_or_written c c' p)
  /\ exists more, logged c' = logged c ++ more /\ Forall question_record more.

(** The keys of the parameters of a command. *)
Definition keys (self : GcsCommand) : list string :=
  match kind self with
  | GetBucketsCommand => []
  | GetBucketCommand | GetBucketCorsCommand | GetBucketLocationCommand
  | InsertBucketCommand | DeleteBucketCommand => ["bucket"]
  | SetBucketCorsCommand => ["bucket"; "origins"; "methods"; "headers"; "age"]
  | GetObjectCommand | GetObjectAclsCommand | GetObjectMetadataCommand
  | DeleteObjectCommand => ["bucket"; "object"]
  | InsertObjectCommand =>
      ["file-path"; "bucket"; "object"; "content-type"; "encoding"; "acl"]
  | CopyObjectCommand =>
      ["original-bucket"; "original-object"; "new-bucket"; "new-object"]
  end.

(** The value of a key when it is a string, and when it is a list. *)
Definition str_of (vs : gmap string answer) (key : string) : option string :=
  match vs !! key with
  | Some (Str s) => Some s
  | _ => None
  end.

Definition list_of (vs : gmap string answer) (key : string) : option (list string) :=
  match vs !! key with
  | Some (List l) => Some l
  | _ => None
  end.

(** The operation of the client that a command calls with the values
    [vs]. *)
Definition operation_of (self : GcsCommand) (vs : gmap string answer)
    : option operation :=
  match kind self with
  | GetBucketsCommand => Some GetBuckets
  | GetBucketCommand => b ← str_of vs "bucket"; Some (GetBucket b)
  | GetBucketCorsCommand => b ← str_of vs "bucket"; Some (GetBucketCors b)
  | GetBucketLocationCommand => b ← str_of vs "bucket"; Some (GetBucketLocation b)
  | InsertBucketCommand => b ← str_of vs "bucket"; Some (InsertBucket b None None)
  | SetBucketCorsCommand =>
      b ← str_of vs "bucket";
      o ← list_of vs "origins";
      m ← list_of vs "methods";
      h ← list_of vs "headers";
      a ← str_of vs "age";
      Some (SetBucketCors b (Some o) (Some m) (Some h) (PyStr a))
  | DeleteBucketCommand => b ← str_of vs "bucket"; Some (DeleteBucket b)
  | GetObjectCommand =>
      b ← str_of vs "bucket"; o ← str_of vs "object"; Some (GetObject b o)
  | GetObjectAclsCommand =>
      b ← str_of vs "bucket"; o ← str_of vs "object"; Some (GetObjectAcls b o)
  | GetObjectMetadataCommand =>
      b ← str_of vs "bucket"; o ← str_of vs "object"; Some (GetObjectMetadata b o)
  | InsertObjectCommand =>
      b ← str_of vs "bucket";
      f ← str_of vs "file-path";
      o ← str_of vs "object";
      t ← str_of vs "content-type";
      e ← str_of vs "encoding";
      acl ← str_of vs "acl";
      Some (InsertObject b (Some f) (Some o) (Some t) (Some e) (Some acl))
  | CopyObjectCommand =>
      ob ← str_of vs "original-bucket";
      oo ← str_of vs "original-object";
      nb ← str_of vs "new-bucket";
      no ← str_of vs "new-object";
      Some (CopyObject ob oo nb (Some no) None)
  | DeleteObjectCommand =>
      b ← str_of vs "bucket"; o ← str_of vs "object"; Some (DeleteObject b o)
  end.

(** What [_run_api_command] makes of what the client returned: the
    writes and the deletes return a message of their own. *)
Definition result_of (self : GcsCommand) (vs : gmap string answer)
    (x : returned) : returned :=
  let value key := default EmptyString (str_of vs key) in
  match kind self with
  | InsertBucketCommand =>
      Content ("Bucket " +:+ dq +:+ value "bucket" +:+ dq +:+ " created")
  | SetBucketCorsCommand => Content "Cors set successfully"
  | DeleteBucketCommand => Content (value "bucket" +:+ " deleted.")
  | InsertObjectCommand =>
      Content ("File " +:+ value "file-path" +:+ " was uploaded.")
  | CopyObjectCommand =>
      Content (value "new-object" +:+ " has been copied to "
                 +:+ value "new-bucket" +:+ ".")
  | DeleteObjectCommand => Content (value "object" +:+ " deleted.")
  | _ => x
  end.

(** The state with the world [w]. *)
Definition with_net (c : state) (w : world) : state :=
  State (stdin c) (prompts c) (logged c) (writable c) (module_dir c) (values c) w.

(** The state with one more record in the log. *)
Definition with_record (c : state) (r : LogRecord) : state :=
  State (stdin c) (prompts c) (logged c ++ [r]) (writable c) (module_dir c)
    (values c) (net c).

(** The record of a failed command: the exception itself for a
    [GcsError], the message for a [ValueError], which is empty for a
    [UnicodeDecodeError]. *)
Definition failure_record (self : GcsCommand)
    (value_error : string -> option string) (e : exn) : option LogRecord :=
  let failed (a : arg) :=
    mkLogRecord ERROR (AStr "%s failed: %s") [AStr (description self); a] in
  match e with
  | GcsError _ _ => Some (failed (AExn (Exn e)))
  | ValueError m => Some (failed (AStr m))
  | UnicodeDecodeError => Some (failed (AStr EmptyString))
  | TransportError name => option_map (fun m => failed (AStr m)) (value_error name)
  | _ => None
  end.

(** A processing method that only looks at the files and the log. *)
Definition tame (p : string -> C answer) : Prop :=
  forall s c c' r,
    p s c = (c', r) ->
    asked c c' /\ values c' = values c /\ stdin c' = stdin c
    /\ (r = inl AttributeError \/ exists v, r = inr v).

(** A value as the questions leave it in the state [c]: the line
    typed, not empty where the input is required, or what the
    processing method made of it in a state before [c]. *)
Definition good_value (ui : user_input) (c : state) (v : answer) : Prop :=
  exists s,
    lacks "010" s = true
    /\ (default_truthy (ui_default ui) = false -> s <> EmptyString)
    /\ match ui_processing ui with
       | None => v = Str s
       | Some p => exists c0 c1, p s c0 = (c1, inr v) /\ asked c1 c
       end.

(** What the questions for the keys [order] leave: the values of the
    other keys as they were and, unless the console ran out or a
    processing method raised, a good value for every key asked. *)
Definition questions_done (ps : gmap string user_input) (order : list string)
    (c c' : state) (r : raised + unit) : Prop :=
  asked c c'
  /\ (forall k, k ∉ order -> values c' !! k = values c !! k)
  /\ (r = inl EOFError
      \/ r = inl AttributeError
         /\ (exists k ui p s c0 c0',
               ps !! k = Some ui /\ ui_processing ui = Some p
               /\ p s c0 = (c0', inl AttributeError))
      \/ r = inr tt
         /\ forall k ui, k ∈ order -> ps !! k = Some ui ->
              exists v, values c' !! k = Some v /\ good_value ui c' v).

(** The state after a failed call: the failure is logged when it is a
    [GcsError] or a [ValueError]. *)
Definition with_failure (self : GcsCommand)
    (value_error : string -> option string) (c : state) (e : exn) : state :=
  match failure_record self value_error e with
  | Some r => with_record c r
  | None => c
  end.

(** The records that the end of a run adds to the log: the failure of
    the call when the run raises a [GcsError] or a [ValueError], and
    else nothing or one record at the level [INFO]. *)
Definition final_records (self : GcsCommand)
    (value_error : string -> option string) (r : raised + unit)
    (final : list LogRecord) : Prop :=
  match r with
  | inl (Exn e) =>
      final = match failure_record self value_error e with
              | Some x => [x]
              | None => []
              end
  | inl _ => final = []
  | inr _ => final = [] \/ exists m, final = [mkLogRecord INFO m []]
  end.

(** A list argument without the list of a blank line, which is the one
    empty piece. *)
Definition blank_list (l : option (list string)) : option (list string) :=
  match l with
  | Some [EmptyString] => None
  | _ => l
  end.

(** An operation with its blank optional arguments left out. *)
Definition left_out (op : operation) : operation :=
  match op with
  | SetBucketCors b o m h a =>
      SetBucketCors b (blank_list o) (blank_list m) (blank_list h)
        match a with
        | PyStr EmptyString => PyNone
        | _ => a
        end
  | InsertObject b f o t e acl =>
      InsertObject b f (set_value o) (set_value t) (set_value e) (set_value acl)
  | CopyObject ob oo nb no acl => CopyObject ob oo nb (set_value no) (set_value acl)
  | _ => op
  end.

(** ** Consoles and commands to try *)

Module demo_console.

(** A console with the characters [typed], a directory in which every
    path can be written, the module in the directory [gcs] and the
    files of [demo_files.w]. *)
Definition console (typed : string) : state :=
  State typed [] [] (fun _ => true) "gcs" ∅ demo_files.w.

(** A blank line, a bucket and an object. *)
Definition c0 : state :=
  console (newline +:+ "my-bucket" +:+ newline +:+ "docs/notes.txt" +:+ newline).



(** The values of [SetBucketCorsCommand] when only the bucket was
    typed. *)
Definition c_blank : state :=
  State EmptyString [] [] (fun _ => true) "gcs"
    (<["age" := Str EmptyString]>
     (<["headers" := List [EmptyString]]>
     (<["methods" := List [EmptyString]]>
     (<["origins" := List [EmptyString]]>
     {[ "bucket" := Str "my-bucket" ]}))))
    demo_files.w.

(** No exception of the transport is a [ValueError]. *)
Definition no_value_error (name : string) : option string := None.

Definition insert_bucket_command : GcsCommand :=
  mkGcsCommand InsertBucketCommand "Create a bucket" demo.client.
Definition get_object_command : GcsCommand :=
  mkGcsCommand GetObjectCommand "Download an object" demo.client.
Definition set_bucket_cors_command : GcsCommand :=
  mkGcsCommand SetBucketCorsCommand "Set bucket CORS" demo.client.

End demo_console.

(** * The program: [main.py]

    Of [main] the model has the menu, the loop that runs after the
    flags are read and the client is made; [get_auth_http], the OAuth
    flow, is outside of it. *)

Module main.


(** [init_client]: [Gcs] is [GcsXml] here. *)
Definition init_client (auth_http : request -> transport_result)
    (project_id : string) : GcsXml :=
  gcs_xml.__init__ auth_http project_id None.



(** The list [commands] of [main]. *)
Definition commands (gcs_client : GcsXml) : list GcsCommand :=
  [mkGcsCommand GetBucketsCommand "Get all buckets" gcs_client;
   mkGcsCommand GetBucketCommand "Get a bucket" gcs_client;
   mkGcsCommand GetBucketCorsCommand "Get bucket CORS" gcs_client;
   mkGcsCommand GetBucketLocationCommand "Get bucket location" gcs_client;
   mkGcsCommand InsertBucketCommand "Create a bucket" gcs_client;
   mkGcsCommand SetBucketCorsCommand "Set bucket CORS" gcs_client;
   mkGcsCommand DeleteBucketCommand "Delete a bucket" gcs_client;
   mkGcsCommand GetObjectCommand "Download an object" gcs_client;
   mkGcsCommand GetObjectAclsCommand "Get object ACLs" gcs_client;
   mkGcsCommand GetObjectMetadataCommand "Get object metadata" gcs_client;
   mkGcsCommand InsertObjectCommand "Upload an object" gcs_client;
   mkGcsCommand CopyObjectCommand "Copy an object" gcs_client;
   mkGcsCommand DeleteObjectCommand "Delete an object" gcs_client].

(** What the run-time decides and the model takes as given: what
    [int(s)] makes of a string ([None] for a [ValueError]), the order in
    which the dictionary of each class of command gives its keys, which
    exceptions of the transport are a [ValueError], with their message,
    and which are an [Exception] at all. *)
Record runtime : Type := mkRuntime {
  int_ : string -> option Z;
  order : command_class -> list string;
  value_error : string -> option string;
  is_exception : string -> bool
}.

(** [except Exception] *)
Definition caught (rt : runtime) (e : raised) : bool :=
  match e with
  | Exn (TransportError name) => is_exception rt name
  | _ => true
  end.

(** The lines of the menu: the prints at the head of the loop. *)
Definition show_menu (commands : list GcsCommand) : C unit :=
  _ ← client (print "What would you like to do? Enter the number.");
  _ ← for_each (imap (fun i command => (i, command)) commands)
        (fun ic =>
           client (print (fmt_d (Z.of_nat ic.1) +:+ ": " +:+ description ic.2)));
  client (print (fmt_d (Z.of_nat (length commands)) +:+ ": Quit")).

(** How a round of the loop ends: with [continue] or at the end of the
    body, or with [break]. *)
Inductive round_end : Type := Again | Break.

(** One round of [while True]. *)
Definition round (rt : runtime) (commands : list GcsCommand) : C round_end :=
  _ ← show_menu commands;
  selection ← raw_input (Literal "Enter your selection: ");
  match int_ rt selection with
  | None => _ ← logging_error (AStr "Enter a number.") []; mret Again
  | Some selection =>
      if (Z.of_nat (length commands) <? selection) || (selection <? 0) then
        _ ← logging_error (AStr "Selection not recognized.") []; mret Again
      else if selection =? Z.of_nat (length commands) then mret Break
      else
        try_except
          (match commands !! Z.to_nat selection with
           | Some command =>
               _ ← run_command command (order rt (kind command)) (value_error rt);
               mret Again
           | None => craise IndexError
           end)
          (fun e =>
             if caught rt e then
               _ ← logging_error (AStr "Error running command. Please try again.") [];
               _ ← logging_error (AExn e) [];
               mret Again
             else craise e)
  end.

(** The loop, for at most [rounds] rounds: [None] when they do not
    suffice. *)
Fixpoint loop (rounds : nat) (rt : runtime) (commands : list GcsCommand)
    (c : state) : option (state * (raised + unit)) :=
  match rounds with
  | O => None
  | S rounds' =>
      match round rt commands c with
      | (c', inl e) => Some (c', inl e)
      | (c', inr Break) => Some (c', inr tt)
      | (c', inr Again) => loop rounds' rt commands c'
      end
  end.

End main.

Import main.

(** ** Vocabulary for the program *)

(** A computation that takes characters from the console and puts none
    there. *)
Definition reads {A} (m : C A) : Prop :=
  forall c c' r,
    m c = (c', r) -> (String.length (stdin c') <= String.length (stdin c))%nat.

(** The lines of the menu. *)
Definition menu_lines (commands : list GcsCommand) : list string :=
  "What would you like to do? Enter the number."
  :: map (fun ic => fmt_d (Z.of_nat ic.1) +:+ ": " +:+ description ic.2)
       (imap (fun i command => (i, command)) commands)
  ++ [fmt_d (Z.of_nat (length commands)) +:+ ": Quit"].

(** The state in which a round has its selection: the menu is printed,
    the prompt is shown, and the line of the selection is taken from the
    console, which holds [left] after it. *)
Definition at_selection (commands : list GcsCommand) (c : state) (left : string)
    : state :=
  State left (prompts c ++ [Literal "Enter your selection: "]) (logged c)
    (writable c) (module_dir c) (values c)
    (World (sent (net c)) (stdout (net c) ++ menu_lines commands) (files (net c))
       (guess_type (net c))).

(** The two records that the loop logs for an exception of a
    command. *)
Definition with_caught (c : state) (e : raised) : state :=
  with_record
    (with_record c
       (mkLogRecord ERROR (AStr "Error running command. Please try again.") []))
    (mkLogRecord ERROR (AExn e) []).

(** From [c] the loop comes to the head of a round in [c'], by rounds
    that end with [continue] or at the foot of the body. *)
Inductive rounds_to (rt : runtime) (commands : list GcsCommand)
    : state -> state -> Prop :=
| rounds_none c : rounds_to rt commands c c
| rounds_more c c1 c2 :
    round rt commands c = (c1, inr Again) ->
    rounds_to rt commands c1 c2 ->
    rounds_to rt commands c c2.

(** How a session that starts in [c] can end. It comes to the head of
    a last round, and there: the line on the console is the number of
    [Quit], and the loop is left with nothing more logged or sent; or
    the console has run out at the prompt for the selection; or the
    command selected met an exception of the transport that is not an
    [Exception]. *)
Definition session_end (rt : runtime) (commands : list GcsCommand)
    (c c' : state) (r : raised + unit) : Prop :=
  exists c_last,
    rounds_to rt commands c c_last
    /\ ((exists line rest,
           lines (stdin c_last) = line :: rest
           /\ int_ rt line = Some (Z.of_nat (length commands))
           /\ r = inr tt
           /\ lines (stdin c') = rest
           /\ logged c' = logged c_last
           /\ sent (net c') = sent (net c_last))
        \/ (stdin c_last = EmptyString
            /\ r = inl EOFError
            /\ stdin c' = EmptyString
            /\ logged c' = logged c_last
            /\ sent (net c') = sent (net c_last))
        \/ (exists name,
              r = inl (Exn (TransportError name))
              /\ is_exception rt name = false
              /\ round rt commands c_last
                 = (c', inl (Exn (TransportError name))))).

(** ** A session to try *)

Module demo_session.

(** A run-time that reads a selection as a decimal number, gives the
    keys of each dictionary in the order of [keys], and whose transport
    raises nothing but plain exceptions. *)
Definition rt : runtime :=
  {| int_ := fun s => option_map Z.of_int (NilZero.int_of_string s);
     order := fun k => keys (mkGcsCommand k EmptyString demo.client);
     value_error := fun _ => None;
     is_exception := fun _ => true |}.

(** The selection 4, a blank line, a bucket, and the selection 13. *)
Definition c0 : state :=
  demo_console.console
    ("4" +:+ newline +:+ newline +:+ "my-bucket" +:+ newline +:+ "13" +:+ newline).

(** The selection 4, a bucket name that ends in a dash, and the
    selection 13. *)
Definition c_failure : state :=
  demo_console.console
    ("4" +:+ newline +:+ "my-bucket-" +:+ newline +:+ "13" +:+ newline).


End demo_session.

(** * The text of an error: [GcsError.__str__] *)

Module gcs_error_text.

(** The digit of ['%x'] for a number below 16: from [0] to [9], then
    from [a] to [f]. *)
Definition hex (n : N) : ascii :=
  ascii_of_N (if (n <? 10)%N then 48 + n else 87 + n)%N.

(** What [repr] writes for one character of a [str] between the quotes
    [quote] (CPython 2.7, [PyString_Repr]): the quote and the backslash
    after a backslash, the tab, the newline and the carriage return as
    [\t], [\n] and [\r], any other character below the space or from
    127 on as [\x] and two digits, and the rest as they are. *)
Definition repr_char (quote c : ascii) : string :=
  let n := N_of_ascii c in
  if Ascii.eqb c quote || Ascii.eqb c "\" then String "\" (String c EmptyString)
  else if Ascii.eqb c "009" then "\t"
  else if Ascii.eqb c "010" then "\n"
  else if Ascii.eqb c "013" then "\r"
  else if (n <? 32)%N || (127 <=? n)%N then
    String "\" (String "x" (String (hex (n / 16)) (String (hex (n mod 16)) EmptyString)))
  else String c EmptyString.

Fixpoint repr_body (quote : ascii) (s : string) : string :=
  match s with
  | String c s' => repr_char quote c +:+ repr_body quote s'
  | EmptyString => EmptyString
  end.

(** The quote of [repr(s)]: the single quote, unless [s] holds one and
    no double quote. *)
Definition repr_quote (s : string) : ascii :=
  if negb (lacks "'" s) && lacks "034" s then "034"%char else "'"%char.

(** [repr(s)] for a [str] *)
Definition repr_str (s : string) : string :=
  String (repr_quote s) (repr_body (repr_quote s) s +:+ String (repr_quote s) EmptyString).

(** [repr(n)] for an [int] *)
Definition repr_int (n : Z) : string := fmt_d n.

(** [GcsError.__str__]: ['%s: %s' % (repr(self.status), repr(self.message))] *)
Definition __str__ (status : Z) (message : string) : string :=
  repr_int status +:+ ": " +:+ repr_str message.

End gcs_error_text.

Import gcs_error_text.

(** A string of printable ASCII characters, from the space to the
    tilde: in particular it is one line. *)
Fixpoint printable (s : string) : bool :=
  match s with
  | String c s' => (32 <=? N_of_ascii c)%N && (N_of_ascii c <? 127)%N && printable s'
  | EmptyString => true
  end.

(** One character of a [repr] read back: the character and what
    follows it. *)
Definition unhex (c : ascii) : N :=
  let n := N_of_ascii c in
  if (n <? 58)%N then (n - 48)%N else (n - 87)%N.

Definition read_char (s : string) : option (ascii * string) :=
  match s with
  | String "\" (String "x" (String h (String l r))) =>
      Some (ascii_of_N (16 * unhex h + unhex l), r)
  | String "\" (String "t" r) => Some ("009"%char, r)
  | String "\" (String "n" r) => Some ("010"%char, r)
  | String "\" (String "r" r) => Some ("013"%char, r)
  | String "\" (String c r) => Some (c, r)
  | String c r => Some (c, r)
  | EmptyString => None
  end.
(** * Properties *)

(** ** Running the monad *)

Lemma bind_raise {A B} (m : M A) (k : A -> M B) w w' e :
  m w = (w', inl e) -> (x ← m; k x) w = (w', inl e).
Proof. intros H. unfold mbind, M_bind, bind. by rewrite H. Qed.

Lemma bind_ret {A B} (m : M A) (k : A -> M B) w w' a :
  m w = (w', inr a) -> (x ← m; k x) w = k a w'.
Proof. intros H. unfold mbind, M_bind, bind. by rewrite H. Qed.

Lemma sent_record w req : sent (record w req) = sent w ++ [req].
Proof. reflexivity. Qed.

Lemma sent_fresh (l : list request) req : l <> l ++ [req].
Proof.
  intros H. apply (f_equal length) in H. rewrite length_app in H.
  simpl in H. lia.
Qed.

(** ** Strings *)

Lemma app_cons c (s t : string) : String c s +:+ t = String c (s +:+ t).
Proof. reflexivity. Qed.

Lemma app_empty_l (t : string) : EmptyString +:+ t = t.
Proof. reflexivity. Qed.

Lemma string_app_assoc (s t u : string) : (s +:+ t) +:+ u = s +:+ t +:+ u.
Proof. induction s as [|c s IH]; [done|]. by rewrite !app_cons, IH. Qed.

Lemma string_length_app (s t : string) :
  String.length (s +:+ t) = (String.length s + String.length t)%nat.
Proof. induction s as [|c s IH]; [done|]. rewrite app_cons. simpl. by rewrite IH. Qed.

(** ** Character classes *)

Section Classes.

Local Ltac by_cases c := destruct c as [[] [] [] [] [] [] [] []]; vm_compute; congruence.

Lemma alnum_is_alphanumeric c : re.alnum c = is_alphanumeric c.
Proof. by_cases c. Qed.

Lemma word_dash_dot_is_allowed c : re.word_dash_dot c = is_allowed c.
Proof. by_cases c. Qed.

Lemma allowed_dot c : is_allowed c = true -> re.dot c = true.
Proof. by_cases c. Qed.

Lemma allowed_not_newline c : is_allowed c = true -> Ascii.eqb c "010" = false.
Proof. by_cases c. Qed.

Lemma alphanumeric_allowed c : is_alphanumeric c = true -> is_allowed c = true.
Proof. by_cases c. Qed.

End Classes.

(** ** The three patterns of [insert_bucket] *)

Section Patterns.

Implicit Types (s : string) (c : ascii) (b : bool).

Lemma star_zero cls k b s : k b s = true -> re.star cls k b s = true.
Proof. intros H. destruct s; simpl; rewrite H; auto using orb_true_r. Qed.

Lemma star_step cls k b c s :
  cls c = true -> re.star cls k false s = true ->
  re.star cls k b (String c s) = true.
Proof. intros Hc Hs. simpl. by rewrite Hc, Hs. Qed.

Lemma star_inv cls k b s :
  re.star cls k b s = true ->
  k b s = true \/
  exists c s', s = String c s' /\ cls c = true /\ re.star cls k false s' = true.
Proof.
  destruct s as [|c s']; simpl; intros H.
  - by left.
  - apply orb_true_iff in H as [H|H]; [right|by left].
    apply andb_true_iff in H as [Hc Hs]. by exists c, s'.
Qed.

Lemma last_char_cons c s :
  last_char (String c s) = match s with EmptyString => Some c | _ => last_char s end.
Proof. reflexivity. Qed.

Lemma last_char_nonempty c s : exists d, last_char (String c s) = Some d.
Proof.
  revert c. induction s as [|a s IH]; intros c; [by exists c|].
  rewrite last_char_cons. apply IH.
Qed.

(** [[\w\-\.]*$] accepts the strings made of allowed characters. *)
Lemma allowed_then_eol b s :
  all_chars is_allowed s = true ->
  re.star re.word_dash_dot (re.run [re.Eol]) b s = true.
Proof.
  revert b. induction s as [|c s IH]; intros b H; [reflexivity|].
  simpl in H. apply andb_true_iff in H as [Hc Hs].
  apply star_step; [by rewrite word_dash_dot_is_allowed | by apply IH].
Qed.

(** What it accepts beyond them ends in a newline. *)
Lemma eol_then_allowed b s :
  re.star re.word_dash_dot (re.run [re.Eol]) b s = true ->
  last_char s <> Some "010"%char ->
  all_chars is_allowed s = true.
Proof.
  revert b. induction s as [|c s IH]; intros b H Hl; [reflexivity|].
  apply star_inv in H as [H|(c' & s' & [= <- <-] & Hc & Hs)].
  - simpl in H. destruct s; [|discriminate].
    rewrite andb_true_r in H. apply Ascii.eqb_eq in H. by subst c.
  - simpl. rewrite <- word_dash_dot_is_allowed, Hc. simpl.
    destruct s as [|a s]; [reflexivity|]. by apply (IH false).
Qed.

Lemma only_chars_accepts s :
  s <> EmptyString -> all_chars is_allowed s = true ->
  re.match_ only_chars s = true.
Proof.
  intros Hne H. destruct s as [|c s]; [done|].
  simpl in H. apply andb_true_iff in H as [Hc Hs].
  unfold re.match_, only_chars. simpl re.run.
  rewrite word_dash_dot_is_allowed, Hc. simpl.
  by apply allowed_then_eol.
Qed.

Lemma only_chars_rejects s :
  all_chars is_allowed s = false ->
  last_char s <> Some "010"%char ->
  re.match_ only_chars s = false.
Proof.
  intros H Hl. apply not_true_is_false. intros Hm.
  destruct s as [|c s]; [discriminate|].
  unfold re.match_, only_chars in Hm. simpl re.run in Hm.
  apply andb_true_iff in Hm as [Hc Hs].
  assert (all_chars is_allowed (String c s) = true); [|congruence].
  simpl. rewrite <- word_dash_dot_is_allowed, Hc. simpl.
  destruct s as [|a s]; [reflexivity|]. by apply (eol_then_allowed false).
Qed.

Lemma starts_alnum_spec s :
  re.match_ starts_alnum s = holds StartCharacter s.
Proof.
  unfold re.match_, starts_alnum. destruct s as [|c s]; [reflexivity|].
  simpl re.run. simpl holds. rewrite alnum_is_alphanumeric.
  destruct (is_alphanumeric c); [|reflexivity]. simpl.
  apply star_zero. simpl re.run. by apply star_zero.
Qed.

(** [[a-zA-Z0-9]*$] at the end of a string of allowed characters. *)
Lemma alnum_then_eol b s :
  re.star re.alnum (re.run [re.Eol]) b s = true ->
  all_chars is_allowed s = true ->
  s = EmptyString \/ exists c, last_char s = Some c /\ is_alphanumeric c = true.
Proof.
  revert b. induction s as [|c s IH]; intros b H Ha; [by left|right].
  simpl in Ha. apply andb_true_iff in Ha as [Hc Ha].
  apply star_inv in H as [H|(c' & s' & [= <- <-] & Hc' & Hs)].
  - simpl in H. destruct s; [|discriminate].
    rewrite andb_true_r in H. by rewrite (allowed_not_newline c) in H.
  - destruct (IH false Hs Ha) as [->|(d & Hd & Hal)].
    + exists c. by rewrite <- alnum_is_alphanumeric.
    + exists d. split; [|done]. rewrite last_char_cons.
      destruct s; [discriminate|done].
Qed.

Lemma ends_alnum_rejects b s :
  all_chars is_allowed s = true ->
  re.star re.dot (re.run [re.Plus re.alnum; re.Eol]) b s = true ->
  exists c, last_char s = Some c /\ is_alphanumeric c = true.
Proof.
  revert b. induction s as [|c s IH]; intros b Ha H.
  - simpl in H. discriminate.
  - pose proof Ha as Ha'. simpl in Ha. apply andb_true_iff in Ha as [Hc Ha].
    apply star_inv in H as [H|(c' & s' & [= <- <-] & Hc' & Hs)].
    + simpl re.run in H. apply andb_true_iff in H as [Hal H].
      destruct (alnum_then_eol _ _ H Ha) as [->|(d & Hd & Hal')].
      * exists c. by rewrite <- alnum_is_alphanumeric.
      * exists d. split; [|done]. rewrite last_char_cons.
        destruct s; [discriminate|done].
    + destruct (IH false Ha Hs) as (d & Hd & Hal).
      exists d. split; [|done]. rewrite last_char_cons.
      destruct s; [discriminate|done].
Qed.

Lemma ends_alnum_accepts b s :
  all_chars is_allowed s = true ->
  (exists c, last_char s = Some c /\ is_alphanumeric c = true) ->
  re.star re.dot (re.run [re.Plus re.alnum; re.Eol]) b s = true.
Proof.
  revert b. induction s as [|c s IH]; intros b Ha (d & Hd & Hal); [discriminate|].
  simpl in Ha. apply andb_true_iff in Ha as [Hc Ha].
  destruct s as [|a s].
  - injection Hd as ->. apply star_zero. simpl re.run.
    by rewrite alnum_is_alphanumeric, Hal.
  - apply star_step; [by apply allowed_dot|].
    apply IH; [done|]. exists d. by rewrite last_char_cons in Hd.
Qed.

Lemma ends_alnum_spec s :
  all_chars is_allowed s = true ->
  re.match_ ends_alnum s = holds EndCharacter s.
Proof.
  intros Ha. unfold re.match_, ends_alnum. simpl re.run. simpl holds.
  destruct (re.star _ _ _ _) eqn:E.
  - destruct (ends_alnum_rejects _ _ Ha E) as (c & -> & ->). reflexivity.
  - destruct (last_char s) as [c|] eqn:El; [|reflexivity].
    destruct (is_alphanumeric c) eqn:Ec; [|reflexivity].
    rewrite ends_alnum_accepts in E; [discriminate|done|by exists c].
Qed.

Lemma length_rule s :
  (len s <? 3) || (63 <? len s) = negb (holds Length s).
Proof.
  unfold len, holds.
  destruct (Z.ltb_spec (Z.of_nat (String.length s)) 3),
    (Z.ltb_spec 63 (Z.of_nat (String.length s))),
    (Nat.leb_spec 3 (String.length s)),
    (Nat.leb_spec (String.length s) 63); simpl; try reflexivity; lia.
Qed.

End Patterns.

(** ** One request per call *)

Lemma _api_request_run self url method headers body w :
  _api_request self url method headers body w =
    (record w (built_request self url method headers body),
     interpret (auth_http self (built_request self url method headers body))).
Proof.
  unfold _api_request, mbind, M_bind, bind, http_request, record, interpret.
  fold (built_request self url method headers body).
  destruct (auth_http self _) as [| |response content]; try reflexivity.
  destruct (300 <=? status response); reflexivity.
Qed.

Lemma built_request_url self url method headers body :
  req_url (built_request self url method headers body) = "http://" +:+ url.
Proof. reflexivity. Qed.

Lemma built_request_method self url method headers body :
  req_method (built_request self url method headers body)
  = str_or method (default_method self).
Proof. reflexivity. Qed.

Lemma built_request_body self url method headers body :
  req_body (built_request self url method headers body) = body.
Proof. reflexivity. Qed.

(** The headers of the caller survive under every key that
    [_api_request] does not write. *)
Lemma built_request_other_header self url method headers body k :
  k <> "x-goog-project-id" -> k <> "x-goog-api-version" -> k <> "Content-Length" ->
  req_headers (built_request self url method headers body) !! k
  = default ∅ headers !! k.
Proof.
  intros H1 H2 H3. unfold built_request. cbn [req_headers].
  repeat case_match; by rewrite ?lookup_insert_ne by done.
Qed.

Lemma built_request_project_id self url method headers body :
  req_headers (built_request self url method headers body) !! "x-goog-project-id"
  = Some (project_id self).
Proof.
  unfold built_request. cbn [req_headers].
  repeat case_match;
    rewrite ?(lookup_insert_ne _ "Content-Length") by done;
    rewrite lookup_insert_ne by done; apply lookup_insert_eq.
Qed.

Lemma built_request_api_version self url method headers body :
  req_headers (built_request self url method headers body) !! "x-goog-api-version"
  = Some (api_version self).
Proof.
  unfold built_request. cbn [req_headers].
  repeat case_match;
    rewrite ?(lookup_insert_ne _ "Content-Length") by done;
    apply lookup_insert_eq.
Qed.

Lemma built_request_content_length self url method headers body :
  req_headers (built_request self url method headers body) !! "Content-Length"
  = if String.eqb (str_or method (default_method self)) "POST"
       || String.eqb (str_or method (default_method self)) "PUT"
       || opt_truthy body
    then Some (if opt_truthy body then fmt_d (len (default EmptyString body)) else "0")
    else default ∅ headers !! "Content-Length".
Proof.
  unfold built_request. cbn [req_headers].
  repeat case_match; rewrite ?lookup_insert_eq; try done;
    by rewrite !lookup_insert_ne by done.
Qed.

(** ** [insert_bucket] *)

Lemma violated_nil name :
  violated name = [] -> forall r, holds r name = true.
Proof.
  unfold violated, rules. cbn [List.filter].
  destruct (holds AllowedCharacters name) eqn:E1, (holds StartCharacter name) eqn:E2,
    (holds EndCharacter name) eqn:E3, (holds Length name) eqn:E4;
    cbn [negb]; intros H; try discriminate.
  by intros [].
Qed.

Lemma violated_one name r :
  violated name = [r] ->
  holds r name = false /\ forall r', r' <> r -> holds r' name = true.
Proof.
  unfold violated, rules. cbn [List.filter].
  destruct (holds AllowedCharacters name) eqn:E1, (holds StartCharacter name) eqn:E2,
    (holds EndCharacter name) eqn:E3, (holds Length name) eqn:E4;
    cbn [negb]; intros H; try discriminate; injection H as <-;
    (split; [done|]); by intros [].
Qed.

Lemma length_nonempty name : holds Length name = true -> name <> EmptyString.
Proof. by intros H ->. Qed.

Lemma end_not_newline name :
  holds EndCharacter name = true -> last_char name <> Some "010"%char.
Proof. unfold holds. intros H E. by rewrite E in H. Qed.

(** The body that [insert_bucket] passes on. *)
Lemma location_body self lc :
  lc = "EU" \/ lc = "US" ->
  _get_location_constraint_body self (PyStr lc)
  = inr (XML_DECLARATION +:+ "<CreateBucketConfiguration><LocationConstraint>"
           +:+ lc +:+ "</LocationConstraint></CreateBucketConfiguration>").
Proof. by intros [-> | ->]. Qed.

Lemma location_test (lc : option string) :
  opt_truthy lc && (bool_decide (lc = Some "EU") || bool_decide (lc = Some "US"))
  = bool_decide (lc = Some "EU" \/ lc = Some "US").
Proof.
  destruct (decide (lc = Some "EU")) as [->|H1]; [reflexivity|].
  destruct (decide (lc = Some "US")) as [->|H2]; [reflexivity|].
  rewrite (bool_decide_eq_false_2 (lc = Some "EU")) by done.
  rewrite (bool_decide_eq_false_2 (lc = Some "US")) by done.
  rewrite (bool_decide_eq_false_2 (_ \/ _)) by (intros [?|?]; done).
  apply andb_false_r.
Qed.

Lemma api_request_content self url method headers body w :
  (rc ← _api_request self url method headers body; mret rc.2) w =
    (record w (built_request self url method headers body),
     content_of (interpret (auth_http self (built_request self url method headers body)))).
Proof.
  unfold mbind, M_bind, bind. rewrite _api_request_run.
  by destruct (interpret _).
Qed.

(** Past its four checks, [insert_bucket] makes one request. *)
Lemma insert_bucket_passed self name acl lc w :
  re.match_ only_chars name = true ->
  re.match_ starts_alnum name = true ->
  re.match_ ends_alnum name = true ->
  (len name <? 3) || (63 <? len name) = false ->
  insert_bucket self name acl lc w =
    let body :=
      if bool_decide (lc = Some "EU" \/ lc = Some "US")
      then Some (XML_DECLARATION +:+ "<CreateBucketConfiguration><LocationConstraint>"
                   +:+ default EmptyString lc
                   +:+ "</LocationConstraint></CreateBucketConfiguration>")
      else None in
    let req :=
      built_request self (bucket_host self name) (Some "PUT")
        (Some (set_if "x-goog-acl" acl ∅)) body in
    (record w req, content_of (interpret (auth_http self req))).
Proof.
  intros H1 H2 H3 H4. unfold insert_bucket.
  rewrite H1, H2, H3, H4. cbn [negb].
  rewrite location_test. cbv zeta.
  case_bool_decide as Hlc.
  - unfold mbind at 1, M_bind at 1, bind at 1.
    unfold mbind at 1, M_bind at 1, bind at 1, lift.
    rewrite location_body by (destruct Hlc as [-> | ->]; auto).
    apply api_request_content.
  - apply api_request_content.
Qed.

(** A name that keeps the four rules goes to the transport. *)
Lemma insert_bucket_run self name acl lc w :
  (forall r, holds r name = true) ->
  insert_bucket self name acl lc w =
    let body :=
      if bool_decide (lc = Some "EU" \/ lc = Some "US")
      then Some (XML_DECLARATION +:+ "<CreateBucketConfiguration><LocationConstraint>"
                   +:+ default EmptyString lc
                   +:+ "</LocationConstraint></CreateBucketConfiguration>")
      else None in
    let req :=
      built_request self (bucket_host self name) (Some "PUT")
        (Some (set_if "x-goog-acl" acl ∅)) body in
    (record w req, content_of (interpret (auth_http self req))).
Proof.
  intros H. pose proof (H AllowedCharacters) as Ha.
  apply insert_bucket_passed.
  - apply only_chars_accepts; [|done]. apply length_nonempty, H.
  - by rewrite starts_alnum_spec.
  - by rewrite ends_alnum_spec.
  - by rewrite length_rule, (H Length).
Qed.

(** A name that breaks a rule does not. *)
Lemma insert_bucket_raises self name acl lc w r :
  holds r name = false -> (forall r', r' <> r -> holds r' name = true) ->
  insert_bucket self name acl lc w = (w, inl (ValueError (message r name))).
Proof.
  intros Hr H. unfold insert_bucket. destruct r.
  - pose proof (H EndCharacter ltac:(done)) as He.
    rewrite only_chars_rejects; [done|done|by apply end_not_newline].
  - pose proof (H AllowedCharacters ltac:(done)) as Ha.
    pose proof (H Length ltac:(done)) as Hl.
    rewrite only_chars_accepts by (by apply length_nonempty || done).
    by rewrite starts_alnum_spec, Hr.
  - pose proof (H AllowedCharacters ltac:(done)) as Ha.
    pose proof (H Length ltac:(done)) as Hl.
    rewrite only_chars_accepts by (by apply length_nonempty || done).
    rewrite starts_alnum_spec, (H StartCharacter) by done.
    by rewrite ends_alnum_spec, Hr by done.
  - pose proof (H AllowedCharacters ltac:(done)) as Ha.
    pose proof (H StartCharacter ltac:(done)) as Hs.
    rewrite only_chars_accepts by (by intros -> || done).
    rewrite starts_alnum_spec, Hs.
    rewrite ends_alnum_spec, (H EndCharacter) by done.
    by rewrite length_rule, Hr.
Qed.

Lemma message_injective r r' name :
  message r name = message r' name -> r = r'.
Proof.
  intros H. apply (f_equal (String.substring 0 25)) in H.
  destruct r, r'; first [reflexivity | by vm_compute in H].
Qed.

(** C1. A bucket name that keeps the naming rules (3 to 63 characters,
    only letters, digits, hyphen, underscore and dot, a letter or digit
    first and last) passes the checks of [insert_bucket]: the call hands
    one request for that bucket to the transport and raises no
    [ValueError]. A name that breaks exactly one of the four rules makes
    the call raise the [ValueError] whose message speaks of that rule,
    and of no other, with the world as it was: nothing went to the
    transport. *)
Theorem insert_bucket_checks_name self name acl lc w :
  (violated name = [] ->
     exists req,
       sent (insert_bucket self name acl lc w).1 = sent w ++ [req]
       /\ req_url req = "http://" +:+ name +:+ "." +:+ _base_url self
       /\ forall msg, (insert_bucket self name acl lc w).2 <> inl (ValueError msg))
  /\ (forall r, violated name = [r] ->
        insert_bucket self name acl lc w = (w, inl (ValueError (message r name)))
        /\ forall r', message r' name = message r name -> r' = r).
Proof.
  split.
  - intros H. rewrite insert_bucket_run by (by apply violated_nil).
    cbv zeta. eexists. split; [reflexivity|]. split; [reflexivity|].
    intros msg. cbn [snd]. unfold interpret.
    destruct (auth_http self _) as [| |resp c]; [done|done|].
    by destruct (300 <=? status resp).
  - intros r H. apply violated_one in H as [Hr H]. split.
    + by apply insert_bucket_raises.
    + intros r' Hm. by apply (message_injective r' r name).
Qed.

Lemma insert_bucket_checks_name_witness :
  (exists req,
     sent (insert_bucket demo.client "my-bucket.01" None None demo.w0).1
       = sent demo.w0 ++ [req]
     /\ req_url req = "http://my-bucket.01.storage.googleapis.com"
     /\ forall msg,
          (insert_bucket demo.client "my-bucket.01" None None demo.w0).2
            <> inl (ValueError msg))
  /\ insert_bucket demo.client "my bucket" None None demo.w0
     = (demo.w0,
        inl (ValueError "Bucket names can only contain letters, numbers, -, _, or ."))
  /\ insert_bucket demo.client "-bucket" None None demo.w0
     = (demo.w0, inl (ValueError "Bucket names can only start with letters or numbers."))
  /\ insert_bucket demo.client "bucket-" None None demo.w0
     = (demo.w0,
        inl (ValueError "Bucket names can only end with letters or numbers. bucket-"))
  /\ insert_bucket demo.client "ab" None None demo.w0
     = (demo.w0, inl (ValueError "Bucket names must contain 3 to 63 letters.")).
Proof.
  split; [|split; [|split; [|split]]].
  - apply (proj1 (insert_bucket_checks_name demo.client "my-bucket.01" None None demo.w0)).
    reflexivity.
  - apply (proj2 (insert_bucket_checks_name demo.client "my bucket" None None demo.w0)
             AllowedCharacters).
    reflexivity.
  - apply (proj2 (insert_bucket_checks_name demo.client "-bucket" None None demo.w0)
             StartCharacter).
    reflexivity.
  - apply (proj2 (insert_bucket_checks_name demo.client "bucket-" None None demo.w0)
             EndCharacter).
    reflexivity.
  - apply (proj2 (insert_bucket_checks_name demo.client "ab" None None demo.w0)
             Length).
    reflexivity.
Defined.

(** ** Every operation *)

Lemma set_if_lookup_ne key v (h : gmap string string) k :
  k <> key -> set_if key v h !! k = h !! k.
Proof.
  intros Hk. unfold set_if. destruct v as [s|]; [|done].
  destruct (str_truthy s); [|done]. by rewrite lookup_insert_ne.
Qed.

Lemma call_content (m : M string) w w1 r :
  m w = (w1, content_of r) ->
  (x ← m; mret (Content x)) w
  = (w1, match r with inl e => inl e | inr rc => inr (Content rc.2) end).
Proof.
  intros H. unfold mbind, M_bind, bind. rewrite H. by destruct r.
Qed.

Lemma returns_content op r :
  (forall b o, op <> GetObjectMetadata b o) ->
  returns op r = match r with inl e => inl e | inr rc => inr (Content rc.2) end.
Proof.
  intros H. destruct r as [e|[resp c]]; [done|]. simpl.
  destruct op; try reflexivity. by destruct (H bucket_name object_name).
Qed.

(** A call either fails before it reaches the transport, and leaves the
    world as it was, or hands exactly one request to the transport and
    returns what [_api_request] reads from the answer. The headers that
    the methods prepare never hold a [Content-Length]. *)
Lemma call_run self op w :
  (exists e, call self op w = (w, inl e)) \/
  (exists w1 url method headers body,
     sent w1 = sent w
     /\ default ∅ headers !! "Content-Length" = None
     /\ call self op w =
          (record w1 (built_request self url method headers body),
           returns op
             (interpret (auth_http self (built_request self url method headers body))))).
Proof.
  assert (Hsimple : forall (m : M string) url method headers body w1,
    m w = (record w1 (built_request self url method headers body),
           content_of (interpret (auth_http self
                                    (built_request self url method headers body)))) ->
    (forall b o, op <> GetObjectMetadata b o) ->
    sent w1 = sent w ->
    default ∅ headers !! "Content-Length" = None ->
    call self op w = (x ← m; mret (Content x)) w ->
    exists w1 url method headers body,
      sent w1 = sent w
      /\ default ∅ headers !! "Content-Length" = None
      /\ call self op w =
           (record w1 (built_request self url method headers body),
            returns op
              (interpret (auth_http self (built_request self url method headers body))))).
  { intros m url method headers body w1 Hm Hop Hw Hh Hc.
    exists w1, url, method, headers, body. split; [done|]. split; [done|].
    rewrite Hc, (call_content _ _ _ _ Hm). by rewrite returns_content. }
  destruct op.
  - right. by eapply (Hsimple (get_buckets self)); [apply api_request_content|..].
  - right. by eapply (Hsimple (get_bucket self _)); [apply api_request_content|..].
  - right. by eapply (Hsimple (get_bucket_cors self _)); [apply api_request_content|..].
  - right.
    by eapply (Hsimple (get_bucket_location self _)); [apply api_request_content|..].
  - destruct (re.match_ only_chars bucket_name) eqn:H1;
      [destruct (re.match_ starts_alnum bucket_name) eqn:H2;
       [destruct (re.match_ ends_alnum bucket_name) eqn:H3;
        [destruct ((len bucket_name <? 3) || (63 <? len bucket_name)) eqn:H4|]|]|].
    2:{ right.
        eapply (Hsimple (insert_bucket self _ _ _));
          [by apply insert_bucket_passed|done|done| |done].
        simpl. by rewrite set_if_lookup_ne. }
    all: left; eexists; unfold call; apply bind_raise;
      unfold insert_bucket; rewrite ?H1, ?H2, ?H3, ?H4; reflexivity.
  - destruct (_get_cors_body self (list_or origins [default_origin self])
                (list_or methods [default_method self])
                (list_or response_headers [default_response_header self])
                (if truthy max_age_sec then max_age_sec else default_max_age_sec self))
      as [e|body] eqn:E.
    + left. exists e. unfold call, set_bucket_cors. cbv zeta.
      apply bind_raise, bind_raise. unfold lift. by rewrite E.
    + right. eapply (Hsimple (set_bucket_cors self _ _ _ _ _)); [|done|done| |done].
      * unfold set_bucket_cors. cbv zeta.
        erewrite bind_ret by (unfold lift; by rewrite E).
        apply api_request_content.
      * done.
  - right. by eapply (Hsimple (delete_bucket self _)); [apply api_request_content|..].
  - right. by eapply (Hsimple (get_object self _ _)); [apply api_request_content|..].
  - right. by eapply (Hsimple (get_object_acls self _ _)); [apply api_request_content|..].
  - right.
    exists w, (object_url self bucket_name object_name), (Some "HEAD"), None, None.
    split; [done|]. split; [done|].
    unfold call, get_object_metadata, mbind, M_bind, bind.
    rewrite _api_request_run. by destruct (interpret _) as [|[]].
  - destruct file_path as [p|];
      [destruct (files w p) as [contents|] eqn:E|].
    2,3: left; eexists; unfold call, insert_object;
      apply bind_raise, bind_raise; unfold read_file;
      rewrite ?E; reflexivity.
    right.
    destruct (negb (opt_truthy content_type) || negb (opt_truthy content_encoding))
      eqn:Eg.
    all: eapply (Hsimple (insert_object self _ _ _ _ _ _)); [|done|done| |done];
      [unfold insert_object;
       erewrite bind_ret by (unfold read_file; by rewrite E);
       cbv zeta; rewrite Eg;
       erewrite bind_ret by reflexivity;
       apply api_request_content
      |simpl; by rewrite !set_if_lookup_ne].
  - right. eapply (Hsimple (copy_object self _ _ _ _ _)); [|done| | |done].
    + unfold copy_object. cbv zeta.
      erewrite bind_ret by reflexivity. apply api_request_content.
    + reflexivity.
    + simpl. by rewrite set_if_lookup_ne.
  - right. by eapply (Hsimple (delete_object self _ _)); [apply api_request_content|..].
Qed.

(** The request of a call that reached the transport. *)
Lemma call_sent self op w req :
  sent (call self op w).1 = sent w ++ [req] ->
  exists w1 url method headers body,
    sent w1 = sent w
    /\ default ∅ headers !! "Content-Length" = None
    /\ req = built_request self url method headers body
    /\ call self op w = (record w1 req, returns op (interpret (auth_http self req))).
Proof.
  intros H. destruct (call_run self op w) as [[e He]|(w1 & url & m & h & b & Hw & Hh & Hc)].
  - rewrite He in H. by apply sent_fresh in H.
  - rewrite Hc in H. cbn [fst] in H. rewrite sent_record, Hw in H.
    apply app_inv_head in H. injection H as <-.
    by exists w1, url, m, h, b.
Qed.

(** C2. Whatever the operation, once its request went to the transport
    the call ends as the transport's answer says: a host that cannot be
    resolved is a [GcsError] with status 404 and the reason
    [Server not found.]; a response with a status of 300 or more is a
    [GcsError] with that status and that reason; a response with a
    status below 300 is returned, as its content, or for
    [get_object_metadata] as the response itself. *)
Theorem transport_result_interpretation self op w req :
  sent (call self op w).1 = sent w ++ [req] ->
  (auth_http self req = ServerNotFoundError ->
     (call self op w).2 = inl (GcsError 404 "Server not found."))
  /\ (forall response content,
        auth_http self req = Reply response content ->
        300 <= status response ->
        (call self op w).2 = inl (GcsError (status response) (reason response)))
  /\ (forall response content,
        auth_http self req = Reply response content ->
        status response < 300 ->
        (call self op w).2 =
          inr (match op with
               | GetObjectMetadata _ _ => Envelope response
               | _ => Content content
               end)).
Proof.
  intros H.
  destruct (call_sent _ _ _ _ H) as (w1 & url & m & h & b & _ & _ & _ & ->).
  cbn [snd]. unfold interpret. split; [|split].
  - by intros ->.
  - intros response content -> Hs.
    by rewrite (proj2 (Z.leb_le _ _) Hs).
  - intros response content -> Hs.
    by rewrite (proj2 (Z.leb_gt _ _) Hs).
Qed.

Lemma transport_result_interpretation_witness :
  (call demo.client GetBuckets demo.w0).2 = inr (Content "OK")
  /\ (call demo.client (GetObjectMetadata "my-bucket" "notes.txt") demo.w0).2
     = inr (Envelope (mkResponse 200 "OK" ∅))
  /\ (call demo.client_404 (GetObject "my-bucket" "notes.txt") demo.w0).2
     = inl (GcsError 404 "Not Found")
  /\ (call demo.client_offline (DeleteBucket "my-bucket") demo.w0).2
     = inl (GcsError 404 "Server not found.").
Proof.
  split; [|split; [|split]].
  - apply (proj2 (proj2 (transport_result_interpretation demo.client GetBuckets demo.w0
             (built_request demo.client "storage.googleapis.com" None None None)
             eq_refl)) (mkResponse 200 "OK" ∅) "OK"); [reflexivity|simpl; lia].
  - apply (proj2 (proj2 (transport_result_interpretation demo.client
             (GetObjectMetadata "my-bucket" "notes.txt") demo.w0
             (built_request demo.client "my-bucket.storage.googleapis.com/notes.txt"
                (Some "HEAD") None None)
             eq_refl)) (mkResponse 200 "OK" ∅) "OK"); [reflexivity|simpl; lia].
  - apply (proj1 (proj2 (transport_result_interpretation demo.client_404
             (GetObject "my-bucket" "notes.txt") demo.w0
             (built_request demo.client_404 "my-bucket.storage.googleapis.com/notes.txt"
                None None None)
             eq_refl)) (mkResponse 404 "Not Found" ∅) EmptyString);
      [reflexivity|simpl; lia].
  - apply (proj1 (transport_result_interpretation demo.client_offline
             (DeleteBucket "my-bucket") demo.w0
             (built_request demo.client_offline "my-bucket.storage.googleapis.com"
                (Some "DELETE") None None)
             eq_refl)).
    reflexivity.
Defined.

(** C8. The request of every operation carries the project id of the
    client under [x-goog-project-id] and its API version under
    [x-goog-api-version]; [_api_request] writes both over whatever
    headers it is called with; the version of a client built without one
    is ["2"]. *)
Theorem project_and_version_headers self :
  (forall op w req,
     sent (call self op w).1 = sent w ++ [req] ->
     req_headers req !! "x-goog-project-id" = Some (project_id self)
     /\ req_headers req !! "x-goog-api-version" = Some (api_version self))
  /\ (forall url method headers body w,
        exists req,
          sent (_api_request self url method headers body w).1 = sent w ++ [req]
          /\ req_headers req !! "x-goog-project-id" = Some (project_id self)
          /\ req_headers req !! "x-goog-api-version" = Some (api_version self))
  /\ (forall http pid,
        api_version (gcs_xml.__init__ http pid None) = "2"
        /\ forall version,
             project_id (gcs_xml.__init__ http pid version) = pid
             /\ api_version (gcs_xml.__init__ http pid version) = default "2" version).
Proof.
  split; [|split].
  - intros op w req H.
    destruct (call_sent _ _ _ _ H) as (w1 & url & m & h & b & _ & _ & -> & _).
    split; [apply built_request_project_id | apply built_request_api_version].
  - intros url method headers body w. rewrite _api_request_run.
    eexists. split; [reflexivity|].
    split; [apply built_request_project_id | apply built_request_api_version].
  - done.
Qed.

Lemma project_and_version_headers_witness :
  req_headers (built_request demo.client "my-bucket.storage.googleapis.com"
                 (Some "DELETE") None None) !! "x-goog-project-id"
    = Some "my-project"
  /\ req_headers (built_request demo.client "my-bucket.storage.googleapis.com"
                    (Some "DELETE") None None) !! "x-goog-api-version"
    = Some "2".
Proof.
  exact (proj1 (project_and_version_headers demo.client)
           (DeleteBucket "my-bucket") demo.w0
           (built_request demo.client "my-bucket.storage.googleapis.com"
              (Some "DELETE") None None)
           eq_refl).
Defined.

Lemma opt_truthy_some b : b <> EmptyString -> opt_truthy (Some b) = true.
Proof.
  intros H. unfold opt_truthy, str_truthy.
  by rewrite (proj2 (String.eqb_neq _ _) H).
Qed.

Lemma method_test m :
  String.eqb m "POST" || String.eqb m "PUT" = bool_decide (m = "POST" \/ m = "PUT").
Proof.
  destruct (String.eqb_spec m "POST") as [->|H1]; [reflexivity|].
  destruct (String.eqb_spec m "PUT") as [->|H2]; [reflexivity|].
  by rewrite bool_decide_eq_false_2 by (intros [?|?]; done).
Qed.

(** C6. In the request of every operation: a body that is not empty
    comes with a [Content-Length] that is its length in decimal; a POST
    or a PUT without a body (or with an empty one) comes with the
    [Content-Length] ["0"]; any other method without a body comes
    without a [Content-Length]. *)
Theorem content_length_header self op w req :
  sent (call self op w).1 = sent w ++ [req] ->
  (forall b, req_body req = Some b -> b <> EmptyString ->
     req_headers req !! "Content-Length" = Some (fmt_d (Z.of_nat (String.length b))))
  /\ (req_method req = "POST" \/ req_method req = "PUT" ->
      req_body req = None \/ req_body req = Some EmptyString ->
      req_headers req !! "Content-Length" = Some "0")
  /\ (req_method req <> "POST" -> req_method req <> "PUT" ->
      req_body req = None \/ req_body req = Some EmptyString ->
      req_headers req !! "Content-Length" = None).
Proof.
  intros H.
  destruct (call_sent _ _ _ _ H) as (w1 & url & m & h & b & _ & Hh & -> & _).
  rewrite built_request_content_length, built_request_method, built_request_body.
  rewrite method_test. split; [|split].
  - intros b' -> Hb. rewrite opt_truthy_some by done.
    by rewrite orb_true_r.
  - intros Hm Hb. rewrite bool_decide_eq_true_2 by done.
    by destruct Hb as [-> | ->].
  - intros H1 H2 Hb. rewrite bool_decide_eq_false_2 by (intros [?|?]; done).
    by destruct Hb as [-> | ->].
Qed.

Lemma content_length_header_witness :
  req_headers (built_request demo.client "my-bucket.storage.googleapis.com/notes.txt"
                 (Some "PUT") (Some {[ "Content-Type" := "text/plain" ]})
                 (Some "hello")) !! "Content-Length" = Some "5"
  /\ req_headers (built_request demo.client "my-bucket.storage.googleapis.com/b"
                    (Some "PUT") (Some {[ "x-goog-copy-source" := "/my-bucket/a" ]})
                    None) !! "Content-Length" = Some "0"
  /\ req_headers (built_request demo.client "my-bucket.storage.googleapis.com"
                    (Some "DELETE") None None) !! "Content-Length" = None.
Proof.
  split; [|split].
  - apply (proj1 (content_length_header demo.client
             (InsertObject "my-bucket" (Some "notes.txt") None None None None) demo.w0
             (built_request demo.client "my-bucket.storage.googleapis.com/notes.txt"
                (Some "PUT") (Some {[ "Content-Type" := "text/plain" ]}) (Some "hello"))
             eq_refl) "hello"); [reflexivity|discriminate].
  - apply (proj1 (proj2 (content_length_header demo.client
             (CopyObject "my-bucket" "a" "my-bucket" (Some "b") None) demo.w0
             (built_request demo.client "my-bucket.storage.googleapis.com/b"
                (Some "PUT") (Some {[ "x-goog-copy-source" := "/my-bucket/a" ]}) None)
             eq_refl))); [right|left]; reflexivity.
  - apply (proj2 (proj2 (content_length_header demo.client
             (DeleteBucket "my-bucket") demo.w0
             (built_request demo.client "my-bucket.storage.googleapis.com"
                (Some "DELETE") None None)
             eq_refl))); [discriminate|discriminate|left; reflexivity].
Defined.

(** ** [copy_object] *)

Lemma copy_object_run self ob oo nb no acl w :
  copy_object self ob oo nb no acl w =
    let req :=
      built_request self (object_url self nb (str_or no oo)) (Some "PUT")
        (Some (set_if "x-goog-acl" acl {[ "x-goog-copy-source" := "/" +:+ ob +:+ "/" +:+ oo ]}))
        None in
    (record (World (sent w) (stdout w ++ [object_url self nb (str_or no oo)])
               (files w) (guess_type w)) req,
     content_of (interpret (auth_http self req))).
Proof.
  unfold copy_object. cbv zeta.
  erewrite bind_ret by reflexivity. apply api_request_content.
Qed.

(** C7. Every [copy_object] call hands the transport one request: a PUT
    without a body whose [x-goog-copy-source] header is a slash, the
    source bucket, a slash and the source object, and whose URL names the
    destination object, which is the source object when no destination
    name (or an empty one) is given. *)
Theorem copy_object_request self ob oo nb no acl w :
  exists req,
    sent (copy_object self ob oo nb no acl w).1 = sent w ++ [req]
    /\ req_headers req !! "x-goog-copy-source" = Some ("/" +:+ ob +:+ "/" +:+ oo)
    /\ req_method req = "PUT"
    /\ req_body req = None
    /\ req_url req =
         "http://" +:+ nb +:+ "." +:+ _base_url self +:+ "/" +:+
           match no with
           | None => oo
           | Some n => if decide (n = EmptyString) then oo else n
           end.
Proof.
  rewrite copy_object_run. cbv zeta. eexists. split; [reflexivity|].
  split; [|split; [reflexivity|split; [reflexivity|]]].
  - rewrite built_request_other_header by done. simpl.
    rewrite set_if_lookup_ne by done. apply lookup_singleton_eq.
  - rewrite built_request_url. unfold object_url, str_or, str_truthy.
    do 4 f_equal. destruct no as [n|]; [|done].
    case_decide as Hn; [by subst n|].
    by rewrite (proj2 (String.eqb_neq _ _) Hn).
Qed.

(** ** The body of [insert_bucket] *)

Lemma insert_bucket_cases self name acl lc w :
  (exists e, insert_bucket self name acl lc w = (w, inl e)) \/
  insert_bucket self name acl lc w =
    (let body :=
       if bool_decide (lc = Some "EU" \/ lc = Some "US")
       then Some (XML_DECLARATION +:+ "<CreateBucketConfiguration><LocationConstraint>"
                    +:+ default EmptyString lc
                    +:+ "</LocationConstraint></CreateBucketConfiguration>")
       else None in
     let req :=
       built_request self (bucket_host self name) (Some "PUT")
         (Some (set_if "x-goog-acl" acl ∅)) body in
     (record w req, content_of (interpret (auth_http self req)))).
Proof.
  destruct (re.match_ only_chars name) eqn:H1;
    [destruct (re.match_ starts_alnum name) eqn:H2;
     [destruct (re.match_ ends_alnum name) eqn:H3;
      [destruct ((len name <? 3) || (63 <? len name)) eqn:H4|]|]|].
  2: by right; apply insert_bucket_passed.
  all: left; eexists; unfold insert_bucket;
    rewrite ?H1, ?H2, ?H3, ?H4; reflexivity.
Qed.

(** C9. An [insert_bucket] call whose name passes the four checks (any
    other name raises before a request is made) hands the transport one
    request, and this request has a body exactly when the location
    constraint is the string [US] or the string [EU]; the body is then
    the XML declaration followed by the element
    [CreateBucketConfiguration] with the single child
    [LocationConstraint] holding that string, which is what
    [_get_location_constraint_body] returns for it. For any other
    value, the absent one too, the request has no body. *)
Theorem insert_bucket_location_body self name acl lc w :
  re.match_ only_chars name = true ->
  re.match_ starts_alnum name = true ->
  re.match_ ends_alnum name = true ->
  (len name <? 3) || (63 <? len name) = false ->
  exists req,
    insert_bucket self name acl lc w
    = (record w req, content_of (interpret (auth_http self req)))
    /\ sent (insert_bucket self name acl lc w).1 = sent w ++ [req]
    /\ (forall l, lc = Some l -> l = "US" \/ l = "EU" ->
          req_body req =
            Some (XML_DECLARATION +:+ "<CreateBucketConfiguration><LocationConstraint>"
                    +:+ l +:+ "</LocationConstraint></CreateBucketConfiguration>")
          /\ _get_location_constraint_body self (PyStr l)
             = inr (default EmptyString (req_body req)))
    /\ (lc <> Some "US" -> lc <> Some "EU" -> req_body req = None)
    /\ (is_Some (req_body req) <-> lc = Some "US" \/ lc = Some "EU").
Proof.
  intros H1 H2 H3 H4.
  rewrite (insert_bucket_passed self name acl lc w H1 H2 H3 H4). cbv zeta.
  eexists. split; [reflexivity|]. cbn [fst]. rewrite sent_record.
  split; [reflexivity|]. rewrite built_request_body. split; [|split].
  - intros l -> Hl. rewrite bool_decide_eq_true_2 by (destruct Hl as [-> | ->]; auto).
    split; [done|]. simpl. apply location_body. tauto.
  - intros G1 G2. by rewrite bool_decide_eq_false_2 by (intros [?|?]; done).
  - case_bool_decide as Hlc; split; intros Hx.
    + tauto.
    + by eexists.
    + by destruct Hx.
    + tauto.
Qed.

Lemma insert_bucket_location_body_witness :
  exists req,
    insert_bucket demo.client "my-bucket" None (Some "EU") demo.w0
    = (record demo.w0 req, content_of (interpret (auth_http demo.client req)))
    /\ sent (insert_bucket demo.client "my-bucket" None (Some "EU") demo.w0).1
       = sent demo.w0 ++ [req]
    /\ (forall l, Some "EU" = Some l -> l = "US" \/ l = "EU" ->
          req_body req =
            Some (XML_DECLARATION +:+ "<CreateBucketConfiguration><LocationConstraint>"
                    +:+ l +:+ "</LocationConstraint></CreateBucketConfiguration>")
          /\ _get_location_constraint_body demo.client (PyStr l)
             = inr (default EmptyString (req_body req)))
    /\ (Some "EU" <> Some "US" -> Some "EU" <> Some "EU" -> req_body req = None)
    /\ (is_Some (req_body req) <-> Some "EU" = Some "US" \/ Some "EU" = Some "EU").
Proof.
  exact (insert_bucket_location_body demo.client "my-bucket" None (Some "EU") demo.w0
           eq_refl eq_refl eq_refl eq_refl).
Defined.

(** The same call with the constraint [EU], with another value and
    without one: the body of the one request sent. *)
Example insert_bucket_location_bodies :
  map req_body (sent (insert_bucket demo.client "my-bucket" None (Some "EU") demo.w0).1)
  = [Some (XML_DECLARATION +:+
       "<CreateBucketConfiguration><LocationConstraint>EU</LocationConstraint></CreateBucketConfiguration>")]
  /\ map req_body
       (sent (insert_bucket demo.client "my-bucket" None (Some "Asia") demo.w0).1)
     = [None]
  /\ map req_body (sent (insert_bucket demo.client "my-bucket" None None demo.w0).1)
     = [None].
Proof. by vm_compute. Qed.

(** ** The XML bodies *)

Lemma serialize_prefix e t :
  xml._serialize_xml e = inr t -> exists rest, t = "<" +:+ xml.tag e +:+ rest.
Proof.
  destruct e as [tag text children]. simpl.
  destruct (truthy text || negb (Nat.eqb (length children) 0)).
  - destruct (if truthy text then xml._escape_cdata text else inr EmptyString)
      as [err|txt]; [discriminate|].
    match goal with |- context [match ?m with inl _ => _ | inr _ => _ end] =>
      destruct m as [err|cs] end; [discriminate|].
    intros [= <-]. by eexists.
  - intros [= <-]. by eexists.
Qed.

Lemma xml_tostring_inv root body :
  _xml_tostring root = inr body ->
  exists t, xml.tostring root = inr t /\ body = XML_DECLARATION +:+ t.
Proof.
  unfold _xml_tostring. destruct (xml.tostring root) as [err|t]; [discriminate|].
  intros [= <-]. by exists t.
Qed.

Lemma prefix_app (p rest : string) : String.prefix p (p +:+ rest) = true.
Proof.
  induction p as [|c p IH]; simpl; [by destruct rest|].
  unfold String.app. simpl. destruct (ascii_dec c c); [apply IH|done].
Qed.

(** What the loops of [_get_cors_body] build. *)
Lemma cors_entries_tag t d l e :
  xml.tag (fold_left (cors_entry t d) l e) = xml.tag e.
Proof. revert e. induction l as [|x l IH]; intros e; [done|]. simpl. by rewrite IH. Qed.

Lemma cors_entry_text d x :
  PyStr (if str_truthy (strip x) then strip x else d) = entry_text d x.
Proof.
  unfold entry_text, str_truthy. case_decide as H.
  - by rewrite H.
  - by rewrite (proj2 (String.eqb_neq _ _) H).
Qed.

Lemma cors_entries_children t d l e :
  xml.children (fold_left (cors_entry t d) l e)
  = xml.children e ++ map (fun x => xml.mkElement t (entry_text d x) []) l.
Proof.
  revert e. induction l as [|x l IH]; intros e; [by rewrite app_nil_r|].
  cbn [fold_left map]. rewrite IH.
  unfold cors_entry, xml.append, xml.set_text, xml.new.
  cbn [xml.children xml.tag xml.text].
  by rewrite cors_entry_text, <- app_assoc.
Qed.

Lemma findall_same_tag t (vs : list value) e :
  xml.children e = map (fun v => xml.mkElement t v []) vs ->
  map xml.text (xml.findall e t) = vs.
Proof.
  unfold xml.findall. intros ->. induction vs as [|v vs IH]; [done|].
  simpl. rewrite filter_cons_True by done. simpl. by rewrite IH.
Qed.

(** The texts of the entries of one of the three lists of the tree. *)
Lemma cors_entries_texts t d l :
  map xml.text (xml.findall (fold_left (cors_entry t d) l (xml.new (t +:+ "s"))) t)
  = map (entry_text d) l.
Proof.
  apply findall_same_tag. rewrite cors_entries_children. simpl.
  by rewrite map_map.
Qed.

Lemma findall_path_app es p q :
  xml.findall_path es (p ++ q) = xml.findall_path (xml.findall_path es p) q.
Proof. revert es. induction p as [|t p IH]; intros es; [done|]. simpl. apply IH. Qed.

Lemma findall_path_one e t : xml.findall_path [e] [t] = xml.findall e t.
Proof. simpl. apply app_nil_r. Qed.

(** The four children of [Cors], found by their tags. *)
Lemma cors_children o m h a :
  xml.tag o = "Origins" -> xml.tag m = "Methods" ->
  xml.tag h = "ResponseHeaders" -> xml.tag a = "MaxAgeSec" ->
  let root :=
    xml.append (xml.new "CorsConfig")
      (xml.append (xml.append (xml.append (xml.append (xml.new "Cors") o) m) h) a) in
  xml.findall_path [root] ["Cors"; "Origins"] = [o]
  /\ xml.findall_path [root] ["Cors"; "Methods"] = [m]
  /\ xml.findall_path [root] ["Cors"; "ResponseHeaders"] = [h]
  /\ xml.findall_path [root] ["Cors"; "MaxAgeSec"] = [a].
Proof.
  destruct o as [to xo co], m as [tm xm cm], h as [th xh ch], a as [ta xa ca].
  simpl. by intros -> -> -> ->.
Qed.

(** The tree of [_get_cors_body] read back along its paths: the texts of
    the entries of the three lists and the text of [MaxAgeSec]. *)
Lemma cors_config_elem_texts self os ms hs a :
  let root := cors_config_elem self os ms hs a in
  xml.tag root = "CorsConfig"
  /\ map xml.text (xml.findall_path [root] ["Cors"; "Origins"; "Origin"])
     = map (entry_text (default_origin self)) os
  /\ map xml.text (xml.findall_path [root] ["Cors"; "Methods"; "Method"])
     = map (entry_text (default_method self)) ms
  /\ map xml.text (xml.findall_path [root] ["Cors"; "ResponseHeaders"; "ResponseHeader"])
     = map (entry_text (default_response_header self)) hs
  /\ map xml.text (xml.findall_path [root] ["Cors"; "MaxAgeSec"])
     = [max_age_sec_text a].
Proof.
  unfold cors_config_elem. cbv zeta.
  match goal with
  | |- context [xml.append (xml.append (xml.append (xml.append _ ?o) ?m) ?h) ?x] =>
      destruct (cors_children o m h x) as (Ho & Hm & Hh & Ha);
        [by rewrite cors_entries_tag..|done|]
  end.
  split; [done|].
  rewrite (findall_path_app _ ["Cors"; "Origins"] ["Origin"]), Ho, findall_path_one.
  rewrite (findall_path_app _ ["Cors"; "Methods"] ["Method"]), Hm, findall_path_one.
  rewrite (findall_path_app _ ["Cors"; "ResponseHeaders"] ["ResponseHeader"]), Hh,
    findall_path_one.
  rewrite Ha.
  split; [apply (cors_entries_texts "Origin")|].
  split; [apply (cors_entries_texts "Method")|].
  split; [apply (cors_entries_texts "ResponseHeader")|done].
Qed.

(** ** [set_bucket_cors] *)

(** The request of a [set_bucket_cors] call carries the serialization of
    the tree built from the arguments, each falsy one replaced by the
    default of the client. *)
Lemma set_bucket_cors_sent self b o m h v w req :
  sent (set_bucket_cors self b o m h v w).1 = sent w ++ [req] ->
  exists t,
    xml.tostring
      (cors_config_elem self (list_or o [default_origin self])
         (list_or m [default_method self])
         (list_or h [default_response_header self])
         (if truthy v then v else default_max_age_sec self)) = inr t
    /\ req_body req = Some (XML_DECLARATION +:+ t)
    /\ req_method req = "PUT"
    /\ req_url req = "http://" +:+ b +:+ "." +:+ _base_url self +:+ "/?cors".
Proof.
  unfold set_bucket_cors. cbv zeta.
  destruct (_get_cors_body self (list_or o [default_origin self])
              (list_or m [default_method self])
              (list_or h [default_response_header self])
              (if truthy v then v else default_max_age_sec self))
    as [e|body] eqn:E.
  - erewrite bind_raise by reflexivity.
    intros H. by apply sent_fresh in H.
  - erewrite bind_ret by reflexivity.
    rewrite api_request_content. cbn [fst]. rewrite sent_record.
    intros H. apply app_inv_head in H. injection H as <-.
    apply xml_tostring_inv in E as (t & Ht & ->).
    exists t. split; [done|]. split; [done|]. split; [done|].
    rewrite built_request_url. unfold bucket_host.
    by rewrite !string_app_assoc.
Qed.

Lemma list_or_texts d (l : option (list string)) :
  strip d = d ->
  map (entry_text d) (list_or l [d]) = entry_texts d l.
Proof.
  intros Hd.
  assert (entry_text d d = PyStr d) as Hdd.
  { unfold entry_text. rewrite Hd. by case_decide. }
  destruct l as [[|x l]|]; simpl; by rewrite ?Hdd.
Qed.

Lemma init_stripped_defaults http pid version :
  stripped_defaults (gcs_xml.__init__ http pid version).
Proof. done. Qed.

(** ** No second declaration *)

Section Markup.

Implicit Types (s t : string) (c : ascii).

Lemma ends_with_app c s t :
  ends_with c (s +:+ t)
  = match t with EmptyString => ends_with c s | _ => ends_with c t end.
Proof.
  induction s as [|a s IH]; [by destruct t|].
  rewrite app_cons. simpl. rewrite IH.
  destruct s as [|b s]; [|by rewrite app_cons].
  rewrite app_empty_l. by destruct t.
Qed.

Lemma has_pi_app s t :
  has_pi s = false -> ends_with "<" s = false -> has_pi t = false ->
  has_pi (s +:+ t) = false.
Proof.
  induction s as [|a s IH]; intros Hs He Ht; [done|].
  rewrite app_cons. simpl in *.
  apply orb_false_iff in Hs as [Ha Hs].
  destruct s as [|b s].
  - rewrite app_empty_l, Ht, He. reflexivity.
  - rewrite IH by done. rewrite app_cons. simpl starts_with.
    simpl in Ha. by rewrite Ha.
Qed.

Lemma closed_app s t : closed s -> closed t -> closed (s +:+ t).
Proof.
  intros [Hs Es] [Ht Et]. split; [by apply has_pi_app|].
  rewrite ends_with_app. by destruct t.
Qed.

Lemma closed_empty : closed EmptyString.
Proof. done. Qed.

Lemma no_lt_app s t : no_lt (s +:+ t) = no_lt s && no_lt t.
Proof.
  induction s as [|a s IH]; [done|]. rewrite app_cons. simpl.
  by rewrite IH, andb_assoc.
Qed.

Lemma no_lt_closed s : no_lt s = true -> closed s.
Proof.
  induction s as [|a s IH]; [done|]. simpl.
  intros [Ha Hs]%andb_true_iff. destruct (IH Hs) as [Hp He].
  apply negb_true_iff in Ha. split.
  - simpl. by rewrite Ha, Hp.
  - simpl. destruct s; [done|exact He].
Qed.

(** A less-than sign, then text without one that does not begin with a
    question mark. *)
Lemma closed_markup s :
  no_lt s = true -> starts_with "?" s = false -> s <> EmptyString ->
  closed (String "<" s).
Proof.
  intros Hs Hq Hne. destruct (no_lt_closed s Hs) as [Hp He]. split.
  - simpl. by rewrite Hq, Hp.
  - simpl. by destruct s.
Qed.

Lemma starts_with_app c s t :
  starts_with c (s +:+ t)
  = match s with EmptyString => starts_with c t | _ => starts_with c s end.
Proof. by destruct s. Qed.

Lemma closed_open_tag tag rest :
  good_tag tag = true -> no_lt rest = true -> starts_with "?" rest = false ->
  rest <> EmptyString ->
  closed ("<" +:+ tag +:+ rest).
Proof.
  intros [Ht Hq]%andb_true_iff Hr Hrq Hne. apply negb_true_iff in Hq.
  rewrite app_cons, app_empty_l. apply closed_markup.
  - by rewrite no_lt_app, Ht, Hr.
  - rewrite starts_with_app. by destruct tag.
  - destruct tag; [done|by rewrite app_cons].
Qed.

Lemma closed_close_tag tag :
  good_tag tag = true -> closed ("</" +:+ tag +:+ ">").
Proof.
  intros [Ht Hq]%andb_true_iff.
  rewrite !app_cons, app_empty_l. apply closed_markup; [|done|done].
  simpl. by rewrite no_lt_app, Ht.
Qed.

Lemma no_lt_replace_lt s : no_lt (xml.replace "<" "&lt;" s) = true.
Proof.
  induction s as [|a s IH]; [done|]. simpl.
  destruct (Ascii.eqb a "<") eqn:E.
  - by rewrite no_lt_app, IH.
  - simpl. by rewrite E, IH.
Qed.

Lemma no_lt_replace_gt s :
  no_lt s = true -> no_lt (xml.replace ">" "&gt;" s) = true.
Proof.
  induction s as [|a s IH]; [done|]. simpl.
  intros [Ha Hs]%andb_true_iff.
  destruct (Ascii.eqb a ">").
  - by rewrite no_lt_app, IH.
  - simpl. by rewrite Ha, IH.
Qed.

Lemma escape_closed text t : xml._escape_cdata text = inr t -> closed t.
Proof.
  destruct text as [| | | | |s]; try discriminate. simpl.
  destruct (xml.is_ascii _); [|discriminate]. intros [= <-].
  apply no_lt_closed, no_lt_replace_gt, no_lt_replace_lt.
Qed.

(** Induction on a tree, with the property for the children at hand. *)
Lemma Element_children_ind (P : xml.Element -> Prop) :
  (forall tag text children,
     Forall P children -> P (xml.mkElement tag text children)) ->
  forall e, P e.
Proof.
  intros H. fix IH 1. intros [tag text children]. apply H.
  induction children as [|c cs IHcs]; constructor; [apply IH|exact IHcs].
Qed.

(** The serialization of a tree whose tags are names holds no opening of
    a declaration. *)
Lemma serialize_closed e t :
  good_tree e = true -> xml._serialize_xml e = inr t -> closed t.
Proof.
  revert t. induction e as [tag text children IH] using Element_children_ind.
  intros t [Htag Hch]%andb_true_iff. simpl.
  destruct (truthy text || negb (Nat.eqb (length children) 0)).
  - destruct (if truthy text then xml._escape_cdata text else inr EmptyString)
      as [err|txt] eqn:Etxt; [discriminate|].
    assert (closed txt) as Htxt.
    { destruct (truthy text); [by apply (escape_closed text)|].
      injection Etxt as <-. apply closed_empty. }
    match goal with |- context [match ?m with inl _ => _ | inr _ => _ end] =>
      destruct m as [err|cs] eqn:Ecs end; [discriminate|].
    assert (closed cs) as Hcs.
    { clear Etxt Htxt. revert cs Ecs.
      induction children as [|c l IHl]; intros cs Ecs.
      - injection Ecs as <-. apply closed_empty.
      - simpl in Hch. apply andb_true_iff in Hch as [Hc Hl].
        apply Forall_cons in IH as [IHc IH].
        destruct (xml._serialize_xml c) as [err|sc] eqn:Ec; [discriminate|].
        match type of Ecs with context [match ?m with inl _ => _ | inr _ => _ end] =>
          destruct m as [err|sl] eqn:El end; [discriminate|].
        injection Ecs as <-. apply closed_app; [by apply IHc|by apply IHl]. }
    intros [= <-].
    replace ("<" +:+ tag +:+ ">" +:+ txt +:+ cs +:+ "</" +:+ tag +:+ ">")
      with (("<" +:+ tag +:+ ">") +:+ txt +:+ cs +:+ ("</" +:+ tag +:+ ">"))
      by (by rewrite !string_app_assoc).
    apply closed_app; [by apply closed_open_tag|].
    apply closed_app; [done|]. apply closed_app; [done|].
    by apply closed_close_tag.
  - intros [= <-]. by apply closed_open_tag.
Qed.

Lemma good_cors_entries t d l e :
  good_tag t = true -> good_tree e = true ->
  good_tree (fold_left (cors_entry t d) l e) = true.
Proof.
  intros Ht. revert e. induction l as [|x l IH]; intros e He; [done|].
  cbn [fold_left]. apply IH. destruct e as [te xe ce].
  unfold cors_entry, xml.append, xml.set_text, xml.new.
  cbn [xml.tag xml.text xml.children]. simpl in *.
  apply andb_true_iff in He as [H1 H2]. rewrite H1. simpl.
  rewrite forallb_app, H2. simpl. by rewrite Ht.
Qed.

Lemma good_cors_config_elem self os ms hs a :
  good_tree (cors_config_elem self os ms hs a) = true.
Proof.
  unfold cors_config_elem. cbv zeta.
  pose proof (good_cors_entries "Origin" (default_origin self) os
                (xml.new "Origins") eq_refl eq_refl) as Ho.
  pose proof (good_cors_entries "Method" (default_method self) ms
                (xml.new "Methods") eq_refl eq_refl) as Hm.
  pose proof (good_cors_entries "ResponseHeader" (default_response_header self) hs
                (xml.new "ResponseHeaders") eq_refl eq_refl) as Hh.
  simpl. by rewrite Ho, Hm, Hh.
Qed.

(** In a declaration followed by closed text, the declaration stands at
    the start and nowhere else. *)
Lemma has_pi_inside s t : has_pi (s +:+ XML_DECLARATION +:+ t) = true.
Proof.
  induction s as [|a s IH]; [done|]. rewrite app_cons. simpl.
  rewrite IH. apply orb_true_r.
Qed.

Lemma declaration_once t pre post :
  closed t ->
  XML_DECLARATION +:+ t = pre +:+ XML_DECLARATION +:+ post ->
  pre = EmptyString.
Proof.
  intros Ht H. destruct pre as [|a pre]; [done|]. exfalso.
  rewrite app_cons in H. unfold XML_DECLARATION at 1 in H.
  rewrite app_cons in H. injection H as _ H.
  assert (has_pi (pre +:+ XML_DECLARATION +:+ post) = false) as Hp;
    [|by rewrite has_pi_inside in Hp].
  rewrite <- H. by apply has_pi_app; [..|apply Ht].
Qed.

End Markup.

(** C3. A body that [_get_location_constraint_body] or [_get_cors_body]
    returns is the XML declaration (version 1.0, encoding UTF-8, in
    double quotes) followed at once by what [xml.tostring] makes of the
    root element, [CreateBucketConfiguration] or [CorsConfig]; that text
    begins with the opening of the root element, so that nothing stands
    between the declaration and the root; and the declaration is the
    only one: it occurs at the start of the body and nowhere else. *)
Theorem xml_body_is_declaration_then_tree self :
  (forall lc body,
     _get_location_constraint_body self lc = inr body ->
     exists root t,
       xml.tag root = "CreateBucketConfiguration"
       /\ xml.tostring root = inr t
       /\ body = XML_DECLARATION +:+ t
       /\ String.prefix "<CreateBucketConfiguration" t = true
       /\ forall pre post, body = pre +:+ XML_DECLARATION +:+ post -> pre = EmptyString)
  /\ (forall os ms hs a body,
        _get_cors_body self os ms hs a = inr body ->
        exists root t,
          xml.tag root = "CorsConfig"
          /\ xml.tostring root = inr t
          /\ body = XML_DECLARATION +:+ t
          /\ String.prefix "<CorsConfig" t = true
          /\ forall pre post,
               body = pre +:+ XML_DECLARATION +:+ post -> pre = EmptyString)
  /\ XML_DECLARATION
     = "<?xml version=" +:+ dq +:+ "1.0" +:+ dq +:+ " encoding=" +:+ dq
         +:+ "UTF-8" +:+ dq +:+ "?>".
Proof.
  split; [|split; [|reflexivity]].
  - intros lc body H. apply xml_tostring_inv in H as (t & Ht & ->).
    eexists _, t. split; [|split; [exact Ht|split; [done|]]]; [done|].
    split.
    + apply serialize_prefix in Ht as [rest ->].
      apply (prefix_app "<CreateBucketConfiguration").
    + intros pre post. apply declaration_once.
      by apply serialize_closed in Ht.
  - intros os ms hs a body H. apply xml_tostring_inv in H as (t & Ht & ->).
    eexists _, t. split; [|split; [exact Ht|split; [done|]]]; [done|].
    split.
    + apply serialize_prefix in Ht as [rest ->]. apply (prefix_app "<CorsConfig").
    + intros pre post. apply declaration_once.
      apply serialize_closed in Ht; [done|apply good_cors_config_elem].
Qed.

Lemma xml_body_is_declaration_then_tree_witness :
  (exists root t,
     xml.tag root = "CreateBucketConfiguration"
     /\ xml.tostring root = inr t
     /\ XML_DECLARATION +:+
          "<CreateBucketConfiguration><LocationConstraint>EU</LocationConstraint></CreateBucketConfiguration>"
        = XML_DECLARATION +:+ t
     /\ String.prefix "<CreateBucketConfiguration" t = true
     /\ forall pre post,
          XML_DECLARATION +:+
            "<CreateBucketConfiguration><LocationConstraint>EU</LocationConstraint></CreateBucketConfiguration>"
          = pre +:+ XML_DECLARATION +:+ post -> pre = EmptyString)
  /\ (exists root t,
        xml.tag root = "CorsConfig"
        /\ xml.tostring root = inr t
        /\ demo.cors_body = XML_DECLARATION +:+ t
        /\ String.prefix "<CorsConfig" t = true
        /\ forall pre post,
             demo.cors_body = pre +:+ XML_DECLARATION +:+ post -> pre = EmptyString).
Proof.
  split.
  - exact (proj1 (xml_body_is_declaration_then_tree demo.client) (PyStr "EU") _ eq_refl).
  - exact (proj1 (proj2 (xml_body_is_declaration_then_tree demo.client))
             ["http://a.example "; "   "; "http://b.example"] ["GET"] ["gcs-demo"]
             (PyInt 1800) _ eq_refl).
Defined.

(** C4. In the body that [set_bucket_cors] sends, for a client whose
    defaults carry no surrounding whitespace (those of [__init__] do):
    the [Origin] elements under [Cors/Origins] hold the default origin
    alone when the origins are absent or empty, and otherwise one text
    per origin, in order, which is the origin without the whitespace
    around it, or the default origin when nothing is left of it; and
    likewise the [Method] elements with the default method and the
    [ResponseHeader] elements with the default response header. *)
Theorem cors_lists_defaulting self b o m h v w req :
  stripped_defaults self ->
  sent (set_bucket_cors self b o m h v w).1 = sent w ++ [req] ->
  exists root t,
    req_body req = Some (XML_DECLARATION +:+ t)
    /\ xml.tostring root = inr t
    /\ map xml.text (xml.findall_path [root] ["Cors"; "Origins"; "Origin"])
       = entry_texts (default_origin self) o
    /\ map xml.text (xml.findall_path [root] ["Cors"; "Methods"; "Method"])
       = entry_texts (default_method self) m
    /\ map xml.text (xml.findall_path [root] ["Cors"; "ResponseHeaders"; "ResponseHeader"])
       = entry_texts (default_response_header self) h.
Proof.
  intros (Ho & Hm & Hh) H.
  apply set_bucket_cors_sent in H as (t & Ht & Hb & _).
  eexists _, t. split; [exact Hb|]. split; [exact Ht|].
  destruct (cors_config_elem_texts self (list_or o [default_origin self])
              (list_or m [default_method self])
              (list_or h [default_response_header self])
              (if truthy v then v else default_max_age_sec self))
    as (_ & -> & -> & -> & _).
  by rewrite !list_or_texts.
Qed.

Lemma cors_lists_defaulting_witness :
  exists root t,
    req_body (demo.cors_request demo.cors_body) = Some (XML_DECLARATION +:+ t)
    /\ xml.tostring root = inr t
    /\ map xml.text (xml.findall_path [root] ["Cors"; "Origins"; "Origin"])
       = [PyStr "http://a.example"; PyStr "*"; PyStr "http://b.example"]
    /\ map xml.text (xml.findall_path [root] ["Cors"; "Methods"; "Method"])
       = [PyStr "GET"]
    /\ map xml.text (xml.findall_path [root] ["Cors"; "ResponseHeaders"; "ResponseHeader"])
       = [PyStr "gcs-demo"].
Proof.
  exact (cors_lists_defaulting demo.client "my-bucket"
           (Some ["http://a.example "; "   "; "http://b.example"]) None (Some []) PyNone
           demo.w0 (demo.cors_request demo.cors_body)
           (conj eq_refl (conj eq_refl eq_refl)) eq_refl).
Defined.

(** ** The max age *)

(** Read by value, a whole number that comes as a [float] would be
    written as an integer: [_get_cors_body] writes 1800.0 with six
    decimals, and [set_bucket_cors] sends it so. *)
Lemma max_age_sec_whole_float_counterexample :
  whole_number (PyFloat float_1800) = Some 1800
  /\ text_by_value (PyFloat float_1800) = PyStr "1800"
  /\ map xml.text
       (xml.findall_path
          [cors_config_elem demo.client ["*"] ["GET"] ["gcs-demo"] (PyFloat float_1800)]
          ["Cors"; "MaxAgeSec"])
     = [PyStr "1800.000000"]
  /\ (set_bucket_cors demo.client "my-bucket" None None None (PyFloat float_1800)
        demo.w0).1
     = record demo.w0 (demo.cors_request demo.cors_body_float)
  /\ ~ (forall self os ms hs v,
          map xml.text
            (xml.findall_path [cors_config_elem self os ms hs v] ["Cors"; "MaxAgeSec"])
          = [text_by_value v]).
Proof.
  split; [reflexivity|]. split; [reflexivity|]. split; [reflexivity|].
  split; [reflexivity|].
  intros H.
  specialize (H demo.client ["*"] ["GET"] ["gcs-demo"] (PyFloat float_1800)).
  vm_compute in H. discriminate.
Qed.

(** C5, amended. The text of the [MaxAgeSec] element goes by the type of
    the max age: an [int] is written as an integer (['%d']), a [float]
    in fixed notation with six decimals (['%f']), whole or not, and a
    value of any other type is the text as it is. *)
Theorem max_age_sec_rendered_by_type self os ms hs v :
  map xml.text
    (xml.findall_path [cors_config_elem self os ms hs v] ["Cors"; "MaxAgeSec"])
  = [text_by_type v]
  /\ text_by_type v =
       match v with
       | PyInt z => PyStr (fmt_d z)
       | PyFloat f => PyStr (fmt_f f)
       | PyNone | PyBool _ | PyLong _ | PyStr _ => v
       end.
Proof.
  split; [|by destruct v].
  destruct (cors_config_elem_texts self os ms hs v) as (_ & _ & _ & _ & ->).
  by destruct v.
Qed.

Section Formats.

Lemma to_int_proper z :
  Z.to_int z <> Decimal.Pos Decimal.Nil /\ Z.to_int z <> Decimal.Neg Decimal.Nil.
Proof.
  destruct z as [|p|p]; simpl; split; try discriminate;
    intros [= H]; by apply DecimalPos.Unsigned.to_uint_nonnil in H.
Qed.

(** ['%d'] writes a number that reads back as the same number. *)
Lemma fmt_d_reads_back z :
  NilZero.int_of_string (fmt_d z) = Some (Z.to_int z).
Proof. unfold fmt_d. destruct (to_int_proper z). by apply NilZero.isi. Qed.

Lemma fmt_d_inj z z' : fmt_d z = fmt_d z' -> z = z'.
Proof.
  intros H. apply DecimalZ.to_int_inj.
  pose proof (fmt_d_reads_back z) as Hz. rewrite H, fmt_d_reads_back in Hz.
  by injection Hz.
Qed.

Lemma length_zeros n : String.length (zeros n) = n.
Proof. induction n as [|n IH]; simpl; by rewrite ?IH. Qed.

Lemma length_zero_pad w s : (w <= String.length (zero_pad w s))%nat.
Proof. unfold zero_pad. rewrite string_length_app, length_zeros. lia. Qed.

Lemma length_fmt_fixed6 neg num den : (2 <= String.length (fmt_fixed6 neg num den))%nat.
Proof.
  unfold fmt_fixed6. cbv zeta. rewrite !string_length_app.
  pose proof (length_zero_pad 6 (fmt_d (round_half_even (num * 10 ^ 6) den mod 10 ^ 6))).
  lia.
Qed.

(** ['%f'] never writes a single character. *)
Lemma length_fmt_f f : (2 <= String.length (fmt_f f))%nat.
Proof.
  destruct f as [s|s| |s m e]; simpl.
  - apply length_fmt_fixed6.
  - destruct s; simpl; lia.
  - lia.
  - destruct (0 <=? e); apply length_fmt_fixed6.
Qed.

End Formats.

Lemma max_age_sec_text_not_zero d v :
  d = PyInt 1800 -> (forall s, v <> PyStr s) ->
  max_age_sec_text (if truthy v then v else d) <> PyStr "0".
Proof.
  intros -> Hv. destruct v as [|[]|z|z|f|s]; simpl; try discriminate.
  - destruct (Z.eqb_spec z 0) as [->|Hz]; simpl; [discriminate|].
    intros [= H]. by apply (fmt_d_inj z 0) in H.
  - by destruct (z =? 0).
  - assert (PyStr (fmt_f f) <> PyStr "0") as Hf.
    { intros [= H]. pose proof (length_fmt_f f) as Hl. rewrite H in Hl.
      simpl in Hl. lia. }
    destruct f; simpl; try done.
  - by destruct (Hv s).
Qed.

(** C10. A max age that is falsy (the number zero of any numeric type,
    the empty string, [None], [False]) is replaced by the default of the
    client, so that the call does what it does for that default; the
    default of a client is the [int] 1800, and the [MaxAgeSec] element
    then reads 1800. Whatever max age is passed that is not a string,
    the [MaxAgeSec] element sent never reads 0. *)
Theorem falsy_max_age_sec_defaulted self b o m h v w :
  (truthy v = false ->
     set_bucket_cors self b o m h v w
     = set_bucket_cors self b o m h (default_max_age_sec self) w)
  /\ (forall http pid version,
        default_max_age_sec (gcs_xml.__init__ http pid version) = PyInt 1800)
  /\ (default_max_age_sec self = PyInt 1800 ->
      forall req,
        sent (set_bucket_cors self b o m h v w).1 = sent w ++ [req] ->
        exists root t,
          req_body req = Some (XML_DECLARATION +:+ t)
          /\ xml.tostring root = inr t
          /\ (truthy v = false ->
              map xml.text (xml.findall_path [root] ["Cors"; "MaxAgeSec"])
              = [PyStr "1800"])
          /\ ((forall s, v <> PyStr s) ->
              map xml.text (xml.findall_path [root] ["Cors"; "MaxAgeSec"])
              <> [PyStr "0"])).
Proof.
  split; [|split; [done|]].
  - intros Hv. unfold set_bucket_cors. rewrite Hv.
    by destruct (truthy (default_max_age_sec self)).
  - intros Hd req H.
    apply set_bucket_cors_sent in H as (t & Ht & Hb & _).
    eexists _, t. split; [exact Hb|]. split; [exact Ht|].
    destruct (cors_config_elem_texts self (list_or o [default_origin self])
                (list_or m [default_method self])
                (list_or h [default_response_header self])
                (if truthy v then v else default_max_age_sec self))
      as (_ & _ & _ & _ & ->).
    split.
    + intros ->. by rewrite Hd.
    + intros Hv [= H]. by apply (max_age_sec_text_not_zero _ v Hd Hv).
Qed.

Lemma falsy_max_age_sec_defaulted_witness :
  set_bucket_cors demo.client "my-bucket" None None None (PyInt 0) demo.w0
  = set_bucket_cors demo.client "my-bucket" None None None (PyInt 1800) demo.w0
  /\ exists root t,
       req_body (demo.cors_request demo.cors_body_default)
       = Some (XML_DECLARATION +:+ t)
       /\ xml.tostring root = inr t
       /\ (truthy (PyInt 0) = false ->
           map xml.text (xml.findall_path [root] ["Cors"; "MaxAgeSec"])
           = [PyStr "1800"])
       /\ ((forall s, PyInt 0 <> PyStr s) ->
           map xml.text (xml.findall_path [root] ["Cors"; "MaxAgeSec"])
           <> [PyStr "0"]).
Proof.
  split.
  - apply (proj1 (falsy_max_age_sec_defaulted demo.client "my-bucket" None None None
             (PyInt 0) demo.w0)).
    reflexivity.
  - apply (proj2 (proj2 (falsy_max_age_sec_defaulted demo.client "my-bucket" None None
             None (PyInt 0) demo.w0)) eq_refl
             (demo.cors_request demo.cors_body_default)).
    reflexivity.
Defined.

(** ** Worked examples *)

(** A name that ends in a newline breaks two rules at once and still
    passes the four checks, since [$] also matches before a final
    newline: the request goes out. *)
Example insert_bucket_final_newline :
  violated demo.name_with_newline = [AllowedCharacters; EndCharacter]
  /\ insert_bucket demo.client demo.name_with_newline None None demo.w0
     = (record demo.w0
          (built_request demo.client
             (demo.name_with_newline +:+ ".storage.googleapis.com")
             (Some "PUT") None None),
        inr "OK").
Proof. split; reflexivity. Qed.

(** A max age given as the string [0] is truthy and is sent as it is. *)
Example set_bucket_cors_string_zero :
  set_bucket_cors demo.client "my-bucket" None None None (PyStr "0") demo.w0
  = (record demo.w0 (demo.cors_request demo.cors_body_zero), inr "OK").
Proof. reflexivity. Qed.

(** A max age of type [long] is no text for the serializer: the call
    raises before anything is sent. *)
Example set_bucket_cors_long :
  set_bucket_cors demo.client "my-bucket" None None None (PyLong 5) demo.w0
  = (demo.w0, inl TypeError).
Proof. reflexivity. Qed.

(** The text of an entry is escaped on its way into the body. *)
Example cors_body_escaped :
  _get_cors_body demo.client ["a&b<c>"] [] [] (PyStr "1 < 2")
  = inr (XML_DECLARATION +:+
         "<CorsConfig><Cors><Origins><Origin>a&amp;b&lt;c&gt;</Origin></Origins><Methods /><ResponseHeaders /><MaxAgeSec>1 &lt; 2</MaxAgeSec></Cors></CorsConfig>").
Proof. reflexivity. Qed.

Example fmt_f_half : fmt_f (S754_finite true 4503599627370496 (-53)) = "-0.500000".
Proof. reflexivity. Qed.

Example fmt_f_1800 : fmt_f float_1800 = "1800.000000".
Proof. reflexivity. Qed.

Example fmt_d_negative : fmt_d (-15) = "-15".
Proof. reflexivity. Qed.

Example insert_object_guesses_type :
  req_headers
    (built_request demo.client "my-bucket.storage.googleapis.com/notes.txt"
       (Some "PUT") (Some {[ "Content-Type" := "text/plain" ]}) (Some "hello"))
    !! "Content-Type" = Some "text/plain"
  /\ insert_object demo.client "my-bucket" (Some "notes.txt") None None None None demo.w0
     = (record demo.w0
          (built_request demo.client "my-bucket.storage.googleapis.com/notes.txt"
             (Some "PUT") (Some {[ "Content-Type" := "text/plain" ]}) (Some "hello")),
        inr "OK").
Proof. split; reflexivity. Qed.

(** * Further properties of the client *)

(** ** Which error a bad bucket name gets *)

Section NamePriority.

Implicit Types (s p : string) (c : ascii) (b : bool).

Lemma first_violated_inv name r :
  first_violated name = Some r ->
  holds r name = false
  /\ match r with
     | AllowedCharacters => True
     | StartCharacter => holds AllowedCharacters name = true
     | EndCharacter =>
         holds AllowedCharacters name = true /\ holds StartCharacter name = true
     | Length =>
         holds AllowedCharacters name = true /\ holds StartCharacter name = true
         /\ holds EndCharacter name = true
     end.
Proof.
  unfold first_violated, violated, rules. cbn [List.filter].
  destruct (holds AllowedCharacters name) eqn:E1, (holds StartCharacter name) eqn:E2,
    (holds EndCharacter name) eqn:E3, (holds Length name) eqn:E4;
    cbn [negb head]; intros [= <-]; auto.
Qed.

(** The checks are made in order, and the first that fails raises. *)
Lemma insert_bucket_raises_first self name acl lc w r :
  name <> EmptyString ->
  last_char name <> Some "010"%char ->
  first_violated name = Some r ->
  insert_bucket self name acl lc w = (w, inl (ValueError (message r name))).
Proof.
  intros Hne Hnl H. apply first_violated_inv in H as [Hr H].
  unfold insert_bucket. destruct r.
  - by rewrite only_chars_rejects.
  - rewrite only_chars_accepts by done.
    by rewrite starts_alnum_spec, Hr.
  - destruct H as [Ha Hs]. rewrite only_chars_accepts by done.
    rewrite starts_alnum_spec, Hs. by rewrite ends_alnum_spec, Hr.
  - destruct H as (Ha & Hs & He). rewrite only_chars_accepts by done.
    rewrite starts_alnum_spec, Hs. rewrite ends_alnum_spec, He by done.
    by rewrite length_rule, Hr.
Qed.

(** X1. For a name that is not empty and does not end in a newline,
    [insert_bucket] raises the [ValueError] of the first rule that the
    name breaks, in the order allowed characters, start, end, length,
    whatever other rules it breaks too, and sends nothing; the empty
    name gets the error of the allowed characters. *)
Theorem insert_bucket_error_priority self name acl lc w r :
  first_violated name = Some r ->
  (name <> EmptyString -> last_char name <> Some "010"%char ->
   insert_bucket self name acl lc w = (w, inl (ValueError (message r name))))
  /\ insert_bucket self EmptyString acl lc w
     = (w, inl (ValueError (message AllowedCharacters EmptyString))).
Proof.
  intros H. split; [|reflexivity].
  intros Hne Hnl. by apply insert_bucket_raises_first.
Qed.

Lemma insert_bucket_error_priority_witness :
  insert_bucket demo.client "-a b-" None None demo.w0
  = (demo.w0,
     inl (ValueError "Bucket names can only contain letters, numbers, -, _, or ."))
  /\ insert_bucket demo.client "-a" None None demo.w0
     = (demo.w0, inl (ValueError "Bucket names can only start with letters or numbers."))
  /\ insert_bucket demo.client "a-" None None demo.w0
     = (demo.w0,
        inl (ValueError "Bucket names can only end with letters or numbers. a-")).
Proof.
  split; [|split].
  - apply (proj1 (insert_bucket_error_priority demo.client "-a b-" None None demo.w0
             AllowedCharacters eq_refl)); discriminate.
  - apply (proj1 (insert_bucket_error_priority demo.client "-a" None None demo.w0
             StartCharacter eq_refl)); discriminate.
  - apply (proj1 (insert_bucket_error_priority demo.client "a-" None None demo.w0
             EndCharacter eq_refl)); discriminate.
Defined.

(** *** A name with a final newline *)

Lemma app_newline_cons p : exists c s, p +:+ newline = String c s.
Proof. destruct p as [|c p]; [by exists "010"%char, EmptyString|by exists c, (p +:+ newline)]. Qed.

Lemma at_eol_cons_app c p : re.at_eol (String c (p +:+ newline)) = false.
Proof. by destruct p. Qed.

Lemma star_before_newline cls (spec : ascii -> bool) b p :
  (forall c, cls c = spec c) -> cls "010"%char = false ->
  re.star cls (re.run [re.Eol]) b (p +:+ newline) = all_chars spec p.
Proof.
  intros Hcls Hnl. revert b. induction p as [|c p IH]; intros b.
  - simpl. by rewrite Hnl.
  - rewrite app_cons. cbn [re.star re.run all_chars].
    rewrite at_eol_cons_app, IH, Hcls. cbn. by rewrite orb_false_r.
Qed.

Lemma only_chars_newline p :
  re.match_ only_chars (p +:+ newline)
  = negb (String.eqb p EmptyString) && holds AllowedCharacters p.
Proof.
  unfold re.match_, only_chars. destruct p as [|c p]; [reflexivity|].
  rewrite app_cons. cbn [re.run holds all_chars andb String.eqb negb].
  by rewrite (star_before_newline _ is_allowed), word_dash_dot_is_allowed
    by (apply word_dash_dot_is_allowed || reflexivity).
Qed.

Lemma all_alphanumeric_last p :
  p <> EmptyString -> all_chars is_alphanumeric p = true ->
  match last_char p with Some c => is_alphanumeric c | None => false end = true.
Proof.
  induction p as [|c p IH]; [done|]. intros _ [Hc Hp]%andb_true_iff.
  rewrite last_char_cons. destruct p as [|a p]; [done|]. by apply IH.
Qed.

Lemma ends_alnum_newline b p :
  all_chars is_allowed p = true ->
  re.star re.dot (re.run [re.Plus re.alnum; re.Eol]) b (p +:+ newline)
  = holds EndCharacter p.
Proof.
  revert b. induction p as [|c p IH]; intros b Ha; [reflexivity|].
  simpl in Ha. apply andb_true_iff in Ha as [Hc Ha].
  rewrite app_cons. cbn [re.star]. rewrite (allowed_dot c Hc), IH by done.
  cbn [re.run andb].
  rewrite (star_before_newline _ is_alphanumeric)
    by (apply alnum_is_alphanumeric || reflexivity).
  rewrite alnum_is_alphanumeric. unfold holds. rewrite last_char_cons.
  destruct p as [|a p].
  - cbn. by rewrite andb_true_r.
  - destruct (is_alphanumeric c && all_chars is_alphanumeric (String a p)) eqn:E;
      [|by rewrite orb_false_r].
    apply andb_true_iff in E as [_ E].
    by rewrite all_alphanumeric_last.
Qed.

Lemma starts_alnum_newline p :
  p <> EmptyString ->
  re.match_ starts_alnum (p +:+ newline) = holds StartCharacter p.
Proof. intros Hp. rewrite starts_alnum_spec. by destruct p. Qed.

Lemma length_newline p :
  (len (p +:+ newline) <? 3) || (63 <? len (p +:+ newline))
  = negb ((2 <=? String.length p)%nat && (String.length p <=? 62)%nat).
Proof.
  unfold len. rewrite string_length_app. simpl String.length at 2 4.
  destruct (Z.ltb_spec (Z.of_nat (String.length p + 1)) 3),
    (Z.ltb_spec 63 (Z.of_nat (String.length p + 1))),
    (Nat.leb_spec 2 (String.length p)),
    (Nat.leb_spec (String.length p) 62); simpl; try reflexivity; lia.
Qed.

Lemma chars_rule_newline p : holds AllowedCharacters (p +:+ newline) = false.
Proof.
  induction p as [|c p IH]; [reflexivity|]. rewrite app_cons. simpl in *.
  rewrite IH. apply andb_false_r.
Qed.

Lemma end_rule_newline p : holds EndCharacter (p +:+ newline) = false.
Proof.
  unfold holds.
  assert (last_char (p +:+ newline) = Some "010"%char) as ->; [|reflexivity].
  induction p as [|c p IH]; [reflexivity|]. rewrite app_cons, last_char_cons.
  destruct (app_newline_cons p) as (a & s & E). by rewrite <- IH, E.
Qed.

(** X2. A name that is [p] and a final newline breaks the rules of the
    allowed characters and of the end, and yet [insert_bucket] sends the
    request for it, newline and all, exactly when [p] keeps the rules of
    the characters, the start and the end and has 2 to 62 characters:
    [$] also matches before a final newline. Otherwise the call raises a
    [ValueError] and sends nothing. *)
Theorem insert_bucket_final_newline_accepted self p acl lc w :
  (passes_before_newline p = true ->
     exists req,
       sent (insert_bucket self (p +:+ newline) acl lc w).1 = sent w ++ [req]
       /\ req_url req = "http://" +:+ p +:+ newline +:+ "." +:+ _base_url self
       /\ holds AllowedCharacters (p +:+ newline) = false
       /\ holds EndCharacter (p +:+ newline) = false)
  /\ (passes_before_newline p = false ->
      exists msg,
        insert_bucket self (p +:+ newline) acl lc w = (w, inl (ValueError msg))).
Proof.
  unfold passes_before_newline. split.
  - rewrite !andb_true_iff. intros [[[[Ha Hs] He] H2] H62].
    assert (p <> EmptyString) as Hp by (by intros ->).
    rewrite insert_bucket_passed.
    + cbv zeta. eexists. split; [reflexivity|]. split.
      { rewrite built_request_url. unfold bucket_host.
        by rewrite !string_app_assoc. }
      split; [apply chars_rule_newline|apply end_rule_newline].
    + rewrite only_chars_newline, Ha.
      by destruct p.
    + by rewrite starts_alnum_newline.
    + unfold re.match_, ends_alnum. cbn [re.run]. by rewrite ends_alnum_newline.
    + by rewrite length_newline, H2, H62.
  - intros H. unfold insert_bucket.
    rewrite only_chars_newline.
    destruct (String.eqb_spec p EmptyString) as [->|Hp]; [by eexists|].
    destruct (holds AllowedCharacters p) eqn:Ha; [|by eexists]. cbn [negb andb].
    rewrite starts_alnum_newline by done.
    destruct (holds StartCharacter p) eqn:Hs; [|by eexists]. cbn [negb].
    unfold re.match_ at 1, ends_alnum. cbn [re.run]. rewrite ends_alnum_newline by done.
    destruct (holds EndCharacter p) eqn:He; [|by eexists]. cbn [negb].
    rewrite length_newline. cbn [andb] in H. rewrite H. by eexists.
Qed.

Lemma insert_bucket_final_newline_accepted_witness :
  (exists req,
     sent (insert_bucket demo.client ("abc" +:+ newline) None None demo.w0).1
     = sent demo.w0 ++ [req]
     /\ req_url req = "http://" +:+ "abc" +:+ newline +:+ "." +:+ _base_url demo.client
     /\ holds AllowedCharacters ("abc" +:+ newline) = false
     /\ holds EndCharacter ("abc" +:+ newline) = false)
  /\ (exists msg,
        insert_bucket demo.client ("a" +:+ newline) None None demo.w0
        = (demo.w0, inl (ValueError msg))).
Proof.
  split.
  - exact (proj1 (insert_bucket_final_newline_accepted demo.client "abc" None None
                    demo.w0) eq_refl).
  - exact (proj2 (insert_bucket_final_newline_accepted demo.client "a" None None
                    demo.w0) eq_refl).
Defined.

End NamePriority.

(** ** Where the errors come from *)

Lemma escape_error text err :
  xml._escape_cdata text = inl err -> serialization_error err.
Proof.
  unfold serialization_error.
  destruct text as [| | | | |s]; simpl; try (intros [= <-]; by left).
  destruct (xml.is_ascii _); [discriminate|]. intros [= <-]. by right.
Qed.

Lemma serialize_error e err :
  xml._serialize_xml e = inl err -> serialization_error err.
Proof.
  revert err. induction e as [tag text children IH] using Element_children_ind.
  intros err. simpl.
  destruct (truthy text || negb (Nat.eqb (length children) 0)); [|discriminate].
  destruct (if truthy text then xml._escape_cdata text else inr EmptyString)
    as [e0|txt] eqn:Etxt.
  { intros [= <-]. destruct (truthy text); [by apply (escape_error text)|discriminate]. }
  match goal with |- context [match ?m with inl _ => _ | inr _ => _ end] =>
    destruct m as [e1|cs] eqn:Ecs end; [|discriminate].
  intros [= <-]. clear Etxt. revert e1 Ecs.
  induction children as [|c l IHl]; intros e1 Ecs; [discriminate|].
  apply Forall_cons in IH as [IHc IH].
  destruct (xml._serialize_xml c) as [ec|sc] eqn:Ec.
  { injection Ecs as <-. by apply IHc. }
  match type of Ecs with context [match ?m with inl _ => _ | inr _ => _ end] =>
    destruct m as [el|sl] eqn:El end; [|discriminate].
  injection Ecs as <-. by apply IHl.
Qed.

Lemma xml_tostring_error root err :
  _xml_tostring root = inl err -> serialization_error err.
Proof.
  unfold _xml_tostring, xml.tostring.
  destruct (xml._serialize_xml root) as [e|t] eqn:E; [|discriminate].
  intros [= <-]. by apply (serialize_error root).
Qed.

Lemma serialization_error_local e : serialization_error e -> local_error e.
Proof. by intros [-> | ->]. Qed.

Lemma after_print_id self op w : printed self op = [] -> after_print self op w = w.
Proof. intros H. unfold after_print. rewrite H, app_nil_r. by destruct w. Qed.

(** A call either stops on a local error, with the world as it was, or
    prints what it prints, hands one request to the transport and
    returns what [_api_request] reads from the answer. *)
Lemma call_outcome self op w :
  (exists e, call self op w = (w, inl e) /\ local_error e) \/
  (exists url method headers body,
     default ∅ headers !! "Content-Length" = None
     /\ call self op w =
          (record (after_print self op w) (built_request self url method headers body),
           returns op
             (interpret (auth_http self (built_request self url method headers body))))).
Proof.
  assert (Hsimple : forall (m : M string) url method headers body w1,
    m w = (record w1 (built_request self url method headers body),
           content_of (interpret (auth_http self
                                    (built_request self url method headers body)))) ->
    (forall b o, op <> GetObjectMetadata b o) ->
    w1 = after_print self op w ->
    default ∅ headers !! "Content-Length" = None ->
    call self op w = (x ← m; mret (Content x)) w ->
    exists url method headers body,
      default ∅ headers !! "Content-Length" = None
      /\ call self op w =
           (record (after_print self op w) (built_request self url method headers body),
            returns op
              (interpret (auth_http self (built_request self url method headers body))))).
  { intros m url method headers body w1 Hm Hop -> Hh Hc.
    exists url, method, headers, body. split; [done|].
    rewrite Hc, (call_content _ _ _ _ Hm). by rewrite returns_content. }
  destruct op.
  - right. eapply (Hsimple (get_buckets self));
      [apply api_request_content|done|by rewrite after_print_id|done..].
  - right. eapply (Hsimple (get_bucket self _));
      [apply api_request_content|done|by rewrite after_print_id|done..].
  - right. eapply (Hsimple (get_bucket_cors self _));
      [apply api_request_content|done|by rewrite after_print_id|done..].
  - right. eapply (Hsimple (get_bucket_location self _));
      [apply api_request_content|done|by rewrite after_print_id|done..].
  - destruct (re.match_ only_chars bucket_name) eqn:H1;
      [destruct (re.match_ starts_alnum bucket_name) eqn:H2;
       [destruct (re.match_ ends_alnum bucket_name) eqn:H3;
        [destruct ((len bucket_name <? 3) || (63 <? len bucket_name)) eqn:H4|]|]|].
    2:{ right.
        eapply (Hsimple (insert_bucket self _ _ _));
          [by apply insert_bucket_passed|done|by rewrite after_print_id| |done].
        simpl. by rewrite set_if_lookup_ne. }
    all: left; eexists; split;
      [unfold call; apply bind_raise;
       unfold insert_bucket; rewrite ?H1, ?H2, ?H3, ?H4; reflexivity|done].
  - destruct (_get_cors_body self (list_or origins [default_origin self])
                (list_or methods [default_method self])
                (list_or response_headers [default_response_header self])
                (if truthy max_age_sec then max_age_sec else default_max_age_sec self))
      as [e|body] eqn:E.
    + left. exists e. split.
      * unfold call, set_bucket_cors. cbv zeta.
        apply bind_raise, bind_raise. unfold lift. by rewrite E.
      * by apply serialization_error_local, (xml_tostring_error _ _ E).
    + right. eapply (Hsimple (set_bucket_cors self _ _ _ _ _));
        [|done|by rewrite after_print_id| |done].
      * unfold set_bucket_cors. cbv zeta.
        erewrite bind_ret by (unfold lift; by rewrite E).
        apply api_request_content.
      * done.
  - right. eapply (Hsimple (delete_bucket self _));
      [apply api_request_content|done|by rewrite after_print_id|done..].
  - right. eapply (Hsimple (get_object self _ _));
      [apply api_request_content|done|by rewrite after_print_id|done..].
  - right. eapply (Hsimple (get_object_acls self _ _));
      [apply api_request_content|done|by rewrite after_print_id|done..].
  - right.
    exists (object_url self bucket_name object_name), (Some "HEAD"), None, None.
    split; [done|]. rewrite after_print_id by done.
    unfold call, get_object_metadata, mbind, M_bind, bind.
    rewrite _api_request_run. by destruct (interpret _) as [|[]].
  - destruct file_path as [p|];
      [destruct (files w p) as [contents|] eqn:E|].
    2,3: left; eexists; split;
      [unfold call, insert_object;
       apply bind_raise, bind_raise; unfold read_file;
       rewrite ?E; reflexivity|done].
    right.
    destruct (negb (opt_truthy content_type) || negb (opt_truthy content_encoding))
      eqn:Eg.
    all: eapply (Hsimple (insert_object self _ _ _ _ _ _));
      [|done|by rewrite after_print_id| |done];
      [unfold insert_object;
       erewrite bind_ret by (unfold read_file; by rewrite E);
       cbv zeta; rewrite Eg;
       erewrite bind_ret by reflexivity;
       apply api_request_content
      |simpl; by rewrite !set_if_lookup_ne].
  - right. eapply (Hsimple (copy_object self _ _ _ _ _)); [|done| | |done].
    + unfold copy_object. cbv zeta.
      erewrite bind_ret by reflexivity. apply api_request_content.
    + reflexivity.
    + simpl. by rewrite set_if_lookup_ne.
  - right. eapply (Hsimple (delete_object self _ _));
      [apply api_request_content|done|by rewrite after_print_id|done..].
Qed.

Lemma interpret_not_local r e : interpret r = inl e -> ~ local_error e.
Proof.
  destruct r as [| |resp c]; simpl.
  - intros [= <-] Hl. exact Hl.
  - intros [= <-] Hl. exact Hl.
  - destruct (300 <=? status resp); [|discriminate].
    intros [= <-] Hl. exact Hl.
Qed.

Lemma returns_inl op r e : returns op r = inl e -> r = inl e.
Proof. destruct r as [e'|[resp c]]; simpl; [by intros [= ->]|discriminate]. Qed.

(** X3. A [GcsError] never arises inside the client: whenever a call of
    any operation ends in one, its request went to the transport, the
    status of the error is at least 300, and either the transport could
    not resolve the host, and the error is 404 with the reason
    [Server not found.], or the transport answered with that status and
    that reason. *)
Theorem gcs_error_comes_from_transport self op w st msg :
  (call self op w).2 = inl (GcsError st msg) ->
  exists req,
    sent (call self op w).1 = sent w ++ [req]
    /\ 300 <= st
    /\ ((auth_http self req = ServerNotFoundError
         /\ st = 404 /\ msg = "Server not found.")
        \/ exists response content,
             auth_http self req = Reply response content
             /\ st = status response /\ msg = reason response).
Proof.
  intros H.
  destruct (call_outcome self op w) as [(e & He & Hl)|(url & m & h & b & _ & Hc)].
  { rewrite He in H. injection H as ->. destruct Hl. }
  rewrite Hc in *. cbn [fst snd] in *. eexists. split; [reflexivity|].
  apply returns_inl in H. unfold interpret in H.
  destruct (auth_http self _) as [| |resp c] eqn:Ea.
  - injection H as <- <-. split; [done|]. by left.
  - discriminate.
  - destruct (Z.leb_spec 300 (status resp)); [|discriminate].
    injection H as <- <-. split; [done|]. right. by exists resp, c.
Qed.

Lemma gcs_error_comes_from_transport_witness :
  exists req,
    sent (call demo.client_404 (GetObject "my-bucket" "notes.txt") demo.w0).1
    = sent demo.w0 ++ [req]
    /\ 300 <= 404
    /\ ((auth_http demo.client_404 req = ServerNotFoundError
         /\ 404 = 404 /\ "Not Found" = "Server not found.")
        \/ exists response content,
             auth_http demo.client_404 req = Reply response content
             /\ 404 = status response /\ "Not Found" = reason response).
Proof.
  exact (gcs_error_comes_from_transport demo.client_404
           (GetObject "my-bucket" "notes.txt") demo.w0 404 "Not Found" eq_refl).
Defined.

(** X4. A call of any operation returns a value only after the
    transport answered its request with a status below 300, and the
    value is the content of that answer, or for [get_object_metadata]
    the response itself. *)
Theorem success_comes_from_transport self op w v :
  (call self op w).2 = inr v ->
  exists req response content,
    sent (call self op w).1 = sent w ++ [req]
    /\ auth_http self req = Reply response content
    /\ status response < 300
    /\ v = match op with
           | GetObjectMetadata _ _ => Envelope response
           | _ => Content content
           end.
Proof.
  intros H.
  destruct (call_outcome self op w) as [(e & He & Hl)|(url & m & h & b & _ & Hc)].
  { by rewrite He in H. }
  rewrite Hc in *. cbn [fst snd] in *.
  unfold interpret in H.
  destruct (auth_http self _) as [| |resp c] eqn:Ea; try discriminate.
  destruct (Z.leb_spec 300 (status resp)); [discriminate|].
  simpl in H. injection H as <-.
  eexists _, resp, c. split; [reflexivity|]. by rewrite Ea.
Qed.

Lemma success_comes_from_transport_witness :
  exists req response content,
    sent (call demo.client (GetBucket "my-bucket") demo.w0).1 = sent demo.w0 ++ [req]
    /\ auth_http demo.client req = Reply response content
    /\ status response < 300
    /\ Content "OK" = Content content.
Proof.
  exact (success_comes_from_transport demo.client (GetBucket "my-bucket") demo.w0
           (Content "OK") eq_refl).
Defined.

(** ** Each operation, exactly *)

Lemma call_of_content (m : M string) self op w w1 url method headers body :
  m w = (record w1 (built_request self url method headers body),
         content_of (interpret (auth_http self
                                  (built_request self url method headers body)))) ->
  (forall b o, op <> GetObjectMetadata b o) ->
  (x ← m; mret (Content x)) w
  = (record w1 (built_request self url method headers body),
     returns op (interpret (auth_http self (built_request self url method headers body)))).
Proof. intros Hm Hop. rewrite (call_content _ _ _ _ Hm). by rewrite returns_content. Qed.

(** A call is the computation of its descriptor, then one
    [_api_request]. *)
Lemma call_descriptor self op w :
  call self op w =
    match descriptor self op w with
    | inl e => (w, inl e)
    | inr (url, method, headers, body) =>
        (record (after_print self op w) (built_request self url method headers body),
         returns op
           (interpret (auth_http self (built_request self url method headers body))))
    end.
Proof.
  destruct op; cbn [descriptor];
    try (rewrite after_print_id by done; unfold call;
         by apply call_of_content; [apply api_request_content|]).
  - destruct (re.match_ only_chars bucket_name) eqn:H1;
      [destruct (re.match_ starts_alnum bucket_name) eqn:H2;
       [destruct (re.match_ ends_alnum bucket_name) eqn:H3;
        [destruct ((len bucket_name <? 3) || (63 <? len bucket_name)) eqn:H4|]|]|];
      cbn [negb].
    2:{ rewrite after_print_id by done. unfold call.
        by apply call_of_content; [apply insert_bucket_passed|]. }
    all: unfold call; apply bind_raise;
      unfold insert_bucket; rewrite ?H1, ?H2, ?H3, ?H4; reflexivity.
  - destruct (_get_cors_body self (list_or origins [default_origin self])
                (list_or methods [default_method self])
                (list_or response_headers [default_response_header self])
                (if truthy max_age_sec then max_age_sec else default_max_age_sec self))
      as [e|body] eqn:E.
    + unfold call, set_bucket_cors. cbv zeta.
      apply bind_raise, bind_raise. unfold lift. by rewrite E.
    + rewrite after_print_id by done. unfold call.
      apply call_of_content; [|done].
      unfold set_bucket_cors. cbv zeta.
      erewrite bind_ret by (unfold lift; by rewrite E).
      apply api_request_content.
  - rewrite after_print_id by done.
    unfold call, get_object_metadata, mbind, M_bind, bind.
    rewrite _api_request_run. by destruct (interpret _) as [|[]].
  - destruct file_path as [p|];
      [destruct (files w p) as [contents|] eqn:E|].
    2,3: unfold call, insert_object;
      apply bind_raise, bind_raise; unfold read_file;
      rewrite ?E; reflexivity.
    cbv zeta. rewrite after_print_id by done. unfold call.
    apply call_of_content; [|done].
    unfold insert_object.
    erewrite bind_ret by (unfold read_file; by rewrite E).
    cbv zeta.
    destruct (opt_truthy content_type) eqn:Et, (opt_truthy content_encoding) eqn:Ee;
      cbn [negb orb]; erewrite bind_ret by reflexivity;
      apply api_request_content.
  - unfold call. apply call_of_content; [|done].
    unfold copy_object. cbv zeta.
    erewrite bind_ret by reflexivity. apply api_request_content.
Qed.

Lemma call_sent_descriptor self op w req :
  sent (call self op w).1 = sent w ++ [req] ->
  exists url method headers body,
    descriptor self op w = inr (url, method, headers, body)
    /\ req = built_request self url method headers body.
Proof.
  rewrite call_descriptor.
  destruct (descriptor self op w) as [e|[[[url method] headers] body]].
  - intros H. by apply sent_fresh in H.
  - cbn [fst]. rewrite sent_record. unfold after_print. cbn [sent].
    intros H. apply app_inv_head in H. injection H as <-.
    by exists url, method, headers, body.
Qed.

(** X5. What a call leaves behind: it never touches the files nor the
    table of types, and it ends in one of two ways. Either it stops on a
    local error (a [ValueError], [TypeError], [IOError] or
    [UnicodeDecodeError]) and the world is exactly as it was: nothing
    sent, nothing printed. Or it hands the transport exactly one request
    and has printed what the operation prints: the URL of the copy for
    [copy_object], nothing for any other operation. [copy_object] has no
    local error, so it always prints that URL, once, and sends its
    request. *)
Theorem call_leaves_world self op w :
  files (call self op w).1 = files w
  /\ guess_type (call self op w).1 = guess_type w
  /\ ((exists e,
         (call self op w).2 = inl e /\ local_error e /\ (call self op w).1 = w)
      \/ (exists req,
            sent (call self op w).1 = sent w ++ [req]
            /\ stdout (call self op w).1 = stdout w ++ printed self op
            /\ forall e, (call self op w).2 = inl e -> ~ local_error e))
  /\ (forall ob oo nb no acl,
        op = CopyObject ob oo nb no acl ->
        stdout (call self op w).1
        = stdout w ++ [object_url self nb (str_or no oo)]
        /\ exists req, sent (call self op w).1 = sent w ++ [req])
  /\ (printed self op = [] -> stdout (call self op w).1 = stdout w).
Proof.
  assert (forall url m h b,
            call self op w
            = (record (after_print self op w) (built_request self url m h b),
               returns op (interpret (auth_http self (built_request self url m h b)))) ->
            stdout (call self op w).1 = stdout w ++ printed self op
            /\ exists req, sent (call self op w).1 = sent w ++ [req]) as Hsent.
  { intros url m h b ->. cbn [fst]. split; [done|]. by eexists. }
  split; [|split; [|split; [|split]]].
  - destruct (call_outcome self op w) as [(e & -> & Hl)|(url & m & h & b & _ & ->)];
      done.
  - destruct (call_outcome self op w) as [(e & -> & Hl)|(url & m & h & b & _ & ->)];
      done.
  - destruct (call_outcome self op w) as [(e & He & Hl)|(url & m & h & b & _ & Hc)].
    + left. exists e. by rewrite He.
    + right. destruct (Hsent _ _ _ _ Hc) as [Hp [req Hs]].
      exists req. split; [done|]. split; [done|].
      rewrite Hc. cbn [snd]. intros e He%returns_inl.
      by apply interpret_not_local in He.
  - intros ob oo nb no acl ->. rewrite call_descriptor. cbn [descriptor fst].
    split; [done|]. by eexists.
  - intros Hp.
    destruct (call_outcome self op w) as [(e & -> & Hl)|(url & m & h & b & _ & Hc)];
      [done|].
    destruct (Hsent _ _ _ _ Hc) as [-> _]. by rewrite Hp, app_nil_r.
Qed.

(** A copy, on a world in which a line was printed before. *)
Example copy_object_prints :
  stdout (call demo.client
            (CopyObject "my-bucket" "notes.txt" "other-bucket" None None)
            (World [] ["before"] (files demo.w0) (guess_type demo.w0))).1
  = ["before"; "other-bucket.storage.googleapis.com/notes.txt"].
Proof. reflexivity. Qed.

Lemma str_or_cases (x : option string) d :
  str_or x d = match x with Some (String c s) => String c s | _ => d end.
Proof. by destruct x as [[|c s]|]. Qed.

(** X6. Where each operation sends its request: the URL is the scheme
    [http://] and the target of the operation, built from the bucket,
    the fixed host and the object as the method formats them, and the
    method is PUT for the four writes, DELETE for the two deletes, HEAD
    for the metadata and, for the six reads, whatever the default method
    of the client is. *)
Theorem operation_route self op w req :
  sent (call self op w).1 = sent w ++ [req] ->
  req_url req = "http://" +:+ target self op
  /\ req_method req = verb self op.
Proof.
  intros H. apply call_sent_descriptor in H as (u & m & h & b & Hd & ->).
  rewrite built_request_url, built_request_method.
  destruct op; cbn [descriptor] in Hd;
    repeat (case_match; try discriminate);
    injection Hd as <- <- <- <-;
    (split; [|reflexivity]);
    unfold target, bucket_host, object_url;
    by rewrite ?string_app_assoc, ?str_or_cases.
Qed.

Lemma operation_route_witness :
  req_url (built_request demo.client "my-bucket.storage.googleapis.com/a/b.txt?acl"
             None None None)
  = "http://my-bucket.storage.googleapis.com/a/b.txt?acl"
  /\ req_method (built_request demo.client
                   "my-bucket.storage.googleapis.com/a/b.txt?acl" None None None)
     = "GET".
Proof.
  exact (operation_route demo.client (GetObjectAcls "my-bucket" "a/b.txt") demo.w0
           (built_request demo.client "my-bucket.storage.googleapis.com/a/b.txt?acl"
              None None None) eq_refl).
Defined.

(** X7. Only [insert_bucket] looks at the bucket name: the reads, the
    deletes and the metadata call hand their request to the transport
    whatever the bucket and object names are, empty or malformed ones
    too; that request has no body, and, unless the method is POST or
    PUT, exactly the two headers of the project id and of the API
    version. *)
Theorem plain_operations_always_send self op w :
  plain op = true ->
  exists req,
    sent (call self op w).1 = sent w ++ [req]
    /\ req_body req = None
    /\ (verb self op <> "POST" -> verb self op <> "PUT" ->
        req_headers req
        = <["x-goog-api-version" := api_version self]>
            (<["x-goog-project-id" := project_id self]> ∅)).
Proof.
  intros Hp. rewrite call_descriptor.
  destruct op; try discriminate; cbn [descriptor fst];
    (eexists; split; [reflexivity|]; split; [reflexivity|]);
    intros H1 H2; unfold built_request, verb in *; cbn [req_headers str_or];
    destruct (String.eqb_spec (default_method self) "POST"),
      (String.eqb_spec (default_method self) "PUT"); done.
Qed.

Lemma plain_operations_always_send_witness :
  exists req,
    sent (call demo.client (DeleteBucket EmptyString) demo.w0).1 = sent demo.w0 ++ [req]
    /\ req_body req = None
    /\ (verb demo.client (DeleteBucket EmptyString) <> "POST" ->
        verb demo.client (DeleteBucket EmptyString) <> "PUT" ->
        req_headers req
        = <["x-goog-api-version" := "2"]> (<["x-goog-project-id" := "my-project"]> ∅)).
Proof.
  exact (plain_operations_always_send demo.client (DeleteBucket EmptyString) demo.w0
           eq_refl).
Defined.

Lemma set_if_lookup key v (h : gmap string string) :
  set_if key v h !! key = if opt_truthy v then v else h !! key.
Proof.
  unfold set_if, opt_truthy. destruct v as [s|]; [|done].
  destruct (str_truthy s); [|done]. apply lookup_insert_eq.
Qed.

Lemma set_if_is_Some key v (h : gmap string string) k :
  is_Some (set_if key v h !! k) -> k = key \/ is_Some (h !! k).
Proof.
  destruct (decide (k = key)) as [->|Hk]; [by left|].
  rewrite set_if_lookup_ne by done. by right.
Qed.

Lemma built_request_is_Some self url method headers body k :
  is_Some (req_headers (built_request self url method headers body) !! k) ->
  k = "x-goog-project-id" \/ k = "x-goog-api-version" \/ k = "Content-Length"
  \/ is_Some (default ∅ headers !! k).
Proof.
  intros H.
  destruct (decide (k = "x-goog-project-id")) as [->|H1]; [by left|].
  destruct (decide (k = "x-goog-api-version")) as [->|H2]; [by right; left|].
  destruct (decide (k = "Content-Length")) as [->|H3]; [by right; right; left|].
  rewrite built_request_other_header in H by done. by right; right; right.
Qed.

(** X8. The client sets seven headers and no other: every header of
    every request of every operation is one of [x-goog-project-id],
    [x-goog-api-version], [Content-Length], [x-goog-acl],
    [Content-Type], [Content-Encoding] and [x-goog-copy-source]. *)
Theorem header_names_closed self op w req k :
  sent (call self op w).1 = sent w ++ [req] ->
  is_Some (req_headers req !! k) ->
  k ∈ header_names.
Proof.
  intros H Hk. apply call_sent_descriptor in H as (u & m & h & b & Hd & ->).
  apply built_request_is_Some in Hk as [->|[->|[->|Hk]]];
    [unfold header_names; set_solver..|].
  destruct op; cbn [descriptor] in Hd;
    repeat (case_match; try discriminate);
    injection Hd as <- <- <- <-; simpl in Hk;
    repeat (apply set_if_is_Some in Hk as [->|Hk];
            [unfold header_names; set_solver|]);
    try (by rewrite lookup_empty in Hk; destruct Hk).
  destruct (decide (k = "x-goog-copy-source")) as [->|Hne];
    [unfold header_names; set_solver|].
  rewrite lookup_singleton_ne in Hk by done. by destruct Hk.
Qed.

Lemma header_names_closed_witness : "x-goog-copy-source" ∈ header_names.
Proof.
  apply (header_names_closed demo.client
           (CopyObject "my-bucket" "a" "my-bucket" (Some "b") None) demo.w0
           (built_request demo.client "my-bucket.storage.googleapis.com/b"
              (Some "PUT") (Some {[ "x-goog-copy-source" := "/my-bucket/a" ]}) None)
           "x-goog-copy-source" eq_refl).
  by eexists.
Defined.

Lemma acl_cases (x : option string) :
  (if opt_truthy x then x else None)
  = match x with Some (String c a) => Some (String c a) | _ => None end.
Proof. by destruct x as [[|c a]|]. Qed.

(** X9. The [x-goog-acl] header is in the request exactly when the
    operation is [insert_bucket], [insert_object] or [copy_object] and
    was given an ACL that is not empty, and it then carries that ACL
    unchanged; no ACL, or an empty one, leaves the header out. *)
Theorem acl_header self op w req :
  sent (call self op w).1 = sent w ++ [req] ->
  req_headers req !! "x-goog-acl"
  = match acl_of op with
    | Some (String c a) => Some (String c a)
    | _ => None
    end.
Proof.
  intros H. apply call_sent_descriptor in H as (u & m & h & b & Hd & ->).
  rewrite built_request_other_header by done. rewrite <- acl_cases.
  destruct op; cbn [descriptor] in Hd;
    repeat (match type of Hd with
            | context [match ?x with _ => _ end] => destruct x eqn:?
            end; try discriminate);
    injection Hd as <- <- <- <-; cbn [acl_of default from_option id];
    rewrite ?set_if_lookup;
    by rewrite ?set_if_lookup_ne, ?lookup_empty, ?lookup_singleton_ne by done.
Qed.

Lemma acl_header_witness :
  req_headers (built_request demo.client "my-bucket.storage.googleapis.com"
                 (Some "PUT") (Some {[ "x-goog-acl" := "public-read" ]}) None)
    !! "x-goog-acl" = Some "public-read".
Proof.
  exact (acl_header demo.client (InsertBucket "my-bucket" (Some "public-read") None)
           demo.w0
           (built_request demo.client "my-bucket.storage.googleapis.com"
              (Some "PUT") (Some {[ "x-goog-acl" := "public-read" ]}) None)
           eq_refl).
Defined.

(** ** [insert_object] *)

Lemma has_slash_cons c s : has_slash (String c s) = Ascii.eqb "/" c || has_slash s.
Proof. reflexivity. Qed.

Lemma has_slash_app s t : has_slash (s +:+ t) = has_slash s || has_slash t.
Proof.
  induction s as [|c s IH]; [done|]. rewrite app_cons, !has_slash_cons, IH.
  by rewrite orb_assoc.
Qed.

Lemma basename_cons c s :
  basename (String c s)
  = if Ascii.eqb c "/" then basename s
    else if has_slash s then basename s else String c s.
Proof. reflexivity. Qed.

Lemma basename_plain name : has_slash name = false -> basename name = name.
Proof.
  destruct name as [|c s]; [done|]. rewrite has_slash_cons, basename_cons.
  intros [Hc Hs]%orb_false_iff. rewrite Hs.
  rewrite Ascii.eqb_sym in Hc. by rewrite Hc.
Qed.

Lemma basename_join d name :
  has_slash name = false -> basename (d +:+ "/" +:+ name) = name.
Proof.
  intros Hn. induction d as [|c d IH].
  - rewrite app_empty_l, app_cons, basename_cons. cbn [Ascii.eqb].
    rewrite app_empty_l. by apply basename_plain.
  - rewrite app_cons, basename_cons, IH.
    assert (has_slash (d +:+ "/" +:+ name) = true) as ->.
    { rewrite has_slash_app, app_cons, has_slash_cons. cbn. apply orb_true_r. }
    by destruct (Ascii.eqb c "/").
Qed.

Lemma basename_no_slash p : has_slash (basename p) = false.
Proof.
  induction p as [|c p IH]; [done|]. rewrite basename_cons.
  destruct (Ascii.eqb c "/") eqn:Ec; [done|].
  destruct (has_slash p) eqn:Hp; [done|].
  rewrite has_slash_cons, Hp. rewrite Ascii.eqb_sym in Ec. by rewrite Ec.
Qed.

Lemma bind_world {A B} (m : M A) (f : A -> B) w :
  ((x ← m; mret (f x)) w).1 = (m w).1.
Proof. unfold mbind, M_bind, bind. by destruct (m w) as [w' [e|a]]. Qed.

Lemma insert_object_descriptor self b f o t e acl w :
  insert_object self b f o t e acl w =
    match descriptor self (InsertObject b f o t e acl) w with
    | inl err => (w, inl err)
    | inr (url, method, headers, body) =>
        (record w (built_request self url method headers body),
         content_of
           (interpret (auth_http self (built_request self url method headers body))))
    end.
Proof.
  cbn [descriptor]. destruct f as [p|]; [destruct (files w p) as [contents|] eqn:E|].
  2,3: unfold insert_object; apply bind_raise; unfold read_file;
    rewrite ?E; reflexivity.
  cbv zeta. unfold insert_object.
  erewrite bind_ret by (unfold read_file; by rewrite E).
  cbv zeta.
  destruct (opt_truthy t) eqn:Et, (opt_truthy e) eqn:Ee;
    cbn [negb orb]; erewrite bind_ret by reflexivity;
    apply api_request_content.
Qed.

Lemma content_length_of contents :
  (if opt_truthy (Some contents)
   then fmt_d (len (default EmptyString (Some contents))) else "0")
  = fmt_d (Z.of_nat (String.length contents)).
Proof. by destruct contents. Qed.

Lemma insert_object_readable self b p o t e acl w contents :
  files w p = Some contents ->
  exists req,
    sent (insert_object self b (Some p) o t e acl w).1 = sent w ++ [req]
    /\ req_method req = "PUT"
    /\ req_body req = Some contents
    /\ req_headers req !! "Content-Length"
       = Some (fmt_d (Z.of_nat (String.length contents)))
    /\ req_url req
       = "http://" +:+ b +:+ "." +:+ _base_url self +:+ "/"
           +:+ match o with
               | Some (String c o') => String c o'
               | _ => basename p
               end.
Proof.
  intros Hp. rewrite insert_object_descriptor. cbn [descriptor].
  rewrite Hp. cbv zeta. eexists.
  split; [reflexivity|]. split; [reflexivity|]. split; [reflexivity|]. split.
  - rewrite built_request_content_length. cbn [str_or str_truthy String.eqb negb orb].
    by rewrite content_length_of.
  - rewrite built_request_url. unfold object_url. by rewrite str_or_cases.
Qed.



(** X11. When no object name is given, the object takes the last
    component of the file path: for a path that ends in a slash and a
    name without a slash, the request goes to that name in the bucket;
    and the name so chosen never holds a slash. *)
Theorem insert_object_default_name self b dir name o t e acl w contents :
  has_slash name = false ->
  o = None \/ o = Some EmptyString ->
  files w (dir +:+ "/" +:+ name) = Some contents ->
  exists req,
    sent (insert_object self b (Some (dir +:+ "/" +:+ name)) o t e acl w).1
    = sent w ++ [req]
    /\ req_url req = "http://" +:+ b +:+ "." +:+ _base_url self +:+ "/" +:+ name
    /\ forall p, has_slash (basename p) = false.
Proof.
  intros Hn Ho Hf.
  destruct (insert_object_readable self b _ o t e acl w _ Hf)
    as (req & Hs & _ & _ & _ & Hu).
  exists req. split; [done|]. split; [|apply basename_no_slash].
  rewrite Hu, basename_join by done. by destruct Ho as [-> | ->].
Qed.

Lemma insert_object_default_name_witness :
  exists req,
    sent (insert_object demo.client "my-bucket" (Some ("docs" +:+ "/" +:+ "notes.txt"))
            None None None None demo_files.w).1
    = sent demo_files.w ++ [req]
    /\ req_url req
       = "http://" +:+ "my-bucket" +:+ "." +:+ _base_url demo.client +:+ "/"
           +:+ "notes.txt"
    /\ forall p, has_slash (basename p) = false.
Proof.
  exact (insert_object_default_name demo.client "my-bucket" "docs" "notes.txt" None
           None None None demo_files.w "hello" eq_refl (or_introl eq_refl) eq_refl).
Defined.

Lemma set_value_truthy (v : option string) :
  (if opt_truthy v then v else None) = set_value v.
Proof. by destruct v as [[|c s]|]. Qed.

Lemma set_if_empty key v : set_if key v (∅ : gmap string string) !! key = set_value v.
Proof. by rewrite set_if_lookup, lookup_empty, set_value_truthy. Qed.

(** X12. The type and the encoding of an upload: a content type that is
    given and not empty goes into [Content-Type] as it is and the guess
    of [mimetypes] never replaces it; without one, the guessed type goes
    in, and when nothing is guessed either the header is left out; and
    the same holds of the encoding and [Content-Encoding]. *)
Theorem insert_object_content_headers self b p o t e acl w contents req :
  files w p = Some contents ->
  sent (insert_object self b (Some p) o t e acl w).1 = sent w ++ [req] ->
  req_headers req !! "Content-Type"
  = match t with
    | Some (String c s) => Some (String c s)
    | _ => set_value (guess_type w p).1
    end
  /\ req_headers req !! "Content-Encoding"
     = match e with
       | Some (String c s) => Some (String c s)
       | _ => set_value (guess_type w p).2
       end.
Proof.
  intros Hp. rewrite insert_object_descriptor. cbn [descriptor]. rewrite Hp.
  cbv zeta. cbn [fst]. rewrite sent_record.
  intros H. apply app_inv_head in H. injection H as <-.
  rewrite !built_request_other_header by done. cbn [default from_option id].
  rewrite !(set_if_lookup_ne "x-goog-acl") by done.
  rewrite set_if_lookup_ne by done.
  rewrite set_if_empty, set_if_lookup, set_if_lookup_ne, lookup_empty by done.
  rewrite set_value_truthy.
  split; [by destruct t as [[|c s]|]|by destruct e as [[|c s]|]].
Qed.

Lemma insert_object_content_headers_witness :
  req_headers
    (built_request demo.client "my-bucket.storage.googleapis.com/all.tar.gz"
       (Some "PUT")
       (Some (<["Content-Encoding" := "gzip"]> {[ "Content-Type" := "text/x-mine" ]}))
       (Some EmptyString)) !! "Content-Type" = Some "text/x-mine"
  /\ req_headers
       (built_request demo.client "my-bucket.storage.googleapis.com/all.tar.gz"
          (Some "PUT")
          (Some (<["Content-Encoding" := "gzip"]> {[ "Content-Type" := "text/x-mine" ]}))
          (Some EmptyString)) !! "Content-Encoding" = Some "gzip".
Proof.
  exact (insert_object_content_headers demo.client "my-bucket" "docs/all.tar.gz" None
           (Some "text/x-mine") None None demo_files.w EmptyString
           (built_request demo.client "my-bucket.storage.googleapis.com/all.tar.gz"
              (Some "PUT")
              (Some (<["Content-Encoding" := "gzip"]> {[ "Content-Type" := "text/x-mine" ]}))
              (Some EmptyString))
           eq_refl eq_refl).
Defined.

(** ** [strip] and the entries of the CORS lists *)

Section Strip.

Implicit Types (s t : string) (c : ascii).

Lemma lstrip_head s :
  lstrip s = EmptyString
  \/ exists c t, lstrip s = String c t /\ Ascii.is_space c = false.
Proof.
  induction s as [|c s IH]; [by left|]. simpl.
  destruct (Ascii.is_space c) eqn:E; [exact IH|]. right. by exists c, s.
Qed.

Lemma rstrip_cons_keep c t :
  Ascii.is_space c = false -> rstrip (String c t) = String c (rstrip t).
Proof. intros E. simpl. by rewrite E. Qed.

Lemma rstrip_idempotent s : rstrip (rstrip s) = rstrip s.
Proof.
  induction s as [|c s IH]; [done|]. simpl.
  destruct (Ascii.is_space c && String.eqb (rstrip s) EmptyString) eqn:E; [done|].
  simpl. by rewrite IH, E.
Qed.

Lemma strip_idempotent s : strip (strip s) = strip s.
Proof.
  unfold strip. destruct (lstrip_head s) as [->|(c & t & -> & Hc)]; [done|].
  rewrite rstrip_cons_keep by done. simpl lstrip. rewrite Hc.
  rewrite rstrip_cons_keep by done. by rewrite rstrip_idempotent.
Qed.

Lemma entry_text_clean d x :
  d <> EmptyString -> strip d = d -> clean_text (entry_text d x).
Proof.
  intros Hd Hs. unfold entry_text. case_decide as E.
  - by exists d.
  - exists (strip x). split; [done|]. split; [done|apply strip_idempotent].
Qed.

End Strip.

(** X13. Every entry that [set_bucket_cors] sends is filled and trimmed:
    for a client whose defaults are not empty and carry no surrounding
    whitespace (those of [__init__] are such), the text of every
    [Origin], [Method] and [ResponseHeader] element of the body is a
    string that is not empty and that [strip] leaves as it is. *)
Theorem cors_entries_clean self b o m h v w req :
  stripped_defaults self -> nonempty_defaults self ->
  sent (set_bucket_cors self b o m h v w).1 = sent w ++ [req] ->
  exists root t,
    req_body req = Some (XML_DECLARATION +:+ t)
    /\ xml.tostring root = inr t
    /\ Forall clean_text
         (map xml.text (xml.findall_path [root] ["Cors"; "Origins"; "Origin"]))
    /\ Forall clean_text
         (map xml.text (xml.findall_path [root] ["Cors"; "Methods"; "Method"]))
    /\ Forall clean_text
         (map xml.text
            (xml.findall_path [root] ["Cors"; "ResponseHeaders"; "ResponseHeader"])).
Proof.
  intros (So & Sm & Sh) (No & Nm & Nh) H.
  apply set_bucket_cors_sent in H as (t & Ht & Hb & _).
  eexists _, t. split; [exact Hb|]. split; [exact Ht|].
  destruct (cors_config_elem_texts self (list_or o [default_origin self])
              (list_or m [default_method self])
              (list_or h [default_response_header self])
              (if truthy v then v else default_max_age_sec self))
    as (_ & -> & -> & -> & _).
  split; [|split]; apply Forall_map, Forall_forall; intros x _;
    by apply entry_text_clean.
Qed.

Lemma cors_entries_clean_witness :
  exists root t,
    req_body (demo.cors_request demo.cors_body) = Some (XML_DECLARATION +:+ t)
    /\ xml.tostring root = inr t
    /\ Forall clean_text
         (map xml.text (xml.findall_path [root] ["Cors"; "Origins"; "Origin"]))
    /\ Forall clean_text
         (map xml.text (xml.findall_path [root] ["Cors"; "Methods"; "Method"]))
    /\ Forall clean_text
         (map xml.text
            (xml.findall_path [root] ["Cors"; "ResponseHeaders"; "ResponseHeader"])).
Proof.
  apply (cors_entries_clean demo.client "my-bucket"
           (Some ["http://a.example "; "   "; "http://b.example"]) None (Some []) PyNone
           demo.w0 (demo.cors_request demo.cors_body)
           (conj eq_refl (conj eq_refl eq_refl))).
  - repeat split; discriminate.
  - reflexivity.
Defined.

(** ** The tree of the CORS body *)

Lemma cors_entries_closed t d l tag0 cs :
  fold_left (cors_entry t d) l (xml.mkElement tag0 PyNone cs)
  = xml.mkElement tag0 PyNone (cs ++ leaves t (map (entry_text d) l)).
Proof.
  revert cs. induction l as [|x l IH]; intros cs; [by rewrite app_nil_r|].
  cbn [fold_left map]. unfold cors_entry at 2, xml.append, xml.set_text, xml.new.
  cbn [xml.tag xml.text xml.children]. rewrite IH, cors_entry_text.
  by rewrite <- app_assoc.
Qed.

Lemma cors_config_elem_closed self os ms hs a :
  cors_config_elem self os ms hs a
  = cors_tree (map (entry_text (default_origin self)) os)
      (map (entry_text (default_method self)) ms)
      (map (entry_text (default_response_header self)) hs)
      (max_age_sec_text a).
Proof.
  unfold cors_config_elem, xml.new. cbv zeta. by rewrite !cors_entries_closed.
Qed.

Lemma list_or_entries (x : option (list string)) d : list_or x [d] = entries_or x d.
Proof. by destruct x as [[|a l]|]. Qed.

(** X14. The body of [set_bucket_cors] has one shape: it is the
    declaration and the serialization of [CorsConfig] holding [Cors]
    holding, in this order, [Origins], [Methods], [ResponseHeaders] and
    [MaxAgeSec]; each list holds one childless element per entry, in the
    order of the entries, or the single default when the argument is
    absent or empty; and the max age is the argument, or the default of
    the client when the argument is falsy, rendered by its type. *)
Theorem cors_body_shape self b o m h v w req :
  sent (set_bucket_cors self b o m h v w).1 = sent w ++ [req] ->
  exists t,
    req_body req = Some (XML_DECLARATION +:+ t)
    /\ xml.tostring
         (cors_tree
            (map (entry_text (default_origin self)) (entries_or o (default_origin self)))
            (map (entry_text (default_method self)) (entries_or m (default_method self)))
            (map (entry_text (default_response_header self))
               (entries_or h (default_response_header self)))
            (text_by_type (if truthy v then v else default_max_age_sec self)))
       = inr t.
Proof.
  intros H. apply set_bucket_cors_sent in H as (t & Ht & Hb & _).
  exists t. split; [exact Hb|].
  by rewrite cors_config_elem_closed, !list_or_entries in Ht.
Qed.

Lemma cors_body_shape_witness :
  exists t,
    req_body (demo.cors_request demo.cors_body) = Some (XML_DECLARATION +:+ t)
    /\ xml.tostring
         (cors_tree
            [PyStr "http://a.example"; PyStr "*"; PyStr "http://b.example"]
            [PyStr "GET"] [PyStr "gcs-demo"] (PyStr "1800"))
       = inr t.
Proof.
  exact (cors_body_shape demo.client "my-bucket"
           (Some ["http://a.example "; "   "; "http://b.example"]) None (Some []) PyNone
           demo.w0 (demo.cors_request demo.cors_body) eq_refl).
Defined.

(** ** When a tree can be serialized *)

Section Serializable.

Implicit Types (s t r : string) (c : ascii).

Lemma is_ascii_cons c s :
  xml.is_ascii (String c s) = (N_of_ascii c <? 128)%N && xml.is_ascii s.
Proof. reflexivity. Qed.

Lemma is_ascii_app s t : xml.is_ascii (s +:+ t) = xml.is_ascii s && xml.is_ascii t.
Proof.
  induction s as [|c s IH]; [done|]. rewrite app_cons, !is_ascii_cons, IH.
  by rewrite andb_assoc.
Qed.

Lemma is_ascii_replace c r s :
  (N_of_ascii c <? 128)%N = true -> xml.is_ascii r = true ->
  xml.is_ascii (xml.replace c r s) = xml.is_ascii s.
Proof.
  intros Hc Hr. induction s as [|a s IH]; [done|]. simpl xml.replace.
  destruct (Ascii.eqb_spec a c) as [->|Hne].
  - by rewrite is_ascii_app, Hr, IH, is_ascii_cons, Hc.
  - by rewrite !is_ascii_cons, IH.
Qed.

Lemma escape_spec s :
  xml._escape_cdata (PyStr s)
  = if xml.is_ascii s
    then inr (xml.replace ">" "&gt;" (xml.replace "<" "&lt;" (xml.replace "&" "&amp;" s)))
    else inl UnicodeDecodeError.
Proof. simpl. by rewrite !is_ascii_replace. Qed.

Lemma serializable_escape v :
  truthy v = true ->
  (exists t, xml._escape_cdata v = inr t) <-> serializable v = true.
Proof.
  intros Hv. destruct v as [| | | | |s].
  6:{ rewrite escape_spec. cbn [serializable].
      destruct (xml.is_ascii s); split; try done; [by eexists|by intros [t Ht]]. }
  all: simpl in *; rewrite ?Hv; split; [intros [t Ht]|]; discriminate.
Qed.

Lemma serializable_falsy v : truthy v = false -> serializable v = true.
Proof.
  destruct v as [| | | | |s]; cbn [serializable];
    try (by intros ->).
  simpl. destruct (String.eqb_spec s EmptyString) as [->|]; done.
Qed.

(** A tree is serialized exactly when each of its texts can be. *)
Lemma serialize_iff e :
  (exists t, xml._serialize_xml e = inr t) <-> texts_serializable e = true.
Proof.
  induction e as [tag text children IH] using Element_children_ind.
  cbn [texts_serializable xml._serialize_xml].
  assert (Hch :
    (exists cs,
       (fix each (l : list xml.Element) : exn + string :=
          match l with
          | [] => inr EmptyString
          | c :: l' =>
              match xml._serialize_xml c with
              | inl err => inl err
              | inr sc =>
                  match each l' with
                  | inl err => inl err
                  | inr sl => inr (sc +:+ sl)
                  end
              end
          end) children = inr cs)
    <-> forallb texts_serializable children = true).
  { induction children as [|c l IHl]; [split; [done|by eexists]|].
    apply Forall_cons in IH as [IHc IH]. specialize (IHl IH).
    cbn [forallb]. rewrite andb_true_iff, <- IHc, <- IHl.
    destruct (xml._serialize_xml c) as [ec|sc].
    - split; [by intros [cs Hcs]|by intros [[t Ht] _]].
    - match goal with |- context [match ?m with inl _ => _ | inr _ => _ end] =>
        destruct m as [el|sl] end.
      + split; [by intros [cs Hcs]|by intros [_ [t Ht]]].
      + split; [intros _; split; by eexists|by eexists]. }
  rewrite andb_true_iff, <- Hch. clear Hch IH.
  match goal with |- context [match ?each children with inl _ => _ | inr _ => _ end] =>
    remember (each children) as rs eqn:Hrs end.
  destruct (truthy text) eqn:Htext; cbn [orb].
  - rewrite <- (serializable_escape text Htext).
    destruct (xml._escape_cdata text) as [e0|txt].
    + split; [by intros [t Ht]|by intros [[t Ht] _]].
    + destruct rs as [e1|cs].
      * split; [by intros [t Ht]|by intros [_ [t Ht]]].
      * split; [intros _; split; by eexists|by eexists].
  - rewrite (serializable_falsy text Htext).
    destruct (negb (length children =? 0)%nat) eqn:Hlen.
    + destruct rs as [e1|cs].
      * split; [by intros [t Ht]|by intros [_ [t Ht]]].
      * split; [intros _; split; by eexists|by eexists].
    + destruct children; [|discriminate]. subst rs.
      split; [intros _; split; by eexists|by eexists].
Qed.

End Serializable.

Section AsciiFormats.

Lemma is_ascii_uint d : xml.is_ascii (NilEmpty.string_of_uint d) = true.
Proof. induction d; simpl; try done; by rewrite is_ascii_cons, IHd. Qed.

Lemma is_ascii_nilzero d : xml.is_ascii (NilZero.string_of_uint d) = true.
Proof.
  pose proof (is_ascii_uint d) as H. by destruct d.
Qed.

Lemma is_ascii_fmt_d z : xml.is_ascii (fmt_d z) = true.
Proof.
  unfold fmt_d, NilZero.string_of_int.
  destruct (Z.to_int z) as [d|d]; [apply is_ascii_nilzero|].
  by rewrite is_ascii_cons, is_ascii_nilzero.
Qed.

Lemma is_ascii_zeros n : xml.is_ascii (zeros n) = true.
Proof. induction n as [|n IH]; [done|]. simpl. by rewrite is_ascii_cons, IH. Qed.

Lemma is_ascii_fmt_fixed6 neg num den : xml.is_ascii (fmt_fixed6 neg num den) = true.
Proof.
  unfold fmt_fixed6, zero_pad. cbv zeta.
  rewrite !is_ascii_app, !is_ascii_fmt_d, is_ascii_zeros. by destruct neg.
Qed.

Lemma is_ascii_fmt_f f : xml.is_ascii (fmt_f f) = true.
Proof.
  destruct f as [s|s| |s m e]; simpl; try apply is_ascii_fmt_fixed6.
  - by destruct s.
  - done.
  - destruct (0 <=? e); apply is_ascii_fmt_fixed6.
Qed.

End AsciiFormats.

Lemma texts_serializable_leaves t vs :
  forallb texts_serializable (leaves t vs) = forallb serializable vs.
Proof.
  induction vs as [|v vs IH]; [done|]. simpl. by rewrite IH, andb_true_r.
Qed.

Lemma texts_serializable_cors_tree os ms hs a :
  texts_serializable (cors_tree os ms hs a) = forallb serializable (os ++ ms ++ hs ++ [a]).
Proof.
  simpl. rewrite !texts_serializable_leaves, !forallb_app. simpl.
  by rewrite !andb_true_r, !andb_assoc.
Qed.

Lemma set_bucket_cors_run self b o m h v w :
  set_bucket_cors self b o m h v w =
    match xml.tostring
            (cors_tree
               (map (entry_text (default_origin self))
                  (entries_or o (default_origin self)))
               (map (entry_text (default_method self))
                  (entries_or m (default_method self)))
               (map (entry_text (default_response_header self))
                  (entries_or h (default_response_header self)))
               (text_by_type (if truthy v then v else default_max_age_sec self))) with
    | inl e => (w, inl e)
    | inr t =>
        let req :=
          built_request self (bucket_host self b +:+ "/?cors") (Some "PUT") None
            (Some (XML_DECLARATION +:+ t)) in
        (record w req, content_of (interpret (auth_http self req)))
    end.
Proof.
  unfold set_bucket_cors. cbv zeta. unfold _get_cors_body, _xml_tostring.
  rewrite cors_config_elem_closed, !list_or_entries.
  change (max_age_sec_text ?x) with (text_by_type x).
  destruct (xml.tostring _) as [e|t].
  - by erewrite bind_raise by reflexivity.
  - erewrite bind_ret by reflexivity. apply api_request_content.
Qed.

(** X15. When [set_bucket_cors] reaches the transport: exactly when
    every text of the body can be serialized, that is, when every entry
    as emitted is ASCII and the max age as rendered is a falsy value or
    an ASCII string; an [int] and a [float] always render so. Otherwise
    the call raises a [TypeError] or a [UnicodeDecodeError] and sends
    nothing: a max age that is [True] or a [long] is such a case. *)
Theorem set_bucket_cors_reaches_transport self b o m h v w :
  (forallb serializable (cors_texts self o m h v) = true ->
     exists req, sent (set_bucket_cors self b o m h v w).1 = sent w ++ [req])
  /\ (forallb serializable (cors_texts self o m h v) = false ->
      exists err,
        set_bucket_cors self b o m h v w = (w, inl err)
        /\ (err = TypeError \/ err = UnicodeDecodeError))
  /\ (forall z, serializable (text_by_type (PyInt z)) = true)
  /\ (forall f, serializable (text_by_type (PyFloat f)) = true)
  /\ (forall z, z <> 0 -> serializable (text_by_type (PyLong z)) = false)
  /\ serializable (text_by_type (PyBool true)) = false.
Proof.
  split; [|split; [|split; [|split; [|split]]]].
  - intros H. rewrite set_bucket_cors_run. unfold cors_texts in H.
    rewrite <- texts_serializable_cors_tree in H. apply serialize_iff in H as [t Ht].
    unfold xml.tostring. rewrite Ht. cbv zeta. by eexists.
  - intros H. rewrite set_bucket_cors_run. unfold cors_texts in H.
    rewrite <- texts_serializable_cors_tree in H.
    destruct (xml.tostring _) as [e|t] eqn:E.
    + exists e. split; [done|]. by apply (serialize_error _ _ E).
    + assert (texts_serializable
                (cors_tree
                   (map (entry_text (default_origin self))
                      (entries_or o (default_origin self)))
                   (map (entry_text (default_method self))
                      (entries_or m (default_method self)))
                   (map (entry_text (default_response_header self))
                      (entries_or h (default_response_header self)))
                   (text_by_type (if truthy v then v else default_max_age_sec self)))
              = true) as Hok by (apply serialize_iff; by exists t).
      congruence.
  - intros z. apply is_ascii_fmt_d.
  - intros f. apply is_ascii_fmt_f.
  - intros z Hz. simpl. by destruct (Z.eqb_spec z 0).
  - done.
Qed.

Lemma set_bucket_cors_reaches_transport_witness :
  (exists req,
     sent (set_bucket_cors demo.client "my-bucket" (Some ["http://a.example"]) None None
             (PyInt 60) demo.w0).1 = sent demo.w0 ++ [req])
  /\ (exists err,
        set_bucket_cors demo.client "my-bucket" None None None (PyBool true) demo.w0
        = (demo.w0, inl err)
        /\ (err = TypeError \/ err = UnicodeDecodeError)).
Proof.
  split.
  - exact (proj1 (set_bucket_cors_reaches_transport demo.client "my-bucket"
                    (Some ["http://a.example"]) None None (PyInt 60) demo.w0) eq_refl).
  - exact (proj1 (proj2 (set_bucket_cors_reaches_transport demo.client "my-bucket"
                           None None None (PyBool true) demo.w0)) eq_refl).
Defined.

(** ** Escaping *)

Section Escape.

Implicit Types (s t r : string) (c a : ascii).

(** The three replacements of [_escape_cdata], one after the other. *)
Local Abbreviation escaped s :=
  (xml.replace ">" "&gt;" (xml.replace "<" "&lt;" (xml.replace "&" "&amp;" s))).

Lemma replace_app c r s t :
  xml.replace c r (s +:+ t) = xml.replace c r s +:+ xml.replace c r t.
Proof.
  induction s as [|a s IH]; [done|]. rewrite app_cons. simpl.
  destruct (Ascii.eqb a c); by rewrite IH, ?string_app_assoc, ?app_cons.
Qed.

Lemma escaped_cons a s :
  escaped (String a s)
  = (if Ascii.eqb a "&" then "&amp;"
     else if Ascii.eqb a "<" then "&lt;"
     else if Ascii.eqb a ">" then "&gt;"
     else String a EmptyString) +:+ escaped s.
Proof.
  cbn [xml.replace]. destruct (Ascii.eqb a "&") eqn:E1.
  { by rewrite !replace_app. }
  cbn [xml.replace]. destruct (Ascii.eqb a "<") eqn:E2.
  { by rewrite !replace_app. }
  cbn [xml.replace]. by destruct (Ascii.eqb a ">") eqn:E3.
Qed.

Lemma unescape_plain a r :
  Ascii.eqb a "&" = false -> unescape (String a r) = String a (unescape r).
Proof.
  intros H. destruct a as [[] [] [] [] [] [] [] []]; try reflexivity.
  discriminate.
Qed.

(** Reading back what was escaped gives the text. *)
Lemma unescape_escaped s : unescape (escaped s) = s.
Proof.
  induction s as [|a s IH]; [done|]. rewrite escaped_cons.
  destruct (Ascii.eqb_spec a "&") as [->|H1].
  { rewrite !app_cons, app_empty_l. cbn [unescape]. by rewrite IH. }
  destruct (Ascii.eqb_spec a "<") as [->|H2].
  { rewrite !app_cons, app_empty_l. cbn [unescape]. by rewrite IH. }
  destruct (Ascii.eqb_spec a ">") as [->|H3].
  { rewrite !app_cons, app_empty_l. cbn [unescape]. by rewrite IH. }
  rewrite app_cons, app_empty_l, unescape_plain, IH; [done|].
  by apply Ascii.eqb_neq.
Qed.

Lemma lacks_app c s t : lacks c (s +:+ t) = lacks c s && lacks c t.
Proof.
  induction s as [|a s IH]; [done|]. rewrite app_cons. simpl.
  by rewrite IH, andb_assoc.
Qed.

Lemma escaped_lacks s : lacks "<" (escaped s) = true /\ lacks ">" (escaped s) = true.
Proof.
  induction s as [|a s [IH1 IH2]]; [done|]. rewrite escaped_cons, !lacks_app, IH1, IH2.
  destruct (Ascii.eqb a "&"); [done|].
  destruct (Ascii.eqb a "<") eqn:E2; [done|].
  destruct (Ascii.eqb a ">") eqn:E3; [done|].
  simpl. by rewrite E2, E3.
Qed.

End Escape.

(** X16. What [_escape_cdata] writes for a string holds neither a
    less-than nor a greater-than sign, so that no text can open or close
    an element of the body; and it loses nothing: two strings with the
    same escaped form are the same string. *)
Theorem escape_cdata_faithful s t :
  xml._escape_cdata (PyStr s) = inr t ->
  lacks "<" t = true
  /\ lacks ">" t = true
  /\ unescape t = s
  /\ forall s', xml._escape_cdata (PyStr s') = inr t -> s' = s.
Proof.
  rewrite escape_spec. destruct (xml.is_ascii s); [|discriminate].
  intros [= <-]. split; [apply escaped_lacks|]. split; [apply escaped_lacks|].
  split; [apply unescape_escaped|].
  intros s'. rewrite escape_spec. destruct (xml.is_ascii s'); [|discriminate].
  intros [= H]. apply (f_equal unescape) in H.
  by rewrite !unescape_escaped in H.
Qed.

Lemma escape_cdata_faithful_witness :
  lacks "<" "a&amp;b&lt;c&gt;" = true
  /\ lacks ">" "a&amp;b&lt;c&gt;" = true
  /\ unescape "a&amp;b&lt;c&gt;" = "a&b<c>"
  /\ forall s', xml._escape_cdata (PyStr s') = inr "a&amp;b&lt;c&gt;" -> s' = "a&b<c>".
Proof.
  exact (escape_cdata_faithful "a&b<c>" "a&amp;b&lt;c&gt;" eq_refl).
Defined.

(** * The command line *)

(** ** The console *)

Lemma lines_nil s : lines s = [] -> s = EmptyString.
Proof.
  destruct s as [|a s]; [done|]. simpl.
  destruct (Ascii.eqb a "010"); [done|]. by destruct (lines s).
Qed.

Lemma lines_readline a s :
  lines (String a s)
  = (readline (String a s)).1 :: lines (readline (String a s)).2.
Proof.
  revert a. induction s as [|b s IH]; intros a.
  - simpl. by destruct (Ascii.eqb a "010").
  - cbn [lines readline]. destruct (Ascii.eqb a "010") eqn:Ea; [done|].
    specialize (IH b). cbn [lines readline] in IH. rewrite IH.
    cbn [readline]. by destruct (Ascii.eqb b "010"), (readline s).
Qed.

Lemma readline_lacks s : lacks "010" (readline s).1 = true.
Proof.
  induction s as [|a s IH]; [done|]. cbn [readline].
  destruct (Ascii.eqb a "010") eqn:Ea; [done|].
  destruct (readline s) as [l r]. simpl in *. by rewrite Ea, IH.
Qed.

(** No line holds a newline. *)
Lemma lines_lack_newline s : Forall (fun l => lacks "010" l = true) (lines s).
Proof.
  induction s as [|a s IH]; [constructor|]. cbn [lines].
  destruct (Ascii.eqb a "010") eqn:Ea; [by constructor|].
  destruct (lines s) as [|l ls].
  - constructor; [|done]. simpl. by rewrite Ea.
  - inversion IH; subst. constructor; [|done]. simpl. by rewrite Ea.
Qed.

Lemma raw_input_line p c l rest :
  lines (stdin c) = l :: rest ->
  exists s',
    raw_input p c
    = (State s' (prompts c ++ [p]) (logged c) (writable c) (module_dir c)
         (values c) (net c), inr l)
    /\ lines s' = rest.
Proof.
  unfold raw_input. destruct (stdin c) as [|a s] eqn:Es; [by simpl|].
  rewrite lines_readline.
  destruct (readline (String a s)) as [line r]. intros [= <- <-]. by exists r.
Qed.

Lemma raw_input_eof p c :
  lines (stdin c) = [] ->
  raw_input p c
  = (State EmptyString (prompts c ++ [p]) (logged c) (writable c) (module_dir c)
       (values c) (net c), inl EOFError).
Proof. intros H%lines_nil. unfold raw_input. by rewrite H. Qed.

Lemma cbind_eq {A B} (m : C A) (k : A -> C B) c :
  (x ← m; k x) c
  = match m c with
    | (c', inl e) => (c', inl e)
    | (c', inr a) => k a c'
    end.
Proof. reflexivity. Qed.

Lemma while_blank_done rounds text required v :
  str_truthy v = true \/ required = false ->
  while_blank rounds text required v = mret v.
Proof.
  intros H. destruct rounds; simpl;
    destruct H as [-> | ->]; simpl; by rewrite ?andb_false_r.
Qed.

Lemma while_blank_step rounds text c :
  while_blank rounds text true EmptyString c
  = match raw_input (PleaseEnter text)
            (State (stdin c) (prompts c) (logged c ++ [blank_record text])
               (writable c) (module_dir c) (values c) (net c)) with
    | (c', inl e) => (c', inl e)
    | (c', inr v) =>
        match rounds with
        | S rounds' => while_blank rounds' text true v c'
        | O => (c', inr v)
        end
    end.
Proof. by destruct rounds. Qed.

Lemma str_truthy_true s : s <> EmptyString -> str_truthy s = true.
Proof. by destruct s. Qed.

Lemma while_blank_filled text blanks :
  forall rounds c l rest,
    (length blanks <= rounds)%nat ->
    lines (stdin c) = blanks ++ l :: rest ->
    Forall (fun b => b = EmptyString) blanks ->
    l <> EmptyString ->
    exists s',
      while_blank rounds text true EmptyString c
      = (State s'
           (prompts c ++ replicate (S (length blanks)) (PleaseEnter text))
           (logged c ++ replicate (S (length blanks)) (blank_record text))
           (writable c) (module_dir c) (values c) (net c), inr l)
      /\ lines s' = rest.
Proof.
  induction blanks as [|b blanks IH]; intros rounds c l rest Hr Hl Hb Hne.
  - rewrite while_blank_step.
    edestruct (raw_input_line (PleaseEnter text)) as (s' & -> & Hs'); [exact Hl|].
    exists s'. split; [|done].
    destruct rounds; [done|].
    by rewrite while_blank_done by (left; by apply str_truthy_true).
  - inversion Hb as [|? ? -> Hb']; subst.
    destruct rounds as [|rounds]; [simpl in Hr; lia|].
    rewrite while_blank_step.
    edestruct (raw_input_line (PleaseEnter text)) as (s' & -> & Hs'); [exact Hl|].
    edestruct (IH rounds) as (s'' & -> & Hs''); [simpl in Hr; lia|exact Hs'|done..|].
    exists s''. split; [|done]. simpl.
    by rewrite <- !(assoc_L (++)).
Qed.

Lemma while_blank_eof text blanks :
  forall rounds c,
    (length blanks <= rounds)%nat ->
    lines (stdin c) = blanks ->
    Forall (fun b => b = EmptyString) blanks ->
    while_blank rounds text true EmptyString c
    = (State EmptyString
         (prompts c ++ replicate (S (length blanks)) (PleaseEnter text))
         (logged c ++ replicate (S (length blanks)) (blank_record text))
         (writable c) (module_dir c) (values c) (net c), inl EOFError).
Proof.
  induction blanks as [|b blanks IH]; intros rounds c Hr Hl Hb.
  - rewrite while_blank_step. by rewrite raw_input_eof.
  - inversion Hb as [|? ? -> Hb']; subst.
    destruct rounds as [|rounds]; [simpl in Hr; lia|].
    rewrite while_blank_step.
    edestruct (raw_input_line (PleaseEnter text)) as (s' & -> & Hs'); [exact Hl|].
    rewrite (IH rounds); [|simpl in Hr; lia|exact Hs'|done].
    simpl. by rewrite <- !(assoc_L (++)).
Qed.

Lemma length_lines s : (length (lines s) <= String.length s)%nat.
Proof.
  induction s as [|a s IH]; [done|]. cbn [lines String.length].
  destruct (Ascii.eqb a "010"); [simpl; lia|].
  destruct (lines s) as [|l ls] eqn:E; simpl in *; lia.
Qed.

(** ** [_get_input] *)

Lemma blanks_first (ls : list string) :
  Forall (fun b => b = EmptyString) ls
  \/ exists blanks l rest,
       ls = blanks ++ l :: rest
       /\ Forall (fun b => b = EmptyString) blanks /\ l <> EmptyString.
Proof.
  induction ls as [|x ls IH]; [by left|].
  destruct (decide (x = EmptyString)) as [->|Hx].
  - destruct IH as [IH | (blanks & l & rest & -> & Hb & Hl)].
    + left. by constructor.
    + right. exists (EmptyString :: blanks), l, rest. repeat split; [|done].
      by constructor.
  - right. by exists [], x, ls.
Qed.

Lemma get_input_eq text default c :
  _get_input text default c
  = match raw_input (Enter text (if default_truthy default then default else None)) c with
    | (c', inl e) => (c', inl e)
    | (c', inr v) =>
        while_blank (String.length (stdin c)) text (negb (default_truthy default)) v c'
    end.
Proof. reflexivity. Qed.

Lemma get_input_filled text default c blanks l rest :
  default_truthy default = false ->
  lines (stdin c) = blanks ++ l :: rest ->
  Forall (fun b => b = EmptyString) blanks ->
  l <> EmptyString ->
  exists s',
    _get_input text default c
    = (State s'
         (prompts c ++ Enter text None :: replicate (length blanks) (PleaseEnter text))
         (logged c ++ replicate (length blanks) (blank_record text))
         (writable c) (module_dir c) (values c) (net c), inr l)
    /\ lines s' = rest.
Proof.
  intros Hd Hl Hb Hne. rewrite get_input_eq, Hd.
  pose proof (length_lines (stdin c)) as Hlen. rewrite Hl in Hlen.
  rewrite length_app in Hlen. simpl in Hlen.
  destruct blanks as [|b blanks].
  - edestruct (raw_input_line (Enter text None)) as (s' & -> & Hs'); [exact Hl|].
    exists s'. split; [|done].
    rewrite while_blank_done by (left; by apply str_truthy_true).
    simpl. by rewrite app_nil_r.
  - inversion Hb as [|? ? -> Hb']; subst.
    edestruct (raw_input_line (Enter text None)) as (s' & -> & Hs'); [exact Hl|].
    simpl negb.
    edestruct (while_blank_filled text blanks (String.length (stdin c)))
      as (s'' & -> & Hs''); [simpl in Hlen; lia|exact Hs'|done..|].
    exists s''. split; [|done]. simpl.
    by rewrite <- !(assoc_L (++)).
Qed.

Lemma get_input_blanks text default c :
  default_truthy default = false ->
  Forall (fun b => b = EmptyString) (lines (stdin c)) ->
  _get_input text default c
  = (State EmptyString
       (prompts c ++ Enter text None
          :: replicate (length (lines (stdin c))) (PleaseEnter text))
       (logged c ++ replicate (length (lines (stdin c))) (blank_record text))
       (writable c) (module_dir c) (values c) (net c), inl EOFError).
Proof.
  intros Hd Hb. rewrite get_input_eq, Hd.
  pose proof (length_lines (stdin c)) as Hlen.
  destruct (lines (stdin c)) as [|b blanks] eqn:Hl.
  - rewrite raw_input_eof by done. simpl. by rewrite app_nil_r.
  - inversion Hb as [|? ? -> Hb']; subst.
    edestruct (raw_input_line (Enter text None)) as (s' & -> & Hs'); [exact Hl|].
    simpl negb.
    rewrite (while_blank_eof text blanks); [|simpl in Hlen; lia|exact Hs'|done].
    simpl. by rewrite <- !(assoc_L (++)).
Qed.

Lemma get_input_optional text default c l rest :
  default_truthy default = true ->
  lines (stdin c) = l :: rest ->
  exists s',
    _get_input text default c
    = (State s' (prompts c ++ [Enter text default]) (logged c)
         (writable c) (module_dir c) (values c) (net c), inr l)
    /\ lines s' = rest.
Proof.
  intros Hd Hl. rewrite get_input_eq, Hd.
  edestruct (raw_input_line (Enter text default)) as (s' & -> & Hs'); [exact Hl|].
  exists s'. split; [|done]. by rewrite while_blank_done by (by right).
Qed.

Lemma get_input_optional_eof text default c :
  default_truthy default = true ->
  lines (stdin c) = [] ->
  _get_input text default c
  = (State EmptyString (prompts c ++ [Enter text default]) (logged c)
       (writable c) (module_dir c) (values c) (net c), inl EOFError).
Proof. intros Hd Hl. rewrite get_input_eq, Hd. by rewrite raw_input_eof. Qed.

(** What every [_get_input] leaves alone, and what it can end in. *)
Lemma get_input_inv text default c c' r :
  _get_input text default c = (c', r) ->
  writable c' = writable c /\ module_dir c' = module_dir c
  /\ values c' = values c /\ net c' = net c
  /\ (exists more, logged c' = logged c ++ more
                   /\ Forall (fun x => x = blank_record text) more)
  /\ (r = inl EOFError
      \/ exists v, r = inr v /\ v ∈ lines (stdin c)
                   /\ (default_truthy default = false -> v <> EmptyString)).
Proof.
  destruct (default_truthy default) eqn:Hd.
  - destruct (lines (stdin c)) as [|l rest] eqn:Hl.
    + rewrite get_input_optional_eof by done. intros [= <- <-]. simpl.
      repeat split; [|by left]. exists []. by rewrite app_nil_r.
    + edestruct get_input_optional as (s' & -> & Hs'); [done..|].
      intros [= <- <-]. simpl. repeat split.
      * exists []. by rewrite app_nil_r.
      * right. exists l. repeat split; [|done]. apply elem_of_cons. by left.
  - destruct (blanks_first (lines (stdin c)))
      as [Hb | (blanks & l & rest & Hl & Hb & Hne)].
    + rewrite get_input_blanks by done. intros [= <- <-]. simpl.
      repeat split; [|by left]. eexists. split; [done|].
      apply Forall_replicate. done.
    + edestruct get_input_filled as (s' & -> & Hs'); [done..|].
      intros [= <- <-]. simpl. repeat split.
      * eexists. split; [done|]. by apply Forall_replicate.
      * right. exists l. rewrite Hl. repeat split; [|done].
        apply elem_of_app. right. apply elem_of_cons. by left.
Qed.

(** X17: a prompt without a default (or with a falsy one) is asked
    again until the line is not empty. With the lines [blanks], all
    empty, then [l], not empty, on the console, [_get_input] returns
    [l], shows the first prompt and one more for each blank line, logs
    one error for each blank line and leaves the lines after [l]; when
    all the lines left are empty it logs each of them and ends in
    [EOFError]; and whenever it returns, what it returns is not empty
    and holds no newline. *)
Theorem get_input_required text default c :
  default_truthy default = false ->
  (forall blanks l rest,
     lines (stdin c) = blanks ++ l :: rest ->
     Forall (fun b => b = EmptyString) blanks ->
     l <> EmptyString ->
     exists c',
       _get_input text default c = (c', inr l)
       /\ lines (stdin c') = rest
       /\ prompts c'
          = prompts c ++ Enter text None
              :: replicate (length blanks) (PleaseEnter text)
       /\ logged c' = logged c ++ replicate (length blanks) (blank_record text)
       /\ values c' = values c /\ net c' = net c)
  /\ (Forall (fun b => b = EmptyString) (lines (stdin c)) ->
      exists c',
        _get_input text default c = (c', inl EOFError)
        /\ logged c'
           = logged c ++ replicate (length (lines (stdin c))) (blank_record text)
        /\ values c' = values c /\ net c' = net c)
  /\ (forall c' v,
        _get_input text default c = (c', inr v) ->
        v <> EmptyString /\ lacks "010" v = true).
Proof.
  intros Hd. split; [|split].
  - intros blanks l rest Hl Hb Hne.
    edestruct get_input_filled as (s' & -> & Hs'); [done..|].
    eexists. split; [done|]. by simpl.
  - intros Hb. rewrite get_input_blanks by done. eexists. split; [done|]. by simpl.
  - intros c' v H. apply get_input_inv in H as (_ & _ & _ & _ & _ & [H|H]); [done|].
    destruct H as (v' & [= <-] & Hin & Hne). split; [by apply Hne|].
    pose proof (lines_lack_newline (stdin c)) as Hall.
    rewrite Forall_forall in Hall. by apply Hall.
Qed.

Lemma get_input_required_witness :
  exists c',
    _get_input "Bucket Name" None demo_console.c0 = (c', inr "my-bucket")
    /\ lines (stdin c') = ["docs/notes.txt"]
    /\ prompts c' = [Enter "Bucket Name" None; PleaseEnter "Bucket Name"]
    /\ logged c' = [blank_record "Bucket Name"]
    /\ values c' = values demo_console.c0 /\ net c' = net demo_console.c0.
Proof.
  destruct (get_input_required "Bucket Name" None demo_console.c0 eq_refl)
    as (H & _ & _).
  apply (H [EmptyString] "my-bucket" ["docs/notes.txt"] eq_refl).
  - by repeat constructor.
  - discriminate.
Defined.


(** ** The questions of a command *)

Lemma asked_refl c : asked c c.
Proof.
  repeat split; try done; [by left|]. exists []. by rewrite app_nil_r.
Qed.

Lemma asked_trans c1 c2 c3 : asked c1 c2 -> asked c2 c3 -> asked c1 c3.
Proof.
  intros (H1 & H2 & H3 & H4 & H5 & H6 & l1 & H7 & H8)
         (G1 & G2 & G3 & G4 & G5 & G6 & l2 & G7 & G8).
  assert (test_file c2 = test_file c1) as Ht by (unfold test_file; by rewrite H2).
  repeat split; try congruence.
  - intros p. destruct (H6 p) as [Hp | (Hp & Hn & Hs)], (G6 p) as [Gp | (Gp & Gn & Gs)].
    + left. congruence.
    + right. rewrite Ht in Gp. rewrite Hp in Gn. by repeat split.
    + right. repeat split; [done..|]. congruence.
    + congruence.
  - exists (l1 ++ l2). split; [|by apply Forall_app].
    by rewrite G7, H7, <- (assoc_L (++)).
Qed.

(** A step that leaves all but the console, the prompts and the values
    as they are. *)
Lemma asked_same c c' :
  writable c' = writable c -> module_dir c' = module_dir c ->
  net c' = net c -> logged c' = logged c -> asked c c'.
Proof.
  intros H1 H2 H3 H4. unfold asked, kept_or_written. rewrite H1, H2, H3, H4.
  repeat split; try done; [by left|]. exists []. by rewrite app_nil_r.
Qed.

Lemma asked_files c c' p contents :
  asked c c' -> files (net c) p = Some contents -> files (net c') p = Some contents.
Proof.
  intros (_ & _ & _ & _ & _ & H & _) Hp.
  destruct (H p) as [-> | (_ & Hn & _)]; [done|congruence].
Qed.

Lemma create_new_file_inv c c' r :
  _create_new_file c = (c', r) ->
  asked c c' /\ values c' = values c /\ stdin c' = stdin c
  /\ prompts c' = prompts c /\ logged c' = logged c
  /\ (r = inl AttributeError /\ c' = c
      \/ r = inr (test_file c) /\ is_Some (files (net c') (test_file c))).
Proof.
  unfold _create_new_file, test_file.
  set (path := join (module_dir c) UPLOAD_FILE_NAME).
  rewrite cbind_eq. unfold try_except at 1, open_r.
  destruct (files (net c) path) as [contents|] eqn:Ef.
  - intros [= <- <-]. split; [apply asked_refl|]. repeat split; try done.
    right. by rewrite Ef.
  - unfold try_except. rewrite cbind_eq. unfold open_w.
    destruct (writable c path) eqn:Ew.
    + unfold write. simpl. intros [= <- <-]. simpl.
      split; [|repeat split; try done].
      * unfold asked, kept_or_written, with_file. simpl. repeat split; try done.
        -- intros p. destruct (String.eqb p path) eqn:Ep; [|by left].
           apply String.eqb_eq in Ep as ->. right. by repeat split.
        -- exists []. by rewrite app_nil_r.
      * right. split; [done|]. unfold with_file. simpl.
        by rewrite String.eqb_refl.
    + intros [= <- <-]. split; [apply asked_refl|]. repeat split; try done.
      by left.
Qed.

Lemma process_input_inv v c c' r :
  _process_input v c = (c', r) ->
  asked c c' /\ values c' = values c /\ stdin c' = stdin c
  /\ prompts c' = prompts c
  /\ (r = inl AttributeError
      \/ exists p, r = inr (Str p) /\ is_Some (files (net c') p)
                   /\ (p = v /\ v <> EmptyString /\ c' = c \/ p = test_file c)).
Proof.
  unfold _process_input. destruct (str_truthy v) eqn:Ev; simpl.
  - unfold try_except. rewrite cbind_eq. unfold open_r.
    destruct (files (net c) v) as [contents|] eqn:Ef.
    + intros [= <- <-]. split; [apply asked_refl|]. repeat split; try done.
      right. exists v. rewrite Ef. repeat split; [done|]. left.
      repeat split. by destruct v.
    + rewrite cbind_eq. simpl. rewrite cbind_eq.
      destruct (_create_new_file _) as [c1 r1] eqn:Ec.
      apply create_new_file_inv in Ec as (Ha & Hv & Hs & Hp & Hl & Hr).
      assert (asked c c1) as Ha'.
      { eapply asked_trans; [|exact Ha]. unfold asked, kept_or_written. simpl.
        repeat split; try done; [by left|]. exists [missing_record].
        split; [done|]. constructor; [by right|constructor]. }
      simpl in *.
      destruct Hr as [[-> ->] | [-> Hf]]; intros [= <- <-]; simpl;
        (split; [exact Ha'|]).
      * repeat split; try done. by left.
      * repeat split; try done. right. eexists. repeat split; [done|]. by right.
  - rewrite cbind_eq.
    destruct (_create_new_file c) as [c1 r1] eqn:Ec.
    apply create_new_file_inv in Ec as (Ha & Hv & Hs & Hp & Hl & Hr).
    destruct Hr as [[-> ->] | [-> Hf]]; intros [= <- <-];
      (split; [exact Ha|]).
    + repeat split; try done. by left.
    + repeat split; try done.
      right. eexists. repeat split; [done|]. by right.
Qed.

Lemma for_each_cons {A} (x : A) l body c :
  for_each (x :: l) body c
  = match body x c with
    | (c', inl e) => (c', inl e)
    | (c', inr _) => for_each l body c'
    end.
Proof. reflexivity. Qed.

Lemma inputs_inv ps order :
  forall c c' r,
    (forall k, k ∈ order -> is_Some (ps !! k)) ->
    map_Forall (fun _ ui => forall p, ui_processing ui = Some p -> tame p) ps ->
    get_user_input_values (Some ps) order c = (c', r) ->
    questions_done ps order c c' r.
Proof.
  unfold get_user_input_values.
  match goal with |- context [for_each _ ?f] => set (body := f) end.
  induction order as [|x order IH]; intros c c' r Hdom Htame.
  - intros [= <- <-]. split; [apply asked_refl|]. split; [done|].
    right; right. split; [done|]. intros k ui Hk. by apply elem_of_nil in Hk.
  - rewrite for_each_cons. unfold body at 1.
    destruct (Hdom x) as [ui Hui]; [apply elem_of_cons; by left|].
    rewrite Hui, !cbind_eq.
    destruct (_get_input (ui_text ui) (ui_default ui) c) as [c1 r1] eqn:E1.
    apply get_input_inv in E1 as (Hw1 & Hm1 & Hv1 & Hn1 & Hl1 & Hr1).
    assert (asked c c1) as Ha1.
    { unfold asked, kept_or_written. rewrite Hw1, Hm1, Hn1.
      repeat split; try done; [by left|].
      destruct Hl1 as (more & Hmore & Hall). exists more. split; [done|].
      eapply Forall_impl; [exact Hall|]. intros y ->. left. by eexists. }
    destruct Hr1 as [-> | (s & -> & Hin & Hne)].
    { intros [= <- <-]. split; [done|]. split; [by rewrite Hv1|]. by left. }
    assert (lacks "010" s = true) as Hlack.
    { pose proof (lines_lack_newline (stdin c)) as Hall.
      rewrite Forall_forall in Hall. by apply Hall. }
    assert (forall (c2 : state) (a : answer),
              asked c1 c2 -> values c2 = values c1 ->
              (forall c3, asked c2 c3 -> good_value ui c3 a) ->
              for_each order body
                (State (stdin c2) (prompts c2) (logged c2) (writable c2)
                   (module_dir c2) (<[x := a]> (values c2)) (net c2))
              = (c', r) ->
              questions_done ps (x :: order) c c' r)
      as Hrest.
    { intros c2 a Ha2 Hv2 Hgood Hrun.
      apply IH in Hrun as (Ha3 & Hout & Hr); [|intros k Hk; apply Hdom,
        elem_of_cons; by right|done].
      assert (asked c2 c') as Ha2'.
      { destruct Ha3 as (G1 & G2 & G3 & G4 & G5 & G6 & G7). by repeat split. }
      split; [by eapply asked_trans; [eapply asked_trans|]|].
      split.
      { intros k Hk. rewrite Hout by (intros ?; apply Hk, elem_of_cons; by right).
        simpl. rewrite lookup_insert_ne
          by (intros ->; apply Hk, elem_of_cons; by left).
        by rewrite Hv2, Hv1. }
      destruct Hr as [-> | [[-> Hr] | [-> Hr]]]; [by left|by right; left|].
      right; right. split; [done|]. intros k ui0 Hk Hk0.
      destruct (decide (k ∈ order)) as [Hin'|Hnin]; [by apply Hr|].
      apply elem_of_cons in Hk as [-> | Hk]; [|done].
      rewrite Hui in Hk0. injection Hk0 as <-.
      exists a. split; [|by apply Hgood].
      rewrite Hout by done. simpl. by rewrite lookup_insert_eq. }
    destruct (ui_processing ui) as [p|] eqn:Ep.
    + rewrite cbind_eq. destruct (p s c1) as [c2 r2] eqn:E2.
      pose proof (Htame x ui Hui p Ep s c1 c2 r2 E2) as (Ha2 & Hv2 & Hs2 & Hr2).
      destruct Hr2 as [-> | [a ->]].
      { simpl. intros [= <- <-]. split; [by eapply asked_trans|].
        split; [by rewrite Hv2, Hv1|]. right; left. split; [done|].
        by exists x, ui, p, s, c1, c2. }
      unfold store. simpl. apply Hrest; [done..|].
      intros c3 Ha3. exists s. split; [done|]. split; [done|].
      rewrite Ep. by exists c1, c2.
    + rewrite cbind_eq. unfold mret, C_ret, cret, store.
      apply (Hrest c1); [apply asked_refl|done|].
      intros c3 Ha3. exists s. split; [done|]. split; [done|]. by rewrite Ep.
Qed.

Lemma tame_process_input : tame _process_input.
Proof.
  intros s c c' r H. apply process_input_inv in H as (Ha & Hv & Hs & _ & Hr).
  split; [done|]. split; [done|]. split; [done|].
  destruct Hr as [-> | (p & -> & _)]; [by left|right; by eexists].
Qed.

Lemma tame_comma_separated : tame comma_separated.
Proof.
  intros s c c' r [= <- <-]. split; [apply asked_refl|].
  split; [done|]. split; [done|]. right; by eexists.
Qed.

Lemma parameters_processing self ps :
  parameters self = Some ps ->
  map_Forall
    (fun _ ui =>
       forall p, ui_processing ui = Some p ->
         p = comma_separated
         \/ p = _process_input /\ kind self = InsertObjectCommand) ps.
Proof.
  destruct self as [k d cl]. unfold parameters.
  destruct k; simpl; intros [= <-];
    repeat first [ apply map_Forall_insert_2 | apply map_Forall_empty ];
    simpl; intros p Hp; try discriminate Hp; injection Hp as <-;
    by auto.
Qed.

Lemma parameters_tame self ps :
  parameters self = Some ps ->
  map_Forall (fun _ ui => forall p, ui_processing ui = Some p -> tame p) ps.
Proof.
  intros H%parameters_processing. eapply map_Forall_impl; [exact H|].
  intros k ui Hui p Hp. destruct (Hui p Hp) as [-> | [-> _]];
    [apply tame_comma_separated | apply tame_process_input].
Qed.

Lemma parameters_keys self ps k :
  parameters self = Some ps -> k ∈ keys self -> is_Some (ps !! k).
Proof.
  destruct self as [kd d cl]. unfold parameters, keys.
  destruct kd; simpl; intros [= <-] Hk;
    repeat (apply elem_of_cons in Hk as [-> | Hk]);
    try (by apply elem_of_nil in Hk);
    rewrite ?lookup_insert_eq, ?lookup_insert_ne by done;
    rewrite ?lookup_insert_eq, ?lookup_insert_ne by done;
    rewrite ?lookup_insert_eq, ?lookup_insert_ne by done;
    rewrite ?lookup_singleton_eq; by eexists.
Qed.

Lemma mbind_eq {A B} (m : M A) (k : A -> M B) w :
  (x ← m; k x) w
  = match m w with
    | (w', inl e) => (w', inl e)
    | (w', inr a) => k a w'
    end.
Proof. reflexivity. Qed.

Lemma run_api_eq self c op :
  operation_of self (values c) = Some op ->
  _run_api_command self c
  = (with_net c (call (_gcs_client self) op (net c)).1,
     match (call (_gcs_client self) op (net c)).2 with
     | inl e => inl (Exn e)
     | inr x => inr (result_of self (values c) x)
     end).
Proof.
  destruct self as [k d cl]. unfold operation_of, _run_api_command, result_of.
  unfold str_of, list_of. cbn [kind _gcs_client].
  destruct k; intros H;
    repeat match type of H with
           | context [values c !! ?key] =>
               let E := fresh "E" in
               destruct (values c !! key) as [[?|?]|] eqn:E; simpl in H;
               try discriminate H
           end;
    injection H as <-;
    unfold call; rewrite mbind_eq;
    repeat (rewrite cbind_eq; unfold str_value, list_value; cbn [values];
            rewrite ?E, ?E0, ?E1, ?E2, ?E3, ?E4, ?E5);
    unfold client;
    match goal with
    | |- context [?m (net c)] =>
        match type of (m (net c)) with
        | (world * _)%type => destruct (m (net c)) as [w [e|x]]
        end
    end;
    cbn [values fst snd with_net];
    repeat (rewrite ?cbind_eq; unfold str_value, list_value; cbn [values];
            rewrite ?E, ?E0, ?E1, ?E2, ?E3, ?E4, ?E5);
    reflexivity.
Qed.

Lemma comma_separated_returns s c c' :
  comma_separated s c = (c', inl AttributeError) -> False.
Proof. by intros [= ]. Qed.

(** The questions of a command, asked in the order of its
    dictionary. *)
Lemma inputs_done self order c c1 r :
  order ≡ₚ keys self ->
  get_user_input_values (parameters self) order c = (c1, r) ->
  asked c c1
  /\ (r = inl EOFError
      \/ r = inl AttributeError /\ kind self = InsertObjectCommand
      \/ r = inr tt
         /\ forall k ui,
              k ∈ keys self ->
              (parameters self ≫= fun ps => ps !! k) = Some ui ->
              exists v, values c1 !! k = Some v /\ good_value ui c1 v).
Proof.
  intros Hperm. destruct (parameters self) as [ps|] eqn:Eps.
  - intros H. apply inputs_inv in H as (Ha & _ & Hr).
    + split; [done|]. destruct Hr as [-> | [[-> Hr] | [-> Hr]]]; [by left| |].
      * right; left. split; [done|].
        destruct Hr as (k & ui & p & s & c0 & c0' & Hk & Hp & Hrun).
        pose proof (parameters_processing self ps Eps k ui Hk p Hp)
          as [-> | [_ Hkind]]; [|done].
        by apply comma_separated_returns in Hrun.
      * right; right. split; [done|]. intros k ui Hk Hui. simpl in Hui.
        apply Hr; [|done]. by rewrite Hperm.
    + intros k Hk. apply (parameters_keys self); [done|]. by rewrite <- Hperm.
    + by apply (parameters_tame self).
  - simpl. intros [= <- <-]. split; [apply asked_refl|].
    right; right. split; [done|]. by intros k ui _ [=].
Qed.

Lemma good_plain ui c v :
  ui_processing ui = None -> good_value ui c v ->
  exists s, v = Str s /\ lacks "010" s = true
            /\ (default_truthy (ui_default ui) = false -> s <> EmptyString).
Proof. intros Hp (s & Hl & Hne & Hv). rewrite Hp in Hv. by exists s. Qed.

Lemma good_pieces ui c v :
  ui_processing ui = Some comma_separated -> good_value ui c v ->
  exists s, v = List (split "," s) /\ lacks "010" s = true
            /\ (default_truthy (ui_default ui) = false -> s <> EmptyString).
Proof.
  intros Hp (s & Hl & Hne & Hv). rewrite Hp in Hv.
  destruct Hv as (c0 & c1 & [= <- <-] & _). by exists s.
Qed.

Lemma good_path ui c v :
  ui_processing ui = Some _process_input -> good_value ui c v ->
  exists p, v = Str p /\ is_Some (files (net c) p).
Proof.
  intros Hp (s & Hl & Hne & Hv). rewrite Hp in Hv.
  destruct Hv as (c0 & c1 & Hrun & Ha).
  apply process_input_inv in Hrun as (_ & _ & _ & _ & [[=] | (p & [= ->] & Hf & _)]).
  exists p. split; [done|]. destruct Hf as [contents Hf].
  exists contents. by eapply asked_files.
Qed.

Lemma run_command_eq self order ve c :
  run_command self order ve c
  = match get_user_input_values (parameters self) order c with
    | (c1, inl e) => (c1, inl e)
    | (c1, inr _) =>
        match _run_api_command self c1 with
        | (c2, inl (Exn e)) => (with_failure self ve c2 e, inl (Exn e))
        | (c2, inl e) => (c2, inl e)
        | (c2, inr result) => _process_result self result c2
        end
    end.
Proof.
  unfold run_command. rewrite cbind_eq.
  destruct (get_user_input_values _ _ _) as [c1 [e|[]]]; [done|].
  rewrite cbind_eq. unfold try_except.
  destruct (_run_api_command self c1) as [c2 [e|x]]; [|done].
  destruct e as [e| | | |]; try done. destruct e; try done.
  unfold with_failure. simpl. by destruct (ve name).
Qed.

Ltac in_list := repeat first [apply list_elem_of_here | apply list_elem_of_further].

Ltac lookup_key :=
  simpl;
  repeat first [ rewrite lookup_insert_eq
               | rewrite lookup_insert_ne by done
               | rewrite lookup_singleton_eq ];
  reflexivity.

(** The value of the key [k], from what the questions leave. *)
Ltac key_value H k :=
  let v := fresh "v" in
  let Hv := fresh "Hv" in
  let Hg := fresh "Hg" in
  edestruct (H k) as (v & Hv & Hg); [in_list | lookup_key |];
  first
    [ apply good_plain in Hg as (? & -> & ? & ?); [|reflexivity]
    | apply good_pieces in Hg as (? & -> & ? & ?); [|reflexivity]
    | apply good_path in Hg as (? & -> & ?); [|reflexivity] ].

Lemma inputs_operation self c1 :
  (forall k ui,
     k ∈ keys self ->
     (parameters self ≫= fun ps => ps !! k) = Some ui ->
     exists v, values c1 !! k = Some v /\ good_value ui c1 v) ->
  exists op, operation_of self (values c1) = Some op.
Proof.
  destruct self as [kd d cl]. unfold keys, parameters, operation_of. cbn [kind].
  unfold str_of, list_of.
  destruct kd; intros H.
  - by eexists.
  - key_value H "bucket". rewrite Hv. by eexists.
  - key_value H "bucket". rewrite Hv. by eexists.
  - key_value H "bucket". rewrite Hv. by eexists.
  - key_value H "bucket". rewrite Hv. by eexists.
  - key_value H "bucket". key_value H "origins". key_value H "methods".
    key_value H "headers". key_value H "age".
    rewrite Hv, Hv0, Hv1, Hv2, Hv3. by eexists.
  - key_value H "bucket". rewrite Hv. by eexists.
  - key_value H "bucket". key_value H "object". rewrite Hv, Hv0. by eexists.
  - key_value H "bucket". key_value H "object". rewrite Hv, Hv0. by eexists.
  - key_value H "bucket". key_value H "object". rewrite Hv, Hv0. by eexists.
  - key_value H "bucket". key_value H "file-path". key_value H "object".
    key_value H "content-type". key_value H "encoding". key_value H "acl".
    rewrite Hv, Hv0, Hv1, Hv2, Hv3, Hv4. by eexists.
  - key_value H "original-bucket". key_value H "original-object".
    key_value H "new-bucket". key_value H "new-object".
    rewrite Hv, Hv0, Hv1, Hv2. by eexists.
  - key_value H "bucket". key_value H "object". rewrite Hv, Hv0. by eexists.
Qed.

Lemma inputs_net ps order :
  forall c c' r,
    map_Forall
      (fun _ ui => forall p, ui_processing ui = Some p -> p = comma_separated) ps ->
    get_user_input_values (Some ps) order c = (c', r) ->
    net c' = net c.
Proof.
  unfold get_user_input_values.
  induction order as [|x order IH]; intros c c' r Hpure.
  - by intros [= <- <-].
  - rewrite for_each_cons.
    destruct (ps !! x) as [ui|] eqn:Hui; [|by intros [= <- <-]].
    rewrite cbind_eq.
    destruct (_get_input (ui_text ui) (ui_default ui) c) as [c1 r1] eqn:E1.
    apply get_input_inv in E1 as (_ & _ & _ & Hn1 & _ & _).
    destruct r1 as [e|s]; [by intros [= <- <-]|].
    rewrite cbind_eq.
    destruct (ui_processing ui) as [p|] eqn:Ep.
    + rewrite (Hpure x ui Hui p Ep). unfold comma_separated, mret, C_ret, cret, store.
      destruct (for_each _ _ _) as [c2 r2] eqn:E2.
      apply IH in E2; [|done]. intros [= <- <-]. by rewrite E2.
    + unfold mret, C_ret, cret, store.
      destruct (for_each _ _ _) as [c2 r2] eqn:E2.
      apply IH in E2; [|done]. intros [= <- <-]. by rewrite E2.
Qed.

Lemma inputs_net_kind self order c c1 r :
  kind self <> InsertObjectCommand ->
  get_user_input_values (parameters self) order c = (c1, r) ->
  net c1 = net c.
Proof.
  intros Hk. destruct (parameters self) as [ps|] eqn:Eps.
  - apply inputs_net. eapply map_Forall_impl; [by apply parameters_processing|].
    intros k ui H p Hp. by destruct (H p Hp) as [-> | [_ ?]].
  - by intros [= <- <-].
Qed.

Lemma with_net_same c : with_net c (net c) = c.
Proof. by destruct c. Qed.

(** A run of a command: the questions, then the one call of the
    client, then the log or the download. *)
Lemma run_command_cases self order ve c :
  order ≡ₚ keys self ->
  exists c1,
    asked c c1
    /\ (kind self <> InsertObjectCommand -> net c1 = net c)
    /\ ((exists e,
          (e = EOFError \/ e = AttributeError /\ kind self = InsertObjectCommand)
          /\ run_command self order ve c = (c1, inl e))
        \/ (exists op,
             operation_of self (values c1) = Some op
             /\ (forall k ui,
                   k ∈ keys self ->
                   (parameters self ≫= fun ps => ps !! k) = Some ui ->
                   exists v, values c1 !! k = Some v /\ good_value ui c1 v)
             /\ run_command self order ve c
                = match descriptor (_gcs_client self) op (net c1) with
                  | inl e => (with_failure self ve c1 e, inl (Exn e))
                  | inr (url, method, headers, body) =>
                      let req :=
                        built_request (_gcs_client self) url method headers body in
                      let c2 :=
                        with_net c1
                          (record (after_print (_gcs_client self) op (net c1)) req) in
                      match returns op
                              (interpret (auth_http (_gcs_client self) req)) with
                      | inl e => (with_failure self ve c2 e, inl (Exn e))
                      | inr x =>
                          _process_result self (result_of self (values c1) x) c2
                      end
                  end)).
Proof.
  intros Hperm. rewrite run_command_eq.
  destruct (get_user_input_values (parameters self) order c) as [c1 r] eqn:E.
  exists c1. pose proof E as Hnet.
  apply inputs_done in E as (Ha & Hr); [|done]. split; [done|].
  split; [intros Hk; by eapply inputs_net_kind|].
  destruct Hr as [-> | [[-> Hk] | [-> Hvals]]].
  - left. exists EOFError. split; [by left|done].
  - left. exists AttributeError. split; [by right|done].
  - right. destruct (inputs_operation self c1 Hvals) as [op Hop].
    exists op. split; [done|]. split; [done|].
    rewrite (run_api_eq _ _ _ Hop), call_descriptor.
    destruct (descriptor (_gcs_client self) op (net c1))
      as [e|[[[url method] headers] body]].
    + cbn [fst snd]. by rewrite with_net_same.
    + cbn [fst snd].
      by destruct (returns op (interpret (auth_http (_gcs_client self)
                     (built_request (_gcs_client self) url method headers body)))).
Qed.

(** ** Pieces of a string *)

Lemma split_pieces_cons sep c s :
  split_pieces sep (String c s)
  = if Ascii.eqb c sep
    then (EmptyString, (split_pieces sep s).1 :: (split_pieces sep s).2)
    else (String c (split_pieces sep s).1, (split_pieces sep s).2).
Proof. cbn [split_pieces]. by destruct (split_pieces sep s). Qed.

Lemma last_piece_eq sep s :
  last_piece sep s = List.last (split_pieces sep s).2 (split_pieces sep s).1.
Proof. unfold last_piece. by destruct (split_pieces sep s). Qed.

Lemma last_cons_default {A} (l : list A) a d : List.last (a :: l) d = List.last l a.
Proof.
  revert a d. induction l as [|b l IH]; intros a d; [done|].
  change (List.last (b :: l) d = List.last (b :: l) a). by rewrite !IH.
Qed.

Lemma last_default {A} (l : list A) d d' : l <> [] -> List.last l d = List.last l d'.
Proof. destruct l as [|a l]; [done|]. intros _. by rewrite !last_cons_default. Qed.

Lemma split_pieces_slash s :
  if has_slash s then (split_pieces "/" s).2 <> []
  else split_pieces "/" s = (s, []).
Proof.
  induction s as [|c s IH]; [done|].
  rewrite has_slash_cons, split_pieces_cons, (Ascii.eqb_sym "/" c).
  destruct (Ascii.eqb c "/"); [done|]. simpl.
  destruct (has_slash s); [done|]. by rewrite IH.
Qed.

(** [s.split('/')[-1]] is what follows the last slash. *)
Lemma last_piece_basename s : last_piece "/" s = basename s.
Proof.
  induction s as [|c s IH]; [done|].
  rewrite last_piece_eq, split_pieces_cons, basename_cons.
  rewrite last_piece_eq in IH. pose proof (split_pieces_slash s) as Hs.
  destruct (Ascii.eqb c "/").
  - cbn [fst snd]. by rewrite last_cons_default.
  - cbn [fst snd]. destruct (has_slash s).
    + by rewrite (last_default _ _ (split_pieces "/" s).1).
    + by rewrite Hs.
Qed.

Lemma download_name o :
  (if has_slash o then last_piece "/" o else o) = basename o.
Proof.
  destruct (has_slash o) eqn:E; [apply last_piece_basename|].
  by rewrite basename_plain.
Qed.

(** ** The end of a run *)

Lemma process_result_default self result c :
  kind self <> GetObjectCommand ->
  _process_result self result c
  = (if result_truthy result
     then with_record c (mkLogRecord INFO (arg_of result) [])
     else c, inr tt).
Proof.
  unfold _process_result. destruct (kind self); try done;
    intros _; by destruct (result_truthy result).
Qed.

Lemma process_result_download self s c o :
  kind self = GetObjectCommand ->
  values c !! "object" = Some (Str o) ->
  _process_result self (Content s) c
  = if writable c (basename o)
    then (State (stdin c) (prompts c)
            (logged c
               ++ [mkLogRecord INFO
                     (AStr ("File downloaded locally to " +:+ basename o)) []])
            (writable c) (module_dir c) (values c)
            (with_file (with_file (net c) (basename o) EmptyString) (basename o) s),
          inr tt)
    else (c, inl (Exn IOError)).
Proof.
  intros Hk Ho. unfold _process_result. rewrite Hk, cbind_eq.
  unfold str_value. rewrite Ho, download_name, cbind_eq. unfold open_w.
  by destruct (writable c (basename o)).
Qed.



Lemma net_with_failure self ve c e : net (with_failure self ve c e) = net c.
Proof. unfold with_failure. by destruct (failure_record self ve e). Qed.


Lemma download_operation self vs op :
  kind self = GetObjectCommand ->
  operation_of self vs = Some op ->
  exists b o,
    op = GetObject b o
    /\ vs !! "bucket" = Some (Str b) /\ vs !! "object" = Some (Str o).
Proof.
  unfold operation_of, str_of. intros ->. 
  destruct (vs !! "bucket") as [[b|?]|]; try discriminate.
  destruct (vs !! "object") as [[o|?]|]; try discriminate.
  simpl. intros [= <-]. by exists b, o.
Qed.


Lemma download_or_not self :
  kind self = GetObjectCommand \/ kind self <> GetObjectCommand.
Proof. destruct (kind self); by auto. Qed.





Lemma stdin_with_failure self ve c e : stdin (with_failure self ve c e) = stdin c.
Proof. unfold with_failure. by destruct (failure_record self ve e). Qed.

Lemma logged_with_failure self ve c e :
  logged (with_failure self ve c e)
  = logged c ++ match failure_record self ve e with
                | Some x => [x]
                | None => []
                end.
Proof.
  unfold with_failure. destruct (failure_record self ve e); [done|].
  by rewrite app_nil_r.
Qed.

(** X19: what a run of a command logs. After the records of its
    questions (blank lines, a path that cannot be read), a run adds at
    most one record: when the call raises a [GcsError], the record
    [<description> failed: <the exception>]; when it raises a
    [ValueError], the same with the message of the exception, which is
    empty for a [UnicodeDecodeError] (an exception of the transport
    whose class is a [ValueError] counts as one); in both cases at the
    level [ERROR] and before the exception goes on to the caller; for
    any other exception nothing; and when the run returns, nothing or
    one record at the level [INFO]. *)
Theorem run_command_logs self order ve c c' r :
  order ≡ₚ keys self ->
  run_command self order ve c = (c', r) ->
  exists questions final,
    logged c' = logged c ++ questions ++ final
    /\ Forall question_record questions
    /\ final_records self ve r final.
Proof.
  intros Hperm Hrun.
  destruct (run_command_cases self order ve c Hperm)
    as (c1 & Ha & Hnet & [(e' & He' & Hr) | (op & Hop & Hvals & Hr)]);
    rewrite Hr in Hrun;
    pose proof Ha as (_ & _ & _ & _ & _ & _ & questions & Hlog & Hq);
    exists questions.
  { injection Hrun as <- <-. exists []. rewrite app_nil_r.
    repeat split; [done..|]. by destruct He' as [-> | [-> _]]. }
  destruct (descriptor (_gcs_client self) op (net c1))
    as [e0|[[[url method] headers] body]] eqn:Ed.
  - injection Hrun as <- <-. eexists. rewrite logged_with_failure, Hlog.
    rewrite <- (assoc_L (++)). by repeat split.
  - cbn zeta in Hrun. destruct (returns op _) as [e0|x] eqn:Er.
    + injection Hrun as <- <-. eexists. rewrite logged_with_failure.
      cbn [logged with_net]. rewrite Hlog, <- (assoc_L (++)). by repeat split.
    + destruct (download_or_not self) as [Hk|Hk].
      * destruct (download_operation _ _ _ Hk Hop) as (b & o & -> & Hb & Ho).
        rewrite returns_content in Er by done.
        destruct (interpret _) as [?|rc]; [done|]. injection Er as <-.
        unfold result_of in Hrun. rewrite Hk in Hrun.
        rewrite (process_result_download _ _ _ o) in Hrun by done.
        cbn [writable with_net] in Hrun.
        destruct (writable c1 (basename o)); injection Hrun as <- <-.
        -- eexists. cbn [logged with_net]. rewrite Hlog, <- (assoc_L (++)).
           repeat split; [done|]. right. by eexists.
        -- exists []. cbn [logged with_net]. rewrite Hlog, app_nil_r.
           by repeat split.
      * rewrite process_result_default in Hrun by done.
        injection Hrun as <- <-.
        destruct (result_truthy _).
        -- eexists. cbn [logged with_net with_record].
           rewrite Hlog, <- (assoc_L (++)). repeat split; [done|].
           right. by eexists.
        -- exists []. cbn [logged with_net]. rewrite Hlog, app_nil_r.
           repeat split; [done|]. by left.
Qed.

Lemma run_command_logs_witness :
  exists questions final,
    logged (run_command demo_console.get_object_command ["object"; "bucket"]
              demo_console.no_value_error demo_console.c0).1
    = logged demo_console.c0 ++ questions ++ final
    /\ Forall question_record questions
    /\ final_records demo_console.get_object_command demo_console.no_value_error
         (inr tt) final.
Proof.
  apply (run_command_logs demo_console.get_object_command ["object"; "bucket"]
           demo_console.no_value_error demo_console.c0).
  - apply perm_swap.
  - vm_compute. reflexivity.
Defined.


(** ** [InsertBucketCommand] *)

Lemma inputs_bucket ps c blanks name rest :
  ps = {[ "bucket" := DEFAULT_BUCKET_USER_INPUT ]} ->
  lines (stdin c) = blanks ++ name :: rest ->
  Forall (fun b => b = EmptyString) blanks ->
  name <> EmptyString ->
  exists s',
    get_user_input_values (Some ps) ["bucket"] c
    = (State s'
         (prompts c ++ Enter "Bucket Name" None
            :: replicate (length blanks) (PleaseEnter "Bucket Name"))
         (logged c ++ replicate (length blanks) (blank_record "Bucket Name"))
         (writable c) (module_dir c) (<["bucket" := Str name]> (values c)) (net c),
       inr tt)
    /\ lines s' = rest.
Proof.
  intros -> Hl Hb Hne. unfold get_user_input_values.
  rewrite for_each_cons, lookup_singleton_eq, cbind_eq.
  edestruct (get_input_filled "Bucket Name" None) as (s' & -> & Hs'); [done..|].
  exists s'. by split.
Qed.

Lemma lacks_last_char c s : lacks c s = true -> last_char s <> Some c.
Proof.
  induction s as [|a s IH]; [done|]. cbn [lacks].
  intros [Ha Hs]%andb_true_iff. rewrite last_char_cons.
  destruct s as [|b s]; [|by apply IH].
  intros [= ->]. by rewrite Ascii.eqb_refl in Ha.
Qed.

Lemma first_violated_none name :
  first_violated name = None -> forall r, holds r name = true.
Proof.
  unfold first_violated. intros H. apply violated_nil.
  by destruct (violated name).
Qed.

(** X20: [InsertBucketCommand] checks the name as typed. With blank
    lines and then the line [name] on the console, the command asks
    again for each blank line and then, when [name] breaks a rule, logs
    the message of the first rule broken and raises the [ValueError]
    without sending anything; when [name] keeps the four rules it sends
    the one request for the bucket [name], without body and without
    ACL, and logs [Bucket "name" created] if the transport accepts it,
    the failure if not. A line of the console holds no newline, so the
    request is sent exactly when the name keeps the four rules. *)
Theorem insert_bucket_command self ve c blanks name rest :
  kind self = InsertBucketCommand ->
  lines (stdin c) = blanks ++ name :: rest ->
  Forall (fun b => b = EmptyString) blanks ->
  name <> EmptyString ->
  exists c' r,
    run_command self ["bucket"] ve c = (c', r)
    /\ lines (stdin c') = rest
    /\ exists final,
         logged c'
         = logged c ++ replicate (length blanks) (blank_record "Bucket Name") ++ final
         /\ match first_violated name with
            | Some rule =>
                r = inl (Exn (ValueError (message rule name)))
                /\ sent (net c') = sent (net c)
                /\ final = [mkLogRecord ERROR (AStr "%s failed: %s")
                              [AStr (description self); AStr (message rule name)]]
            | None =>
                let req :=
                  built_request (_gcs_client self)
                    (bucket_host (_gcs_client self) name) (Some "PUT") (Some ∅) None in
                sent (net c') = sent (net c) ++ [req]
                /\ match interpret (auth_http (_gcs_client self) req) with
                   | inl e =>
                       r = inl (Exn e)
                       /\ final = match failure_record self ve e with
                                  | Some x => [x]
                                  | None => []
                                  end
                   | inr _ =>
                       r = inr tt
                       /\ final = [mkLogRecord INFO
                                     (AStr ("Bucket " +:+ dq +:+ name +:+ dq
                                              +:+ " created")) []]
                   end
            end.
Proof.
  intros Hk Hl Hb Hne. rewrite run_command_eq.
  assert (parameters self = Some {[ "bucket" := DEFAULT_BUCKET_USER_INPUT ]}) as ->.
  { unfold parameters. by rewrite Hk. }
  edestruct (inputs_bucket _ c blanks name rest eq_refl) as (s' & -> & Hs'); [done..|].
  set (c1 := State s' _ _ _ _ _ _).
  assert (operation_of self (values c1) = Some (InsertBucket name None None)) as Hop.
  { unfold operation_of, str_of. rewrite Hk. cbn [values c1].
    by rewrite lookup_insert_eq. }
  rewrite (run_api_eq _ _ _ Hop). unfold call. rewrite mbind_eq.
  assert (lacks "010" name = true) as Hlack.
  { pose proof (lines_lack_newline (stdin c)) as Hall.
    rewrite Forall_forall in Hall. apply Hall. rewrite Hl.
    apply elem_of_app. right. apply elem_of_cons. by left. }
  destruct (first_violated name) as [rule|] eqn:Ev.
  - rewrite (insert_bucket_raises_first _ name None None _ rule);
      [|done|by apply lacks_last_char|done].
    cbn [fst snd]. eexists _, _. split; [reflexivity|].
    rewrite stdin_with_failure, net_with_failure, logged_with_failure.
    subst c1. cbn [logged with_net net stdin failure_record].
    split; [done|].
    eexists. split; [by rewrite <- (assoc_L (++))|]. by repeat split.
  - rewrite insert_bucket_run by (by apply first_violated_none).
    cbn zeta. cbn [set_if].
    set (req := built_request _ _ _ _ _).
    destruct (interpret (auth_http (_gcs_client self) req)) as [e|[resp content]] eqn:Ei;
      cbn [content_of fst snd].
    + eexists _, _. split; [reflexivity|].
      rewrite stdin_with_failure, net_with_failure, logged_with_failure.
      subst c1. cbn [logged with_net net stdin].
      split; [done|].
      eexists. split; [by rewrite <- (assoc_L (++))|]. by repeat split.
    + unfold mret, M_ret, ret. cbn [fst snd].
      rewrite process_result_default by (by rewrite Hk).
      unfold result_of, str_of. rewrite Hk. cbn [values c1 with_net].
      rewrite lookup_insert_eq. cbn [default from_option id].
      eexists _, _. split; [reflexivity|].
      subst c1. cbn [result_truthy].
      change (str_truthy ("Bucket " +:+ dq +:+ name +:+ dq +:+ " created")) with true.
      cbn [logged with_net with_record net stdin arg_of].
      split; [done|].
      eexists. split; [by rewrite <- (assoc_L (++))|]. by repeat split.
Qed.

Lemma insert_bucket_command_witness :
  exists c' r,
    run_command demo_console.insert_bucket_command ["bucket"]
      demo_console.no_value_error demo_console.c0 = (c', r)
    /\ lines (stdin c') = ["docs/notes.txt"]
    /\ exists final,
         logged c' = [blank_record "Bucket Name"] ++ final
         /\ sent (net c')
            = [built_request demo.client "my-bucket.storage.googleapis.com"
                 (Some "PUT") (Some ∅) None]
         /\ r = inr tt
         /\ final = [mkLogRecord INFO
                       (AStr ("Bucket " +:+ dq +:+ "my-bucket" +:+ dq +:+ " created"))
                       []].
Proof.
  apply (insert_bucket_command demo_console.insert_bucket_command
           demo_console.no_value_error demo_console.c0 [EmptyString] "my-bucket"
           ["docs/notes.txt"] eq_refl eq_refl).
  - by repeat constructor.
  - discriminate.
Defined.


(** ** [GetObjectCommand] *)






(** ** [InsertObjectCommand] *)






(** ** Blank answers *)

Lemma blank_entries d (l : option (list string)) :
  strip d = d ->
  map (entry_text d) (entries_or (blank_list l) d)
  = map (entry_text d) (entries_or l d).
Proof.
  intros Hd. destruct l as [[|[|a s] [|y l]]|]; try reflexivity.
  simpl. unfold entry_text. rewrite Hd. simpl.
  by destruct (decide (d = EmptyString)) as [->|].
Qed.

Lemma left_out_call self op w :
  stripped_defaults self -> call self (left_out op) w = call self op w.
Proof.
  intros (Ho & Hm & Hh). destruct op; try reflexivity; cbn [left_out call].
  - rewrite !mbind_eq, !set_bucket_cors_run, !blank_entries by done.
    by destruct max_age_sec as [| | | | |[|a s]].
  - by destruct object_name as [[|??]|], content_type as [[|??]|],
      content_encoding as [[|??]|], acl as [[|??]|].
  - by destruct new_object_name as [[|??]|], acl as [[|??]|].
Qed.

(** X23: an optional answer that is left blank acts as an argument that
    is left out. With defaults free of surrounding whitespace, the call
    that a command makes with its values is the call without its blank
    optional values: for [SetBucketCorsCommand] a blank list, which
    [split] makes the one empty piece, gives the default of the client,
    and so does a blank max age; for [InsertObjectCommand] a blank name,
    type or encoding is taken from the file, and a blank ACL sends no
    [x-goog-acl] header, whatever default the prompt shows; for
    [CopyObjectCommand] a blank new name is the name of the original. *)
Theorem blank_answers_left_out self c op :
  stripped_defaults (_gcs_client self) ->
  operation_of self (values c) = Some op ->
  split "," EmptyString = [EmptyString]
  /\ _run_api_command self c
     = (with_net c (call (_gcs_client self) (left_out op) (net c)).1,
        match (call (_gcs_client self) (left_out op) (net c)).2 with
        | inl e => inl (Exn e)
        | inr x => inr (result_of self (values c) x)
        end).
Proof.
  intros Hs Hop. split; [done|].
  rewrite left_out_call by done. by apply run_api_eq.
Qed.

Lemma blank_answers_left_out_witness :
  split "," EmptyString = [EmptyString]
  /\ _run_api_command demo_console.set_bucket_cors_command demo_console.c_blank
     = (with_net demo_console.c_blank
          (call demo.client (SetBucketCors "my-bucket" None None None PyNone)
             (net demo_console.c_blank)).1,
        match (call demo.client (SetBucketCors "my-bucket" None None None PyNone)
                 (net demo_console.c_blank)).2 with
        | inl e => inl (Exn e)
        | inr x =>
            inr (result_of demo_console.set_bucket_cors_command
                   (values demo_console.c_blank) x)
        end).
Proof.
  apply (blank_answers_left_out demo_console.set_bucket_cors_command
           demo_console.c_blank
           (SetBucketCors "my-bucket" (Some [EmptyString]) (Some [EmptyString])
              (Some [EmptyString]) (PyStr EmptyString))).
  - by repeat split.
  - vm_compute. reflexivity.
Defined.


(** * The program *)

(** ** What a computation takes from the console *)

Lemma reads_ret {A} (a : A) : reads (mret a : C A).
Proof. by intros c c' r [= <- <-]. Qed.

Lemma reads_raise {A} e : reads (craise e : C A).
Proof. by intros c c' r [= <- <-]. Qed.

Lemma reads_bind {A B} (m : C A) (k : A -> C B) :
  reads m -> (forall a, reads (k a)) -> reads (x ← m; k x).
Proof.
  intros Hm Hk c c' r. rewrite cbind_eq.
  destruct (m c) as [c1 [e|a]] eqn:E.
  - intros [= <- <-]. by eapply Hm.
  - intros H. apply Hk in H. apply Hm in E. lia.
Qed.

Lemma reads_try {A} (m : C A) (handler : raised -> C A) :
  reads m -> (forall e, reads (handler e)) -> reads (try_except m handler).
Proof.
  intros Hm Hh c c' r. unfold try_except.
  destruct (m c) as [c1 [e|a]] eqn:E.
  - intros H. apply Hh in H. apply Hm in E. lia.
  - intros [= <- <-]. by eapply Hm.
Qed.

Lemma reads_same {A} (m : C A) :
  (forall c c' r, m c = (c', r) -> stdin c' = stdin c) -> reads m.
Proof. intros H c c' r E. by rewrite (H _ _ _ E). Qed.

Lemma reads_client {A} (m : M A) : reads (client m).
Proof.
  apply reads_same. intros c c' r. unfold client.
  destruct (m (net c)) as [w x]. by intros [= <- <-].
Qed.

Lemma reads_logging_error m a : reads (logging_error m a).
Proof. apply reads_same. by intros c c' r [= <- <-]. Qed.

Lemma reads_logging_info m a : reads (logging_info m a).
Proof. apply reads_same. by intros c c' r [= <- <-]. Qed.

Lemma reads_str_value key : reads (str_value key).
Proof.
  apply reads_same. intros c c' r. unfold str_value.
  by destruct (values c !! key) as [[?|?]|]; intros [= <- <-].
Qed.

Lemma reads_list_value key : reads (list_value key).
Proof.
  apply reads_same. intros c c' r. unfold list_value.
  by destruct (values c !! key) as [[?|?]|]; intros [= <- <-].
Qed.

Lemma reads_open_r path : reads (open_r path).
Proof.
  apply reads_same. intros c c' r. unfold open_r.
  by destruct (files (net c) path); intros [= <- <-].
Qed.

Lemma reads_open_w path : reads (open_w path).
Proof.
  apply reads_same. intros c c' r. unfold open_w.
  by destruct (writable c path); intros [= <- <-].
Qed.

Lemma reads_write path contents : reads (write path contents).
Proof. apply reads_same. by intros c c' r [= <- <-]. Qed.

Lemma reads_store key v : reads (store key v).
Proof. apply reads_same. by intros c c' r [= <- <-]. Qed.

Lemma readline_shorter a s :
  (String.length (readline (String a s)).2 < String.length (String a s))%nat.
Proof.
  revert a. induction s as [|b s IH]; intros a.
  - simpl. destruct (Ascii.eqb a "010"); simpl; lia.
  - cbn [readline]. destruct (Ascii.eqb a "010"); [simpl; lia|].
    specialize (IH b). cbn [readline] in IH.
    destruct (Ascii.eqb b "010"); [simpl in *; lia|].
    destruct (readline s). simpl in *. lia.
Qed.

(** [raw_input] takes at least one character, or the console is empty
    and it raises [EOFError]. *)
Lemma raw_input_takes p c c' r :
  raw_input p c = (c', r) ->
  r = inl EOFError /\ stdin c' = EmptyString /\ stdin c = EmptyString
  \/ (exists line, r = inr line)
     /\ (String.length (stdin c') < String.length (stdin c))%nat.
Proof.
  unfold raw_input. destruct (stdin c) as [|a s] eqn:Es.
  - intros [= <- <-]. by left.
  - pose proof (readline_shorter a s) as Hlen.
    destruct (readline (String a s)) as [line rest].
    intros [= <- <-]. right. split; [by eexists|]. done.
Qed.

Lemma reads_raw_input p : reads (raw_input p).
Proof.
  intros c c' r H. apply raw_input_takes in H as [(_ & -> & ->) | [_ H]]; lia.
Qed.

Lemma reads_while_blank rounds text required v :
  reads (while_blank rounds text required v).
Proof.
  revert v. induction rounds as [|rounds IH]; intros v; cbn [while_blank];
    destruct (negb (str_truthy v) && required);
    try apply reads_ret;
    (apply reads_bind; [apply reads_logging_error|intros _]);
    (apply reads_bind; [apply reads_raw_input|intros v']);
    [apply reads_ret|apply IH].
Qed.

Lemma reads_get_input text default : reads (_get_input text default).
Proof.
  intros c c' r. unfold _get_input.
  apply reads_bind; [apply reads_raw_input|intros v; apply reads_while_blank].
Qed.

Lemma reads_for_each {A} (l : list A) (body : A -> C unit) :
  (forall x, reads (body x)) -> reads (for_each l body).
Proof.
  intros Hb. induction l as [|x l IH]; [apply reads_ret|].
  cbn [for_each]. apply reads_bind; [apply Hb|by intros _].
Qed.

Lemma reads_create_new_file : reads _create_new_file.
Proof.
  intros c c' r H.
  by apply create_new_file_inv in H as (_ & _ & -> & _).
Qed.

Lemma reads_process_input v : reads (_process_input v).
Proof.
  intros c c' r H. by apply process_input_inv in H as (_ & _ & -> & _).
Qed.

Lemma reads_questions self order :
  reads (get_user_input_values (parameters self) order).
Proof.
  destruct (parameters self) as [ps|] eqn:Eps; [|apply reads_ret].
  unfold get_user_input_values. apply reads_for_each. intros key.
  destruct (ps !! key) as [ui|] eqn:Hui; [|apply reads_raise].
  apply reads_bind; [apply reads_get_input|intros v].
  apply reads_bind; [|intros a; apply reads_store].
  destruct (ui_processing ui) as [p|] eqn:Ep; [|apply reads_ret].
  pose proof (parameters_tame self ps Eps key ui Hui p Ep) as Ht.
  intros c c' r H. by apply Ht in H as (_ & _ & -> & _).
Qed.

Ltac reads_steps :=
  repeat first
    [ apply reads_ret | apply reads_raise | apply reads_client
    | apply reads_str_value | apply reads_list_value
    | apply reads_logging_error | apply reads_logging_info
    | apply reads_open_w | apply reads_write
    | apply reads_bind; [|intros ?] ].

Lemma reads_run_api self : reads (_run_api_command self).
Proof. unfold _run_api_command. destruct (kind self); reads_steps. Qed.

Lemma reads_process_result self result : reads (_process_result self result).
Proof.
  unfold _process_result.
  destruct (kind self);
    try (by destruct (result_truthy result); reads_steps).
  reads_steps. destruct result; reads_steps.
Qed.

Lemma reads_run_command self order ve : reads (run_command self order ve).
Proof.
  unfold run_command.
  apply reads_bind; [apply reads_questions|intros _].
  apply reads_bind; [|intros result; apply reads_process_result].
  apply reads_try; [apply reads_run_api|].
  intros [[]| | | |]; reads_steps. destruct (ve name); reads_steps.
Qed.

Lemma reads_show_menu commands : reads (show_menu commands).
Proof.
  unfold show_menu. reads_steps. apply reads_for_each. intros ic. reads_steps.
Qed.

(** ** The menu *)

Lemma client_print s c :
  client (print s) c
  = (with_net c (World (sent (net c)) (stdout (net c) ++ [s]) (files (net c))
                   (guess_type (net c))), inr tt).
Proof. reflexivity. Qed.

Lemma for_each_print {A} (f : A -> string) (l : list A) :
  forall c,
    for_each l (fun x => client (print (f x))) c
    = (with_net c (World (sent (net c)) (stdout (net c) ++ map f l) (files (net c))
                     (guess_type (net c))), inr tt).
Proof.
  induction l as [|x l IH]; intros c.
  - simpl. rewrite app_nil_r. by destruct c as [? ? ? ? ? ? []].
  - rewrite for_each_cons, client_print, IH. unfold with_net. cbn.
    by rewrite <- (assoc_L (++)).
Qed.

Lemma show_menu_eq commands c :
  show_menu commands c
  = (with_net c (World (sent (net c)) (stdout (net c) ++ menu_lines commands)
                   (files (net c)) (guess_type (net c))), inr tt).
Proof.
  unfold show_menu, menu_lines.
  rewrite cbind_eq, client_print, cbind_eq, for_each_print, client_print.
  unfold with_net. cbn. by rewrite <- !(assoc_L (++)).
Qed.

Lemma uncaught rt e :
  caught rt e = false ->
  exists name, e = Exn (TransportError name) /\ is_exception rt name = false.
Proof. destruct e as [[]| | | |]; try done. intros H. by eexists. Qed.

Lemma try_caught {A} rt (m : C A) (h : raised -> C A) c c' r :
  reads m ->
  (forall e c1 c2 r2,
     h e c1 = (c2, r2) -> stdin c2 = stdin c1 /\ exists a, r2 = inr a) ->
  try_except m (fun e => if caught rt e then h e else craise e) c = (c', r) ->
  (String.length (stdin c') <= String.length (stdin c))%nat
  /\ forall e, r = inl e -> caught rt e = false.
Proof.
  intros Hm Hh. unfold try_except.
  destruct (m c) as [c1 [e|a]] eqn:E; apply Hm in E.
  - destruct (caught rt e) eqn:Ec.
    + intros H. apply Hh in H as (Hs & a & ->). rewrite Hs. by split.
    + intros [= <- <-]. split; [done|]. by intros e' [= <-].
  - intros [= <- <-]. by split.
Qed.

(** A round, once the selection is read. *)
Lemma round_selected rt commands c line rest :
  lines (stdin c) = line :: rest ->
  exists left,
    lines left = rest
    /\ (String.length left < String.length (stdin c))%nat
    /\ round rt commands c
       = match int_ rt line with
         | None => (_ ← logging_error (AStr "Enter a number.") []; mret Again)
         | Some selection =>
             if (Z.of_nat (length commands) <? selection) || (selection <? 0) then
               _ ← logging_error (AStr "Selection not recognized.") []; mret Again
             else if selection =? Z.of_nat (length commands) then mret Break
             else
               try_except
                 (match commands !! Z.to_nat selection with
                  | Some command =>
                      _ ← run_command command (order rt (kind command))
                            (value_error rt);
                      mret Again
                  | None => craise IndexError
                  end)
                 (fun e =>
                    if caught rt e then
                      _ ← logging_error
                            (AStr "Error running command. Please try again.") [];
                      _ ← logging_error (AExn e) [];
                      mret Again
                    else craise e)
         end (at_selection commands c left).
Proof.
  intros Hl. unfold round. rewrite cbind_eq, show_menu_eq, cbind_eq.
  set (c0 := with_net c _).
  destruct (raw_input_line (Literal "Enter your selection: ") c0 line rest Hl)
    as (left & Hr & Hleft).
  pose proof (raw_input_takes _ _ _ _ Hr) as [(Heof & _) | [_ Hlt]]; [done|].
  exists left. split; [done|]. split; [exact Hlt|]. by rewrite Hr.
Qed.

Lemma round_eof rt commands c :
  stdin c = EmptyString ->
  round rt commands c
  = (at_selection commands c EmptyString, inl EOFError).
Proof.
  intros Hs. unfold round. rewrite cbind_eq, show_menu_eq, cbind_eq.
  unfold raw_input. cbn [stdin with_net]. by rewrite Hs.
Qed.

(** The round of a command: whatever the command raises is caught,
    unless it is not an [Exception], and the round ends at the foot of
    the body. *)
Lemma round_command rt commands c line rest n command :
  lines (stdin c) = line :: rest ->
  int_ rt line = Some (Z.of_nat n) ->
  commands !! n = Some command ->
  exists left,
    lines left = rest
    /\ round rt commands c
       = match run_command command (order rt (kind command)) (value_error rt)
                 (at_selection commands c left) with
         | (c1, inr _) => (c1, inr Again)
         | (c1, inl e) =>
             if caught rt e then (with_caught c1 e, inr Again) else (c1, inl e)
         end.
Proof.
  intros Hl Hn Hc.
  destruct (round_selected rt commands c line rest Hl) as (left & Hleft & _ & ->).
  exists left. split; [done|]. rewrite Hn.
  pose proof (lookup_lt_Some _ _ _ Hc) as Hlt.
  replace ((Z.of_nat (length commands) <? Z.of_nat n) || (Z.of_nat n <? 0))
    with false by (symmetry; apply orb_false_iff; split; apply Z.ltb_ge; lia).
  replace (Z.of_nat n =? Z.of_nat (length commands)) with false
    by (symmetry; apply Z.eqb_neq; lia).
  rewrite Nat2Z.id, Hc. unfold try_except. rewrite cbind_eq.
  destruct (run_command _ _ _ _) as [c1 [e|[]]]; [|done].
  by destruct (caught rt e).
Qed.

(** How a round can end. *)
Lemma round_cases rt commands c c' r :
  round rt commands c = (c', r) ->
  match r with
  | inr Break =>
      exists line rest,
        lines (stdin c) = line :: rest
        /\ int_ rt line = Some (Z.of_nat (length commands))
        /\ lines (stdin c') = rest
        /\ logged c' = logged c /\ sent (net c') = sent (net c)
  | inr Again => (String.length (stdin c') < String.length (stdin c))%nat
  | inl e =>
      stdin c = EmptyString /\ e = EOFError /\ stdin c' = EmptyString
      /\ logged c' = logged c /\ sent (net c') = sent (net c)
      \/ exists name, e = Exn (TransportError name) /\ is_exception rt name = false
  end.
Proof.
  destruct (lines (stdin c)) as [|line rest] eqn:Hl.
  { apply lines_nil in Hl. rewrite round_eof by done. intros [= <- <-]. by left. }
  destruct (round_selected rt commands c line rest Hl) as (left & Hleft & Hlt & ->).
  set (c0 := at_selection commands c left).
  assert (forall m a, (_ ← logging_error m a; mret Again) c0 = (c', r) ->
            r = inr Again /\ stdin c' = left) as Hlog.
  { by intros m a [= <- <-]. }
  destruct (int_ rt line) as [selection|] eqn:Hsel.
  2: { intros H. apply Hlog in H as [-> ->]. exact Hlt. }
  destruct (_ || _).
  { intros H. apply Hlog in H as [-> ->]. exact Hlt. }
  destruct (Z.eqb_spec selection (Z.of_nat (length commands))) as [->|Hne].
  { intros [= <- <-]. by exists line, rest. }
  intros H. pose proof H as H'. apply try_caught in H as [Hle Hc].
  - destruct r as [e|[|]].
    + right. apply uncaught. by apply Hc.
    + cbn [stdin c0 at_selection] in Hle. lia.
    + exfalso. unfold try_except in H'.
      destruct (match commands !! Z.to_nat selection with
                | Some command => _
                | None => craise IndexError
                end c0) as [c1 [e|x]] eqn:E.
      * by destruct (caught rt e).
      * injection H' as <- ->. revert E.
        destruct (commands !! Z.to_nat selection) as [command|]; [|done].
        rewrite cbind_eq. by destruct (run_command _ _ _ _) as [c2 [e|[]]].
  - destruct (commands !! Z.to_nat selection) as [command|].
    + apply reads_bind; [apply reads_run_command|intros _; apply reads_ret].
    + apply reads_raise.
  - intros e c2 c3 r3 [= <- <-]. split; [done|]. by eexists.
Qed.

Lemma loop_ends rt commands :
  forall rounds c,
    (String.length (stdin c) < rounds)%nat ->
    exists c' r,
      loop rounds rt commands c = Some (c', r) /\ session_end rt commands c c' r.
Proof.
  induction rounds as [|rounds IH]; intros c Hlt; [lia|]. cbn [loop].
  destruct (round rt commands c) as [c1 [e|[|]]] eqn:E;
    pose proof (round_cases _ _ _ _ _ E) as Hc; cbn beta iota in Hc.
  - eexists _, _. split; [done|]. exists c. split; [constructor|].
    destruct Hc as [(Hs & -> & Hs1 & Hl & Hn) | (name & -> & Hn)].
    + right; left. by repeat split.
    + right; right. by exists name.
  - destruct (IH c1) as (c' & r & Hloop & c_last & Hto & Hend); [lia|].
    exists c', r. split; [done|]. exists c_last. split; [|done].
    by econstructor.
  - eexists _, _. split; [done|]. exists c. split; [constructor|].
    destruct Hc as (line & rest & Hl & Hi & Hs & Hlog & Hsent).
    left. by exists line, rest.
Qed.

Lemma loop_more rt commands :
  forall rounds rounds' c x,
    loop rounds rt commands c = Some x -> (rounds <= rounds')%nat ->
    loop rounds' rt commands c = Some x.
Proof.
  induction rounds as [|rounds IH]; intros rounds' c x; [done|].
  destruct rounds' as [|rounds']; [lia|]. cbn [loop].
  destruct (round rt commands c) as [c1 [e|[|]]]; try done.
  intros H Hle. apply (IH rounds'); [done|lia].
Qed.

(** X25: a session at the menu always comes to an end, and no failure
    of a command ends it. On a console of finitely many characters the
    loop stops after at most one round per character, so that as many
    rounds and one more, or any greater number, give the same result.
    It stops in one of three ways only, after rounds that all came back
    to the menu: the line at the prompt for the selection is the number
    of [Quit], and the loop is left with nothing more logged or sent;
    the console has run out at that prompt; or the transport raised
    something that is not an [Exception]. And in the round of a command
    the menu is printed, the selection is read and the command is run;
    when it returns the menu comes again, and when it raises, the end
    of the console at one of its own questions too, the exception is
    caught, the two records of the loop are logged and the menu comes
    again. *)
Theorem session_ends rt gcs_client c :
  (exists c' r,
     (forall rounds,
        (String.length (stdin c) < rounds)%nat ->
        loop rounds rt (commands gcs_client) c = Some (c', r))
     /\ session_end rt (commands gcs_client) c c' r)
  /\ (forall c0 line rest n command,
        lines (stdin c0) = line :: rest ->
        int_ rt line = Some (Z.of_nat n) ->
        commands gcs_client !! n = Some command ->
        exists left,
          lines left = rest
          /\ round rt (commands gcs_client) c0
             = match run_command command (order rt (kind command)) (value_error rt)
                       (at_selection (commands gcs_client) c0 left) with
               | (c1, inr _) => (c1, inr Again)
               | (c1, inl e) =>
                   if caught rt e then (with_caught c1 e, inr Again)
                   else (c1, inl e)
               end)
  /\ (forall c0 c1 rounds,
        round rt (commands gcs_client) c0 = (c1, inr Again) ->
        loop (S rounds) rt (commands gcs_client) c0
        = loop rounds rt (commands gcs_client) c1).
Proof.
  split; [|split].
  - destruct (loop_ends rt (commands gcs_client) (S (String.length (stdin c))) c)
      as (c' & r & Hloop & Hend); [lia|].
    exists c', r. split; [|done]. intros rounds Hlt.
    apply (loop_more _ _ _ _ _ _ Hloop). lia.
  - intros c0 line rest n command. apply round_command.
  - intros c0 c1 rounds H. cbn [loop]. by rewrite H.
Qed.

Lemma session_ends_witness :
  exists c' r,
    (forall rounds,
       (String.length (stdin demo_session.c_failure) < rounds)%nat ->
       loop rounds demo_session.rt (commands demo.client) demo_session.c_failure
       = Some (c', r))
    /\ session_end demo_session.rt (commands demo.client) demo_session.c_failure c' r.
Proof.
  exact (proj1 (session_ends demo_session.rt demo.client demo_session.c_failure)).
Defined.

(** The session of [demo_session.c0]: the bucket is made, then [Quit]. *)
Example session_of_two_rounds :
  exists c',
    loop 2 demo_session.rt (commands demo.client) demo_session.c0 = Some (c', inr tt)
    /\ map req_url (sent (net c')) = ["http://my-bucket.storage.googleapis.com"]
    /\ map msg (logged c')
       = [AStr "%s cannot be blank.";
          AStr ("Bucket " +:+ dq +:+ "my-bucket" +:+ dq +:+ " created")].
Proof. eexists. vm_compute. by repeat split. Qed.

(** The session of [demo_session.c_failure]: the command fails on the
    name, the failure is logged by the command and by the loop, nothing
    is sent, the menu is printed a second time and [Quit] ends the
    session. *)
Example session_after_a_failure :
  exists c',
    loop 2 demo_session.rt (commands demo.client) demo_session.c_failure
    = Some (c', inr tt)
    /\ sent (net c') = []
    /\ map msg (logged c')
       = [AStr "%s failed: %s";
          AStr "Error running command. Please try again.";
          AExn (Exn (ValueError
                       "Bucket names can only end with letters or numbers. my-bucket-"))]
    /\ stdout (net c')
       = menu_lines (commands demo.client) ++ menu_lines (commands demo.client).
Proof. eexists. vm_compute. by repeat split. Qed.

(** ** The project id *)






(** * The text of an error *)

Section Repr.

Local Ltac by_char c := destruct c as [[] [] [] [] [] [] [] []]; vm_compute; done.

Lemma printable_cons c s :
  printable (String c s)
  = (32 <=? N_of_ascii c)%N && (N_of_ascii c <? 127)%N && printable s.
Proof. reflexivity. Qed.

Lemma printable_app s t : printable (s +:+ t) = printable s && printable t.
Proof.
  induction s as [|c s IH]; [done|].
  by rewrite app_cons, !printable_cons, IH, andb_assoc.
Qed.

Lemma printable_uint d : printable (NilEmpty.string_of_uint d) = true.
Proof. induction d; simpl; try done; by rewrite IHd. Qed.

Lemma printable_nilzero d : printable (NilZero.string_of_uint d) = true.
Proof. pose proof (printable_uint d) as H. by destruct d. Qed.

Lemma printable_fmt_d z : printable (fmt_d z) = true.
Proof.
  unfold fmt_d, NilZero.string_of_int.
  destruct (Z.to_int z) as [d|d]; [apply printable_nilzero|].
  by rewrite printable_cons, printable_nilzero.
Qed.

Lemma quote_cases s : repr_quote s = "'"%char \/ repr_quote s = "034"%char.
Proof. unfold repr_quote. destruct (_ && _); by auto. Qed.

Lemma printable_repr_char q c :
  q = "'"%char \/ q = "034"%char -> printable (repr_char q c) = true.
Proof. intros [-> | ->]; by_char c. Qed.

Lemma printable_repr_body q s :
  q = "'"%char \/ q = "034"%char -> printable (repr_body q s) = true.
Proof.
  intros Hq. induction s as [|c s IH]; [done|]. cbn [repr_body].
  by rewrite printable_app, printable_repr_char, IH.
Qed.

Lemma printable_repr_str s : printable (repr_str s) = true.
Proof.
  unfold repr_str. pose proof (quote_cases s) as Hq.
  rewrite printable_cons, printable_app, printable_repr_body by done.
  by destruct Hq as [-> | ->].
Qed.

(** What [repr] writes for a character is read back as that
    character. *)
Lemma read_repr_char q c r :
  q = "'"%char \/ q = "034"%char ->
  read_char (repr_char q c +:+ r) = Some (c, r).
Proof. intros [-> | ->]; by_char c. Qed.

(** It does not begin with the quote. *)
Lemma repr_char_head q c :
  q = "'"%char \/ q = "034"%char ->
  exists a r, repr_char q c = String a r /\ a <> q.
Proof.
  intros [-> | ->]; destruct c as [[] [] [] [] [] [] [] []];
    vm_compute; by eexists _, _.
Qed.

Lemma repr_body_inj q s :
  q = "'"%char \/ q = "034"%char ->
  forall s' t t',
    repr_body q s +:+ String q t = repr_body q s' +:+ String q t' -> s = s'.
Proof.
  intros Hq. induction s as [|c s IH]; intros [|c' s'] t t'; cbn [repr_body].
  - done.
  - destruct (repr_char_head q c' Hq) as (a & r & -> & Ha).
    rewrite app_empty_l, !app_cons. by intros [= <-].
  - destruct (repr_char_head q c Hq) as (a & r & -> & Ha).
    rewrite app_empty_l, !app_cons. by intros [= ->].
  - rewrite !string_app_assoc. intros H.
    apply (f_equal read_char) in H. rewrite !read_repr_char in H by done.
    injection H as -> H. by rewrite (IH _ _ _ H).
Qed.

Lemma repr_str_inj s s' : repr_str s = repr_str s' -> s = s'.
Proof.
  unfold repr_str. intros [= Hq H]. rewrite <- Hq in H.
  by apply (repr_body_inj _ s (quote_cases s) s') in H.
Qed.

Lemma lacks_colon_uint d : lacks ":" (NilEmpty.string_of_uint d) = true.
Proof. induction d; simpl; try done; by rewrite IHd. Qed.

Lemma lacks_colon_nilzero d : lacks ":" (NilZero.string_of_uint d) = true.
Proof. pose proof (lacks_colon_uint d) as H. by destruct d. Qed.

Lemma lacks_colon_fmt_d z : lacks ":" (fmt_d z) = true.
Proof.
  unfold fmt_d, NilZero.string_of_int.
  destruct (Z.to_int z) as [d|d]; [apply lacks_colon_nilzero|].
  cbn [lacks]. by rewrite lacks_colon_nilzero.
Qed.

Lemma split_at c (a a' r r' : string) :
  lacks c a = true -> lacks c a' = true ->
  a +:+ String c r = a' +:+ String c r' -> a = a' /\ r = r'.
Proof.
  revert a'. induction a as [|x a IH]; intros [|x' a']; cbn [lacks];
    rewrite ?app_empty_l, ?app_cons.
  - by intros _ _ [= ->].
  - intros _ [Hx _]%andb_true_iff [= <- _]. by rewrite Ascii.eqb_refl in Hx.
  - intros [Hx _]%andb_true_iff _ [= -> _]. by rewrite Ascii.eqb_refl in Hx.
  - intros [_ Ha]%andb_true_iff [_ Ha']%andb_true_iff [= -> H].
    by destruct (IH a' Ha Ha' H) as [-> ->].
Qed.

End Repr.

(** X26: the text of a [GcsError]. [__str__] writes the status and the
    message with [repr]; so the text is one line of printable ASCII
    characters whatever the reason of the response holds, newlines and
    bytes beyond ASCII too, and it tells the error: two errors with the
    same text have the same status and the same message. *)
Theorem gcs_error_text_faithful status message :
  printable (__str__ status message) = true
  /\ lacks "010" (__str__ status message) = true
  /\ forall status' message',
       __str__ status message = __str__ status' message' ->
       status = status' /\ message = message'.
Proof.
  assert (printable (__str__ status message) = true) as Hp.
  { unfold __str__, repr_int.
    by rewrite !printable_app, printable_fmt_d, printable_repr_str. }
  split; [done|]. split.
  - revert Hp. generalize (__str__ status message). intros s.
    induction s as [|c s IH]; [done|]. rewrite printable_cons. cbn [lacks].
    intros [[H1 H2]%andb_true_iff Hs]%andb_true_iff. rewrite IH by done.
    destruct (Ascii.eqb_spec c "010") as [->|]; [|done]. done.
  - intros status' message'. unfold __str__, repr_int.
    change (": " +:+ ?r) with (String ":" (String " " r)).
    intros H. apply split_at in H as [Hs Hm]; try apply lacks_colon_fmt_d.
    split; [by apply fmt_d_inj|]. apply repr_str_inj. congruence.
Qed.

(** The text of a 404, and of a reason with a quote and a newline in
    it. *)
Example gcs_error_text_examples :
  __str__ 404 "Not Found" = "404: 'Not Found'"
  /\ __str__ 500 ("it's" +:+ newline) = "500: " +:+ dq +:+ "it's\n" +:+ dq.
Proof. by vm_compute. Qed.
